(** * generate-icon.py: the icon renderer and its pipeline

    A shallow embedding of [src/scripts/generate-icon.py]: Python's floats
    as IEEE binary64 values, its integers as [Z], its exceptions as a
    result type, images as records of a size and a pixel function, the
    process (files, console, pip, imports) as a state monad over a world,
    and the calls of [create_icon] also as a state monad over the
    interpreter's objects.  The definitions come first, the lemmas and
    theorems after them. *)

From stdpp Require Import gmap strings list.
From Stdlib Require Import ZArith QArith Qpower Qround Lia Lqa DecimalString.
From Stdlib Require Import Floats.SpecFloat.
Open Scope Z_scope.

(** * IEEE binary64, after the Standard Library's [SpecFloat] *)

Module B64.

Definition prec : Z := 53.

Definition emax : Z := 1024.

Definition inexact (r : shr_record) : bool := shr_r r || shr_s r.

Abbreviation fexp := (SpecFloat.fexp prec emax).

Abbreviation emin := (-1074) (only parsing).

(** ** Exact values *)

Definition pow2 (e : Z) : Q := (2 ^ e)%Q.

(** The rational denoted by a float; zeros, infinities and NaN are sent to 0
    and are told apart by the callers. *)
Definition SF2Q (x : spec_float) : Q :=
  match x with
  | S754_finite s m e => inject_Z (cond_Zopp s (Z.pos m)) * pow2 e
  | _ => 0
  end.

(** Finite results: a zero, or a mantissa of at most 53 bits above the
    smallest exponent and below overflow. *)
Definition finite (x : spec_float) : Prop :=
  match x with
  | S754_zero _ => True
  | S754_finite _ m e => Z.pos (digits2_pos m) <= 53 /\ emin <= e <= 971
  | _ => False
  end.

Definition sign_of (x : spec_float) : option bool :=
  match x with
  | S754_zero s | S754_infinity s | S754_finite s _ _ => Some s
  | S754_nan => None
  end.

(** A rational that some binary64 float denotes, up to sign. *)
Definition repr (K : Q) : Prop :=
  exists k g, 0 <= k < 2 ^ 53 /\ emin <= g /\ (K == inject_Z k * pow2 g)%Q.

(** [r] is [x >= 0] rounded to a neighbouring float, never across a
    representable number. *)
Definition rounds_abs (x : Q) (r : spec_float) : Prop :=
  forall K, repr K ->
    ((x <= K)%Q -> (SF2Q (SFabs r) <= K)%Q) /\
    ((K <= x)%Q -> (K <= SF2Q (SFabs r))%Q).

(** ** Signed rounding *)

Definition srepr (K : Q) : Prop := repr K \/ repr (- K).

Definition rounds (v : Q) (r : spec_float) : Prop :=
  finite r /\
  forall K, srepr K ->
    ((v <= K)%Q -> (SF2Q r <= K)%Q) /\ ((K <= v)%Q -> (K <= SF2Q r)%Q).

(** ** The operations of Python floats (IEEE binary64) *)

Definition fmul : spec_float -> spec_float -> spec_float := SFmul prec emax.

Definition fadd : spec_float -> spec_float -> spec_float := SFadd prec emax.

Definition fsub : spec_float -> spec_float -> spec_float := SFsub prec emax.

Definition fdiv : spec_float -> spec_float -> spec_float := SFdiv prec emax.

Definition fsqrt : spec_float -> spec_float := SFsqrt prec emax.

Definition flt : spec_float -> spec_float -> bool := SFltb.

(** Conversion of an integer, rounded to nearest even. *)
Definition of_Z (z : Z) : spec_float := binary_normalize prec emax z 0 false.

(** Truncation toward zero; undefined on infinities and NaN. *)
Definition to_Z (x : spec_float) : option Z :=
  match x with
  | S754_zero _ => Some 0
  | S754_finite s m e =>
      Some (cond_Zopp s (if 0 <=? e then Z.pos m * 2 ^ e else Z.pos m / 2 ^ (- e)))
  | _ => None
  end.

Definition one : spec_float := S754_finite false 4503599627370496 (-52).

End B64.

(** * Python values *)

Inductive exn :=
| NameError (name : string)
| ImportError (name : string)
| CalledProcessError (returncode : Z)
| ZeroDivisionError
| OverflowError
| ValueError
| IndexError
| OSError (path : list string).

Inductive result (A : Type) :=
| Ok (a : A)
| Raise (e : exn).
Arguments Ok {A} a.
Arguments Raise {A} e.

#[global] Instance result_ret : MRet result := fun A a => Ok a.
#[global] Instance result_bind : MBind result :=
  fun A B k m => match m with Ok a => k a | Raise e => Raise e end.

(** Python numbers: unbounded integers and binary64 floats. *)
Inductive num :=
| PInt (z : Z)
| PFloat (f : spec_float).

Definition is_finite (f : spec_float) : bool :=
  match f with
  | S754_zero _ | S754_finite _ _ _ => true
  | _ => false
  end.

Definition is_zero (f : spec_float) : bool :=
  match f with
  | S754_zero _ => true
  | _ => false
  end.

(** [float(z)]: nearest float, OverflowError beyond the largest one. *)
Definition float_of_int (z : Z) : result spec_float :=
  let f := B64.of_Z z in
  if is_finite f then Ok f else Raise OverflowError.

Definition as_float (a : num) : result spec_float :=
  match a with
  | PInt z => float_of_int z
  | PFloat f => Ok f
  end.

Definition py_add (a b : num) : result num :=
  match a, b with
  | PInt x, PInt y => Ok (PInt (x + y))
  | _, _ => x ← as_float a; y ← as_float b; Ok (PFloat (B64.fadd x y))
  end.

Definition py_sub (a b : num) : result num :=
  match a, b with
  | PInt x, PInt y => Ok (PInt (x - y))
  | _, _ => x ← as_float a; y ← as_float b; Ok (PFloat (B64.fsub x y))
  end.

Definition py_mul (a b : num) : result num :=
  match a, b with
  | PInt x, PInt y => Ok (PInt (x * y))
  | _, _ => x ← as_float a; y ← as_float b; Ok (PFloat (B64.fmul x y))
  end.

(** An integer as an unrounded mantissa at exponent 0, for the correctly
    rounded quotient of two integers. *)
Definition int_mantissa (z : Z) : spec_float :=
  match z with
  | Z0 => S754_zero false
  | Z.pos p => S754_finite false p 0
  | Z.neg p => S754_finite true p 0
  end.

(** [a / b]: true division.  On two integers the exact quotient is rounded
    once; a zero divisor raises. *)
Definition py_truediv (a b : num) : result num :=
  match a, b with
  | PInt x, PInt y =>
      if y =? 0 then Raise ZeroDivisionError
      else
        let f := B64.fdiv (int_mantissa x) (int_mantissa y) in
        if is_finite f then Ok (PFloat f) else Raise OverflowError
  | _, _ =>
      x ← as_float a; y ← as_float b;
      if is_zero y then Raise ZeroDivisionError else Ok (PFloat (B64.fdiv x y))
  end.

Definition Qltb (a b : Q) : bool := Qnum a * QDen b <? Qnum b * QDen a.

(** [a < b]; an integer and a float are compared exactly. *)
Definition py_lt (a b : num) : bool :=
  match a, b with
  | PInt x, PInt y => x <? y
  | PFloat f, PFloat g => B64.flt f g
  | PInt x, PFloat g =>
      match g with
      | S754_nan => false
      | S754_infinity s => negb s
      | _ => Qltb (inject_Z x) (B64.SF2Q g)
      end
  | PFloat f, PInt y =>
      match f with
      | S754_nan => false
      | S754_infinity s => s
      | _ => Qltb (B64.SF2Q f) (inject_Z y)
      end
  end.

(** [int(a)]: truncation toward zero. *)
Definition py_int (a : num) : result Z :=
  match a with
  | PInt z => Ok z
  | PFloat f =>
      match B64.to_Z f with
      | Some z => Ok z
      | None => match f with S754_nan => Raise ValueError | _ => Raise OverflowError end
      end
  end.

(** [min(a, b)]: the first argument unless the second is smaller. *)
Definition py_min (a b : num) : num := if py_lt b a then b else a.

(** [math.sqrt(a)]: a domain error below zero. *)
Definition math_sqrt (a : num) : result num :=
  x ← as_float a;
  if B64.flt x (S754_zero false) then Raise ValueError else Ok (PFloat (B64.fsqrt x)).

(** The float literals of the script, each the double nearest to its
    decimal. *)
Definition c_0_22 : spec_float := S754_finite false 7926335344172073 (-55).
Definition c_0_18 : spec_float := S754_finite false 6485183463413514 (-55).
Definition c_0_125 : spec_float := S754_finite false 4503599627370496 (-55).
Definition c_0_28 : spec_float := S754_finite false 5044031582654956 (-54).
Definition c_1_1 : spec_float := S754_finite false 4953959590107546 (-52).
Definition c_0_8 : spec_float := S754_finite false 7205759403792794 (-53).
Definition c_0_7 : spec_float := S754_finite false 6305039478318694 (-53).
Definition c_0_04 : spec_float := S754_finite false 5764607523034235 (-57).
Definition c_0_5 : spec_float := S754_finite false 4503599627370496 (-53).
Definition c_1_0 : spec_float := B64.one.

(** A decimal literal [n / d] read as a double: the quotient rounded once. *)
Definition literal (n d : Z) : spec_float := B64.fdiv (int_mantissa n) (int_mantissa d).

(** * PIL images *)

(** An image: its size and its pixels, [P] the pixel type of its mode
    ([Z] for "L", [rgba] for "RGBA"). *)
Record image (P : Type) := Image {
  width : Z;
  height : Z;
  px : Z -> Z -> P
}.
Arguments Image {P} width height px.
Arguments width {P} i.
Arguments height {P} i.
Arguments px {P} i x y.

Definition rgba : Type := Z * Z * Z * Z.

Definition alpha (p : rgba) : Z := snd p.

Definition in_image {P} (im : image P) (x y : Z) : bool :=
  (0 <=? x) && (x <? width im) && (0 <=? y) && (y <? height im).

(** A canvas of one colour. *)
Definition blank {P} (w h : Z) (color : P) : image P := Image w h (fun _ _ => color).

(** [Image.new(mode, (w, h), color)]. *)
Definition Image_new {P} (w h : Z) (color : P) : result (image P) :=
  if (w <? 0) || (h <? 0) then Raise ValueError
  else Ok (blank w h color).

(** [im.putpixel((x, y), v)]; a negative index counts from the far edge. *)
Definition putpixel {P} (im : image P) (xy : Z * Z) (v : P) : result (image P) :=
  let x := if fst xy <? 0 then fst xy + width im else fst xy in
  let y := if snd xy <? 0 then snd xy + height im else snd xy in
  if in_image im x y
  then Ok (Image (width im) (height im)
             (fun x' y' => if (x' =? x) && (y' =? y) then v else px im x' y'))
  else Raise IndexError.

(** [im] with its alpha channel replaced by [a]. *)
Definition with_alpha (im : image rgba) (a : image Z) : image rgba :=
  Image (width im) (height im)
    (fun x y => let '(r, g, b, _) := px im x y in (r, g, b, px a x y)).

(** [im.putalpha(a)] with [a] an "L" image, which must have the size of
    [im]. *)
Definition putalpha (im : image rgba) (a : image Z) : result (image rgba) :=
  if (width a =? width im) && (height a =? height im)
  then Ok (with_alpha im a)
  else Raise ValueError.

(** [im.getchannel('A')]. *)
Definition getchannel_A (im : image rgba) : image Z :=
  Image (width im) (height im) (fun x y => alpha (px im x y)).

Definition clip8 (v : Z) : Z := Z.max 0 (Z.min 255 v).

(** [ImageChops.multiply(a, b)]: [a * b / 255] per pixel, on the common
    area. *)
Definition chops_multiply (a b : image Z) : image Z :=
  Image (Z.min (width a) (width b)) (Z.min (height a) (height b))
    (fun x y => clip8 (px a x y * px b x y / 255)).

(** A drawing call sets the covered pixels of the image to [fill]. *)
Definition draw {P} (covers : Z -> Z -> bool) (fill : P) (im : image P) : image P :=
  Image (width im) (height im)
    (fun x y => if in_image im x y && covers x y then fill else px im x y).

(** [for i in l: s = body(i, s)], stopping at the first exception. *)
Fixpoint for_each {S} (l : list Z) (body : Z -> S -> result S) (s : S) : result S :=
  match l with
  | [] => Ok s
  | i :: l' => s' ← body i s; for_each l' body s'
  end.

(** [range(n)]. *)
Definition range (n : Z) : list Z := Z.of_nat <$> seq 0 (Z.to_nat n).

(** * The icon renderer *)

Definition bg_dark : Z * Z * Z := (24, 24, 27).
Definition bg_lighter : Z * Z * Z := (39, 39, 42).
Definition grad_top : Z * Z * Z := (255, 120, 100).
Definition grad_mid : Z * Z * Z := (255, 65, 55).
Definition grad_bottom : Z * Z * Z := (200, 30, 25).

(** [int(a + (b - a) * t)], the shape of every colour channel. *)
Definition lerp (a b : Z) (t : num) : result Z :=
  d ← py_mul (PInt (b - a)) t;
  v ← py_add (PInt a) d;
  py_int v.

Definition lerp3 (a b : Z * Z * Z) (t : num) : result (Z * Z * Z) :=
  r ← lerp a.1.1 b.1.1 t;
  g ← lerp a.1.2 b.1.2 t;
  b ← lerp a.2 b.2 t;
  Ok (r, g, b).

(** The background colour at [(x, y)], lines 42-50. *)
Definition bg_pixel (size x y : Z) : result rgba :=
  hx ← py_truediv (PInt size) (PInt 2);
  nx ← py_sub (PInt x) hx;
  hx' ← py_truediv (PInt size) (PInt 2);
  dx ← py_truediv nx hx';
  hy ← py_truediv (PInt size) (PInt 2);
  ny ← py_sub (PInt y) hy;
  hy' ← py_truediv (PInt size) (PInt 2);
  dy ← py_truediv ny hy';
  dx2 ← py_mul dx dx;
  dy2 ← py_mul dy dy;
  s ← py_add dx2 dy2;
  dist ← math_sqrt s;
  d ← py_mul dist (PFloat c_0_7);
  let t := py_min (PFloat c_1_0) d in
  '(r, g, b) ← lerp3 bg_lighter bg_dark t;
  Ok (r, g, b, 255).

(** Lines 39-51. *)
Definition paint_background (size : Z) (img : image rgba) : result (image rgba) :=
  for_each (range size) (fun y img =>
    for_each (range size) (fun x img =>
      c ← bg_pixel size x y;
      putpixel img (x, y) c) img) img.

(** [int(size * c)]. *)
Definition scaled (size : Z) (c : spec_float) : result Z :=
  v ← py_mul (PInt size) (PFloat c);
  py_int v.

Record geometry := Geometry {
  margin_x : Z;
  margin_top : Z;
  margin_bottom : Z;
  stroke : Z;
  v_depth : Z;
  canvas : Z
}.

Definition left (g : geometry) : Z := margin_x g.
Definition right (g : geometry) : Z := canvas g - margin_x g.
Definition top (g : geometry) : Z := margin_top g.
Definition bottom (g : geometry) : Z := canvas g - margin_bottom g.
Definition center_x (g : geometry) : Z := canvas g / 2.

(** Lines 64-74. *)
Definition glyph_geometry (size : Z) : result geometry :=
  mx ← scaled size c_0_18;
  mt ← scaled size c_0_22;
  mb ← scaled size c_0_22;
  st ← scaled size c_0_125;
  vd ← scaled size c_0_28;
  Ok (Geometry mx mt mb st vd size).

(** The glyph outline, lines 78-99. *)
Definition m_outer (g : geometry) : result (list (num * num)) :=
  w3 ← py_mul (PInt (stroke g)) (PFloat c_1_1);
  x3 ← py_add (PInt (left g)) w3;
  w5 ← py_mul (PInt (stroke g)) (PFloat c_1_1);
  x5 ← py_sub (PInt (right g)) w5;
  h9 ← py_mul (PInt (stroke g)) (PFloat c_0_8);
  y9 ← py_add (PInt (top g)) h9;
  h10 ← py_mul (PInt (stroke g)) (PFloat c_0_7);
  y10 ← py_add (PInt (top g + v_depth g)) h10;
  h11 ← py_mul (PInt (stroke g)) (PFloat c_0_8);
  y11 ← py_add (PInt (top g)) h11;
  Ok [ (PInt (left g), PInt (bottom g));
       (PInt (left g), PInt (top g));
       (x3, PInt (top g));
       (PInt (center_x g), PInt (top g + v_depth g));
       (x5, PInt (top g));
       (PInt (right g), PInt (top g));
       (PInt (right g), PInt (bottom g));
       (PInt (right g - stroke g), PInt (bottom g));
       (PInt (right g - stroke g), y9);
       (PInt (center_x g), y10);
       (PInt (left g + stroke g), y11);
       (PInt (left g + stroke g), PInt (bottom g)) ].

(** The gradient position of row [y], lines 106-111. *)
Definition gradient_t (g : geometry) (y : Z) : result num :=
  if y <? top g then Ok (PInt 0)
  else if bottom g <? y then Ok (PInt 1)
  else py_truediv (PInt (y - top g)) (PInt (bottom g - top g)).

(** The three-stop colour at position [t], lines 114-123. *)
Definition gradient_color (t : num) : result (Z * Z * Z) :=
  if py_lt t (PFloat c_0_5) then
    t2 ← py_mul t (PInt 2);
    lerp3 grad_top grad_mid t2
  else
    d ← py_sub t (PFloat c_0_5);
    t2 ← py_mul d (PInt 2);
    lerp3 grad_mid grad_bottom t2.

(** The colour of row [y], lines 106-123. *)
Definition gradient_row (g : geometry) (y : Z) : result (Z * Z * Z) :=
  t ← gradient_t g y;
  gradient_color t.

(** Lines 104-126. *)
Definition paint_gradient (size : Z) (g : geometry) (img : image rgba)
  : result (image rgba) :=
  for_each (range size) (fun y img =>
    '(r, g, b) ← gradient_row g y;
    for_each (range size) (fun x img => putpixel img (x, y) (r, g, b, 255)) img) img.

(** * The script *)

Definition path : Type := list string.

#[warnings="-register-all"]
Inductive json :=
| JStr (s : string)
| JNum (n : Z)
| JArr (items : list json)
| JObj (fields : list (string * json)).

Inductive file :=
| PNG (im : image rgba)
| JSONText (j : json) (indent : Z).

Inductive event :=
| EvImport (names : list string) (ok : bool)
| EvRun (argv : list string) (returncode : Z)
| EvPrint (line : string)
| EvMakedirs (p : path)
| EvWrite (p : path).

(** What the process sees and changes: the files and directories other
    than those pip manages (the interpreter's packages, pip's caches),
    the trace of its calls, and how its environment answers (is PIL among
    the interpreter's packages, what pip returns and whether it then put
    PIL there, which paths can be written or, for a directory, made with
    their missing parents, where the script and the interpreter are). *)
Record world := World {
  fs : gmap path file;
  dirs : gset path;
  trace : list event;
  pil_importable : bool;
  pip_returncode : Z;
  pip_installs : bool;
  writable : path -> bool;
  script_file : path;
  executable : string
}.

Definition io (A : Type) : Type := world -> result A * world.

#[global] Instance io_ret : MRet io := fun A a w => (Ok a, w).
#[global] Instance io_bind : MBind io :=
  fun A B k m w => match m w with (Ok a, w') => k a w' | (Raise e, w') => (Raise e, w') end.

Definition lift {A} (r : result A) : io A := fun w => (r, w).

Definition emit (e : event) (w : world) : world :=
  World (fs w) (dirs w) (trace w ++ [e]) (pil_importable w) (pip_returncode w)
    (pip_installs w) (writable w) (script_file w) (executable w).

Definition print (line : string) : io unit := fun w => (Ok tt, emit (EvPrint line) w).

(** [from PIL import names]: the names bound, or ImportError. *)
Definition import_PIL (names : list string) : io (gset string) := fun w =>
  if pil_importable w
  then (Ok (list_to_set names), emit (EvImport names true) w)
  else (Raise (ImportError "PIL"), emit (EvImport names false) w).

(** [subprocess.check_call(argv)] of the pip command.  What pip writes goes
    to the interpreter's packages: of it the world keeps whether PIL can
    be imported afterwards. *)
Definition check_call (argv : list string) : io unit := fun w =>
  let w' := emit (EvRun argv (pip_returncode w)) w in
  if pip_returncode w =? 0
  then (Ok tt,
        World (fs w') (dirs w') (trace w') (pip_installs w) (pip_returncode w')
          (pip_installs w') (writable w') (script_file w') (executable w'))
  else (Raise (CalledProcessError (pip_returncode w)), w').

Definition try_except_ImportError {A} (body handler : io A) : io A := fun w =>
  match body w with
  | (Raise (ImportError _), w') => handler w'
  | r => r
  end.

(** Lines 11-16. *)
Definition import_guard : io (gset string) :=
  try_except_ImportError
    (import_PIL ["Image"; "ImageDraw"; "ImageFilter"; "ImageChops"])
    (_ ← print "Installing Pillow...";
     exe ← (fun w => (Ok (executable w), w));
     _ ← check_call [exe; "-m"; "pip"; "install"; "Pillow"; "-q"];
     import_PIL ["Image"; "ImageDraw"; "ImageFilter"]).

(** Reading a module global. *)
Definition global (ns : gset string) (name : string) : result unit :=
  if decide (name ∈ ns) then Ok tt else Raise (NameError name).

(** The directories on the way to [p], the outermost first and [p] itself
    the last; the root is not among them. *)
Definition ancestors (p : path) : list path :=
  filter (fun d : path => d <> [""%string]) ((fun n => take n p) <$> seq 1 (length p)).

(** A directory that is not there and cannot be made. *)
Definition cannot_make (w : world) (d : path) : Prop :=
  d ∉ dirs w /\ writable w d = false.

#[global] Instance cannot_make_dec w d : Decision (cannot_make w d).
Proof. unfold cannot_make. apply _. Defined.

Definition with_dirs (w : world) (made : list path) (evs : list event) : world :=
  World (fs w) (dirs w ∪ list_to_set made) (trace w ++ evs) (pil_importable w)
    (pip_returncode w) (pip_installs w) (writable w) (script_file w) (executable w).

(** [os.makedirs(p, exist_ok=True)]: the missing directories on the way to
    [p] are made from the outermost in, and a directory that is there is
    no error.  When [p] cannot be made the call raises OSError for the
    first directory on the way that cannot, and those made before it
    stay. *)
Definition makedirs (p : path) : io unit := fun w =>
  if bool_decide (p ∈ dirs w) || writable w p
  then (Ok tt, with_dirs w (ancestors p) [EvMakedirs p])
  else match list_find (cannot_make w) (ancestors p) with
       | Some (i, d) => (Raise (OSError d), with_dirs w (take i (ancestors p)) [])
       | None => (Raise (OSError p), w)
       end.

Definition write_file (p : path) (f : file) : io unit := fun w =>
  if writable w p
  then (Ok tt,
        World (<[p := f]> (fs w)) (dirs w) (trace w ++ [EvWrite p]) (pil_importable w)
          (pip_returncode w) (pip_installs w) (writable w) (script_file w) (executable w))
  else (Raise (OSError p), w).

(** [os.path.dirname]: the path without its last component; the root,
    the one empty component, is its own parent. *)
Definition dirname (p : path) : path :=
  if decide (p = [""%string]) then p else removelast p.

Definition show_Z (z : Z) : string := NilZero.string_of_int (Z.to_int z).

Definition show_path (p : path) : string := String.concat "/" p.

(** The resolution ladder, lines 149-160. *)
Definition sizes : list (Z * string) :=
  [ (16, "icon_16x16.png");
    (32, "icon_16x16@2x.png");
    (32, "icon_32x32.png");
    (64, "icon_32x32@2x.png");
    (128, "icon_128x128.png");
    (256, "icon_128x128@2x.png");
    (256, "icon_256x256.png");
    (512, "icon_256x256@2x.png");
    (512, "icon_512x512.png");
    (1024, "icon_512x512@2x.png") ]%string.

Definition manifest_entry (filename scale size : string) : json :=
  JObj [ ("filename", JStr filename); ("idiom", JStr "mac");
         ("scale", JStr scale); ("size", JStr size) ]%string.

(** Lines 178-192. *)
Definition contents : json :=
  JObj [ ("images", JArr [
           manifest_entry "icon_16x16.png" "1x" "16x16";
           manifest_entry "icon_16x16@2x.png" "2x" "16x16";
           manifest_entry "icon_32x32.png" "1x" "32x32";
           manifest_entry "icon_32x32@2x.png" "2x" "32x32";
           manifest_entry "icon_128x128.png" "1x" "128x128";
           manifest_entry "icon_128x128@2x.png" "2x" "128x128";
           manifest_entry "icon_256x256.png" "1x" "256x256";
           manifest_entry "icon_256x256@2x.png" "2x" "256x256";
           manifest_entry "icon_512x512.png" "1x" "512x512";
           manifest_entry "icon_512x512@2x.png" "2x" "512x512" ]);
         ("info", JObj [ ("author", JStr "xcode"); ("version", JNum 1) ]) ]%string.

(** Lines 174-196. *)
Definition update_contents_json (output_dir : path) : io unit :=
  _ ← write_file (output_dir ++ ["Contents.json"%string]) (JSONText contents 2);
  print "  Updated Contents.json".

Fixpoint for_each_io {A} (l : list A) (body : A -> io unit) : io unit :=
  match l with
  | [] => mret tt
  | a :: l' => _ ← body a; for_each_io l' body
  end.

(** PIL's rasterisers and filters, which the script calls and does not
    define: which pixels a rounded rectangle and a polygon cover, and the
    blurred, composited and resampled pixel values. *)
Class Pillow := {
  rounded_rectangle_covers : Z * Z * Z * Z -> Z -> Z -> Z -> bool;
  polygon_covers : list (num * num) -> Z -> Z -> bool;
  gaussian_blur : num -> image rgba -> Z -> Z -> rgba;
  over : rgba -> rgba -> rgba;
  lanczos : image rgba -> Z * Z -> Z -> Z -> rgba
}.

Section Script.
Context {pil : Pillow}.

(** [im2] laid over [im1], pixel by pixel. *)
Definition composite (im1 im2 : image rgba) : image rgba :=
  Image (width im1) (height im1) (fun x y => over (px im1 x y) (px im2 x y)).

(** [Image.alpha_composite(im1, im2)]: the two images must have one size. *)
Definition alpha_composite (im1 im2 : image rgba) : result (image rgba) :=
  if (width im1 =? width im2) && (height im1 =? height im2)
  then Ok (composite im1 im2)
  else Raise ValueError.

(** [im.filter(ImageFilter.GaussianBlur(radius))]. *)
Definition filter_blur (radius : num) (im : image rgba) : image rgba :=
  Image (width im) (height im) (gaussian_blur radius im).

(** [im.resize((w, h), Image.Resampling.LANCZOS)]. *)
Definition resize (im : image rgba) (wh : Z * Z) : image rgba :=
  Image wh.1 wh.2 (lanczos im wh).

(** The rounded mask, lines 54-56. *)
Definition rounded_mask (ns : gset string) (size corner_radius : Z) : result (image Z) :=
  _ ← global ns "Image";
  mask ← Image_new size size 0;
  _ ← global ns "ImageDraw";
  Ok (draw (rounded_rectangle_covers (0, 0, size, size) corner_radius) 255 mask).

(** The glyph mask, lines 60-100. *)
Definition glyph_mask (ns : gset string) (size : Z) (pts : list (num * num))
  : result (image Z) :=
  _ ← global ns "Image";
  m_mask ← Image_new size size 0;
  _ ← global ns "ImageDraw";
  Ok (draw (polygon_covers pts) 255 m_mask).

(** Lines 21-144. *)
Definition create_icon (ns : gset string) (size : Z) : result (image rgba) :=
  _ ← global ns "Image";
  img ← Image_new size size (0, 0, 0, 0);
  corner_radius ← scaled size c_0_22;
  img ← paint_background size img;
  mask ← rounded_mask ns size corner_radius;
  img ← putalpha img mask;
  g ← glyph_geometry size;
  pts ← m_outer g;
  m_mask ← glyph_mask ns size pts;
  _ ← global ns "Image";
  m_gradient ← Image_new size size (0, 0, 0, 0);
  m_gradient ← paint_gradient size g m_gradient;
  m_gradient ← putalpha m_gradient m_mask;
  _ ← global ns "Image";
  glow ← Image_new size size (0, 0, 0, 0);
  _ ← global ns "ImageDraw";
  let glow := draw (polygon_covers pts) (255, 80, 60, 60) glow in
  _ ← global ns "ImageFilter";
  radius ← py_mul (PInt size) (PFloat c_0_04);
  let glow := filter_blur radius glow in
  _ ← global ns "Image";
  img ← alpha_composite img glow;
  _ ← global ns "Image";
  img ← alpha_composite img m_gradient;
  _ ← global ns "ImageChops";
  putalpha img (chops_multiply (getchannel_A img) mask).

(** Lines 146-172. *)
Definition generate_all_sizes (ns : gset string) (base_img : image rgba)
    (output_dir : path) : io unit :=
  _ ← makedirs output_dir;
  _ ← for_each_io sizes (fun '(size, filename) =>
        _ ← lift (global ns "Image");
        let resized := resize base_img (size, size) in
        let filepath := output_dir ++ [filename] in
        _ ← write_file filepath (PNG resized);
        print ("  Created " +:+ filename +:+ " (" +:+ show_Z size +:+ "x" +:+ show_Z size +:+ ")"));
  _ ← write_file (output_dir ++ ["AppIcon.png"%string]) (PNG base_img);
  print "  Created AppIcon.png (1024x1024)".

(** Lines 198-217. *)
Definition main (ns : gset string) : io unit :=
  _ ← print "Generating MCP Control app icon...";
  icon ← lift (create_icon ns 1024);
  script ← (fun w => (Ok (script_file w), w));
  let script_dir := dirname script in
  let project_dir := dirname script_dir in
  let output_dir :=
    project_dir ++ ["MCPControl"; "Assets.xcassets"; "AppIcon.appiconset"]%string in
  _ ← print ("Output directory: " +:+ show_path output_dir);
  _ ← generate_all_sizes ns icon output_dir;
  _ ← update_contents_json output_dir;
  print (String (Ascii.ascii_of_nat 10) "Done! Rebuild the app in Xcode to see the new icon.").

(** The script run as a program: the import guard, then [main]. *)
Definition program : io unit :=
  ns ← import_guard;
  main ns.

End Script.

(** * Bounds on floats and on the glyph's geometry *)

Import B64.

(** ** Floats with known bounds *)

Definition expo (x : spec_float) : Z :=
  match x with
  | S754_finite _ _ e => e
  | _ => 0
  end.

(** A zero or a normal mantissa. *)
Definition normz (x : spec_float) : Prop :=
  match x with
  | S754_zero _ => True
  | S754_finite _ m _ => Z.pos (digits2_pos m) = 53
  | _ => False
  end.

Definition within (a b : Q) (x : spec_float) : Prop :=
  finite x /\ (a <= SF2Q x <= b)%Q.

(** ** Dyadic bounds *)

(** [a / 2 ^ j]. *)
Definition dy (a j : Z) : Q := (inject_Z a * pow2 (- j))%Q.

(** A positive normal constant between two dyadics. *)
Definition const_between (a b j : Z) (c : spec_float) : Prop :=
  finite c /\ normz c /\ expo c <= 1 /\ (dy a j <= SF2Q c <= dy b j)%Q.

(** ** The glyph's geometry *)

Definition INT_MAX : Z := 2147483647.

(** The sizes PIL can allocate: [Image.new] takes C ints. *)
Definition valid_size (N : Z) : Prop := 0 < N <= INT_MAX.

Definition geometry_of (N : Z) (g : geometry) : Prop :=
  canvas g = N /\ margin_bottom g = margin_top g /\
  0 <= margin_x g /\ 16 * margin_x g <= 3 * N /\
  0 <= margin_top g /\ 32 * margin_top g <= 8 * N /\ 7 * N < 32 * (margin_top g + 1) /\
  0 <= stroke g /\ 8 * stroke g <= N /\ N < 8 * (stroke g + 1) /\
  0 <= v_depth g /\ 32 * v_depth g <= 9 * N.

(** ** Contracts of PIL's rasterisers *)

(** A coordinate, integer or float, between two integers. *)
Definition coord_in (lo hi : Z) (c : num) : Prop :=
  match c with
  | PInt z => lo <= z <= hi
  | PFloat f => within (inject_Z lo) (inject_Z hi) f
  end.

(** A polygon fill never touches a pixel outside an integer box that
    holds all its vertices. *)
Definition polygon_in_bbox (pil : Pillow) : Prop :=
  forall pts x0 x1 y0 y1 x y,
    Forall (fun p : num * num => coord_in x0 x1 p.1 /\ coord_in y0 y1 p.2) pts ->
    polygon_covers pts x y = true -> x0 <= x <= x1 /\ y0 <= y <= y1.

Definition clamp (v lo hi : Z) : Z := Z.max lo (Z.min hi v).

(** The rounded rectangle of box [(x0, y0, x1, y1)] and radius [r]: the
    points of the box within [r] of the box shrunk by [r]. *)
Definition in_rounded_rect (box : Z * Z * Z * Z) (r x y : Z) : bool :=
  let '(x0, y0, x1, y1) := box in
  let cx := clamp x (x0 + r) (x1 - r) in
  let cy := clamp y (y0 + r) (y1 - r) in
  (x0 <=? x) && (x <=? x1) && (y0 <=? y) && (y <=? y1)
  && ((x - cx) * (x - cx) + (y - cy) * (y - cy) <=? r * r).





(** A float that is NaN or carries a plus sign. *)
Definition nonneg_or_nan (r : spec_float) : Prop :=
  r = S754_nan \/ sign_of r = Some false.

(** ** The gradient as the specification words it *)

(** The specification's gradient, in exact arithmetic. *)

(** [clamp(v, lo, hi)]. *)
Definition spec_clamp (v lo hi : Q) : Q :=
  if Qlt_le_dec v lo then lo else if Qlt_le_dec hi v then hi else v.

(** [t = clamp((y - top_y) / (bottom_y - top_y), 0, 1)]. *)
Definition spec_position (g : geometry) (y : Z) : Q :=
  spec_clamp (inject_Z (y - top g) / inject_Z (bottom g - top g)) 0 1.

(** Linear interpolation from [a] to [b] at [s] in [0, 1]. *)
Definition spec_mix (a b : Z) (s : Q) : Q := (inject_Z a + inject_Z (b - a) * s)%Q.

Definition spec_mix3 (a b : Z * Z * Z) (s : Q) : Q * Q * Q :=
  (spec_mix a.1.1 b.1.1 s, spec_mix a.1.2 b.1.2 s, spec_mix a.2 b.2 s).

(** Below one half from the top stop to the mid stop with [t] scaled to
    [0, 1], otherwise from the mid stop to the bottom stop with
    [t - 0.5] scaled to [0, 1]. *)
Definition spec_gradient (t : Q) : Q * Q * Q :=
  if Qlt_le_dec t (1 # 2)
  then spec_mix3 grad_top grad_mid (t * 2)
  else spec_mix3 grad_mid grad_bottom ((t - (1 # 2)) * 2).

Definition spec_gradient_row (g : geometry) (y : Z) : Q * Q * Q :=
  spec_gradient (spec_position g y).

(** The integer channel [c] is the exact value [e] cut to an integer: the
    integer part of [e], or at an integral [e] that integer or the one
    below it. *)
Definition cut_to (e : Q) (c : Z) : Prop := (inject_Z c <= e <= inject_Z c + 1)%Q.

(** The row halfway down the glyph. *)
Definition midpoint_row (g : geometry) : Z := (top g + bottom g) / 2.

(** ** The icon from its painted layers *)

Definition pil_names : list string := ["Image"; "ImageDraw"; "ImageFilter"; "ImageChops"]%string.

Section Layers.
Context {pil : Pillow}.

(** The rounded mask of an N x N canvas. *)
Definition mask_of (N R : Z) : image Z :=
  draw (rounded_rectangle_covers (0, 0, N, N) R) 255 (blank N N 0).

(** The glyph mask. *)
Definition glyph_mask_of (N : Z) (pts : list (num * num)) : image Z :=
  draw (polygon_covers pts) 255 (blank N N 0).

(** The three layers in the order they are composited, before the final
    masking. *)
Definition flattened (N R : Z) (bg0 grad0 : image rgba) (pts : list (num * num))
    (radius : num) : image rgba :=
  let bg := with_alpha bg0 (mask_of N R) in
  let glow := filter_blur radius (draw (polygon_covers pts) (255, 80, 60, 60)
                                    (blank N N (0, 0, 0, 0))) in
  let glyph := with_alpha grad0 (glyph_mask_of N pts) in
  composite (composite bg glow) glyph.

(** The finished icon. *)
Definition icon_of (N R : Z) (bg0 grad0 : image rgba) (pts : list (num * num))
    (radius : num) : image rgba :=
  let pre := flattened N R bg0 grad0 pts radius in
  with_alpha pre (chops_multiply (getchannel_A pre) (mask_of N R)).

End Layers.

(** ** The run of the script *)

(** The names the first import binds, and those the retried import binds. *)
Definition full_ns : gset string :=
  list_to_set ["Image"; "ImageDraw"; "ImageFilter"; "ImageChops"]%string.
Definition fallback_ns : gset string :=
  list_to_set ["Image"; "ImageDraw"; "ImageFilter"]%string.

(** The pip command line of the import guard. *)
Definition pip_argv (w : world) : list string :=
  [executable w; "-m"; "pip"; "install"; "Pillow"; "-q"]%string.

(** The paths written, in the order of the writes. *)
Definition written (tr : list event) : list path :=
  omap (fun e => match e with EvWrite p => Some p | _ => None end) tr.

(** The pip runs of a trace. *)
Definition installs (tr : list event) : list (list string) :=
  omap (fun e => match e with EvRun argv _ => Some argv | _ => None end) tr.

(** What a step leaves alone: how the environment answers. *)
Definition same_env (w w' : world) : Prop :=
  pil_importable w' = pil_importable w /\ pip_returncode w' = pip_returncode w /\
  pip_installs w' = pip_installs w /\ writable w' = writable w /\
  script_file w' = script_file w /\ executable w' = executable w.

Definition output_dir_of (script : path) : path :=
  dirname (dirname script) ++ ["MCPControl"; "Assets.xcassets"; "AppIcon.appiconset"]%string.

Definition json_field (k : string) (j : json) : option json :=
  match j with
  | JObj fields => (fun kv : nat * (string * json) => kv.2.2) <$> list_find (fun kv => kv.1 = k) fields
  | _ => None
  end.

(** The file names a manifest refers to, in the order of its entries. *)
Definition manifest_filenames (j : json) : list string :=
  match json_field "images" j with
  | Some (JArr items) =>
      omap (fun e => match json_field "filename" e with
                     | Some (JStr f) => Some f
                     | _ => None
                     end) items
  | _ => []
  end.

Definition put_file (m : gmap path file) (pf : path * file) : gmap path file :=
  <[pf.1 := pf.2]> m.

Section Outputs.
Context {pil : Pillow}.

Definition sized_file (icon : image rgba) (out : path) (sf : Z * string) : path * file :=
  (out ++ [sf.2], PNG (resize icon (sf.1, sf.1))).

(** The twelve files of a run, in the order they are written. *)
Definition expected_files (icon : image rgba) (out : path) : list (path * file) :=
  (sized_file icon out <$> sizes)
  ++ [ (out ++ ["AppIcon.png"%string], PNG icon);
       (out ++ ["Contents.json"%string], JSONText contents 2) ].

End Outputs.

(** The paths of a run's files, in the order they are written. *)
Definition output_paths (out : path) : list path :=
  (fun f : string => out ++ [f]) <$> (sizes.*2 ++ ["AppIcon.png"; "Contents.json"]%string).

(** The step from [w] to [w'] wrote the files [files], in that order, and
    nothing else. *)
Definition wrote (w w' : world) (files : list (path * file)) : Prop :=
  fs w' = foldl put_file (fs w) files /\
  written (trace w') = written (trace w) ++ files.*1 /\
  same_env w w'.

(** A PNG file of the given pixel dimensions. *)
Definition png_of_size (s : Z) (f : file) : Prop :=
  match f with
  | PNG im => width im = s /\ height im = s
  | _ => False
  end.

(** * A reference imaging library *)

Definition num_Q (c : num) : Q :=
  match c with
  | PInt z => inject_Z z
  | PFloat f => SF2Q f
  end.

(** A polygon filled as the box of its vertices. *)
Definition box_fill (pts : list (num * num)) (x y : Z) : bool :=
  existsb (fun p : num * num => Qle_bool (num_Q p.1) (inject_Z x)) pts
  && existsb (fun p : num * num => Qle_bool (inject_Z x) (num_Q p.1)) pts
  && existsb (fun p : num * num => Qle_bool (num_Q p.2) (inject_Z y)) pts
  && existsb (fun p : num * num => Qle_bool (inject_Z y) (num_Q p.2)) pts.

Definition at_clamped (im : image rgba) (x y : Z) : rgba :=
  px im (clamp x 0 (width im - 1)) (clamp y 0 (height im - 1)).

(** The mean of a pixel and its four neighbours. *)
Definition cross_mean (radius : num) (im : image rgba) (x y : Z) : rgba :=
  let ch (f : rgba -> Z) :=
    (f (at_clamped im x y) + f (at_clamped im (x - 1) y) + f (at_clamped im (x + 1) y)
     + f (at_clamped im x (y - 1)) + f (at_clamped im x (y + 1))) / 5 in
  (ch (fun p => p.1.1.1), ch (fun p => p.1.1.2), ch (fun p => p.1.2), ch (fun p => p.2)).

(** Source over destination, on 8-bit channels. *)
Definition src_over (dst src : rgba) : rgba :=
  let '(dr, dg, db, da) := dst in
  let '(sr, sg, sb, sa) := src in
  let rest := da * (255 - sa) / 255 in
  let a := sa + rest in
  let ch (d s : Z) := if a =? 0 then 0 else (s * sa + d * rest) / a in
  (ch dr sr, ch dg sg, ch db sb, a).

Definition nearest (im : image rgba) (wh : Z * Z) (x y : Z) : rgba :=
  px im (x * width im / wh.1) (y * height im / wh.2).

Definition reference_pillow : Pillow :=
  {| rounded_rectangle_covers := in_rounded_rect;
     polygon_covers := box_fill;
     gaussian_blur := cross_mean;
     over := src_over;
     lanczos := nearest |}.

(** A machine on which every path can be written. *)
Definition machine (importable : bool) (returncode : Z) (installed : bool) : world :=
  World ∅ ∅ [] importable returncode installed (fun _ => true)
    [""; "repo"; "scripts"; "generate-icon.py"]%string "/usr/bin/python3".

(** * Further properties: definitions *)

(** The number of leading paths of [l] that can be written. *)
Fixpoint writable_run (wr : path -> bool) (l : list path) : nat :=
  match l with
  | [] => 0
  | p :: l' => if wr p then S (writable_run wr l') else 0
  end.

(** What a run that writes to [paths] one after the other returns when it
    gets as far as the [k]-th: OSError for that path, if there is one. *)
Definition outcome_at (paths : list path) (k : nat) : result unit :=
  match paths !! k with
  | Some p => Raise (OSError p)
  | None => Ok tt
  end.

(** From [w], [m] writes [files] in order up to the first path that cannot
    be written and raises OSError there. *)
Definition runs_until (m : io unit) (w : world) (files : list (path * file)) : Prop :=
  exists w',
    m w = (outcome_at files.*1 (writable_run (writable w) files.*1), w') /\
    wrote w w' (take (writable_run (writable w) files.*1) files).

(** Events of the console and of the file system. *)
Definition console_or_file (e : event) : Prop :=
  match e with
  | EvImport _ _ | EvRun _ _ => False
  | _ => True
  end.

(** Whatever its outcome, [m] appends only events that satisfy [P]. *)
Definition only {A} (P : event -> Prop) (m : io A) : Prop :=
  forall w, exists evs, trace (m w).2 = trace w ++ evs /\ Forall P evs.

(** Whatever its outcome, [m] makes no directory outside [allowed]. *)
Definition makes_only {A} (allowed : list path) (m : io A) : Prop :=
  forall w d, d ∈ dirs (m w).2 -> d ∈ dirs w \/ d ∈ allowed.

(** A machine with PIL importable on which one path cannot be written. *)
Definition locked_machine (locked : path) : world :=
  World ∅ ∅ [] true 0 true (fun p => bool_decide (p <> locked))
    [""; "repo"; "scripts"; "generate-icon.py"]%string "/usr/bin/python3".

(** The two halves of the background's pixel colour (lines 42-50): the
    normalised coordinate, and the shade at two of them. *)
Definition bg_coord (size c : Z) : result num :=
  h ← py_truediv (PInt size) (PInt 2);
  n ← py_sub (PInt c) h;
  h' ← py_truediv (PInt size) (PInt 2);
  py_truediv n h'.

Definition bg_shade (dx dy : num) : result rgba :=
  dx2 ← py_mul dx dx;
  dy2 ← py_mul dy dy;
  s ← py_add dx2 dy2;
  dist ← math_sqrt s;
  d ← py_mul dist (PFloat c_0_7);
  let t := py_min (PFloat c_1_0) d in
  '(r, g, b) ← lerp3 bg_lighter bg_dark t;
  Ok (r, g, b, 255).

(** ** Reading the manifest *)

Definition digit_of (c : Ascii.ascii) : option Z :=
  let n := Z.of_nat (Ascii.nat_of_ascii c) in
  if (48 <=? n) && (n <=? 57) then Some (n - 48) else None.

(** The value of the decimal digits a string starts with. *)
Fixpoint leading_digits (s : string) (acc : Z) : Z :=
  match s with
  | String c rest =>
      match digit_of c with
      | Some d => leading_digits rest (10 * acc + d)
      | None => acc
      end
  | EmptyString => acc
  end.

Definition leading_number (s : string) : option Z :=
  match s with
  | String c _ => match digit_of c with Some _ => Some (leading_digits s 0) | None => None end
  | EmptyString => None
  end.

Definition manifest_images (j : json) : list json :=
  match json_field "images" j with
  | Some (JArr items) => items
  | _ => []
  end.

Definition entry_filename (e : json) : option string :=
  match json_field "filename" e with
  | Some (JStr f) => Some f
  | _ => None
  end.

(** The pixel dimension an entry declares: its size in points times its
    scale, as in ["16x16"] at ["2x"]. *)
Definition entry_pixels (e : json) : option Z :=
  match json_field "size" e, json_field "scale" e with
  | Some (JStr size), Some (JStr scale) =>
      match leading_number size, leading_number scale with
      | Some p, Some k => Some (p * k)
      | _, _ => None
      end
  | _, _ => None
  end.

(** A file system holds, under [dir], the PNG an entry describes. *)
Definition entry_on_disk (files : gmap path file) (dir : path) (e : json) : Prop :=
  exists name pixels im,
    entry_filename e = Some name /\ entry_pixels e = Some pixels /\
    files !! (dir ++ [name]) = Some (PNG im) /\ width im = pixels /\ height im = pixels.

(** * The gradient against exact interpolation: definitions *)

(** An integer channel within a sliver of the exact value cut to an
    integer. *)
Definition near_cut (e : Q) (z : Z) : Prop :=
  (inject_Z z <= e + pow2 (-39))%Q /\ (e - pow2 (-39) < inject_Z z + 1)%Q.

(** * The renderer on the interpreter's objects *)

(** PIL images are objects, and [putpixel], [putalpha] and the drawing
    calls change the object they are called on, whereas [Image.new],
    [filter], [alpha_composite], [getchannel] and [ImageChops.multiply]
    make a new one.  A state of the interpreter holds the objects made so
    far, the names bound in the module and the world outside; a reference
    is the position of its object. *)
Inductive object :=
| RGBAImage (im : image rgba)
| LImage (im : image Z).

Definition ref : Type := nat.

Record interp := Interp {
  objects : list object;
  bound : gset string;
  outside : world
}.

Definition run (A : Type) : Type := interp -> result A * interp.

#[global] Instance run_ret : MRet run := fun A a s => (Ok a, s).
#[global] Instance run_bind : MBind run :=
  fun A B k m s => match m s with (Ok a, s') => k a s' | (Raise e, s') => (Raise e, s') end.

Module Obj.

(** A computation that touches no object. *)
Definition value {A} (r : result A) : run A := fun s => (r, s).

(** Reading a module global. *)
Definition name (n : string) : run unit := fun s => (global (bound s) n, s).

Definition allocate (o : object) : run ref := fun s =>
  (Ok (length (objects s)), Interp (objects s ++ [o]) (bound s) (outside s)).

Definition assign (l : ref) (o : object) : run unit := fun s =>
  (Ok tt, Interp (<[l := o]> (objects s)) (bound s) (outside s)).

(** The image behind a reference; PIL refuses an image of the wrong
    mode. *)
Definition rgba_at (l : ref) : run (image rgba) := fun s =>
  match objects s !! l with
  | Some (RGBAImage im) => (Ok im, s)
  | _ => (Raise ValueError, s)
  end.

Definition l_at (l : ref) : run (image Z) := fun s =>
  match objects s !! l with
  | Some (LImage im) => (Ok im, s)
  | _ => (Raise ValueError, s)
  end.

(** [for a in l: body(a)]. *)
Fixpoint for_each {A} (l : list A) (body : A -> run unit) : run unit :=
  match l with
  | [] => mret tt
  | a :: l' => _ ← body a; for_each l' body
  end.

(** [Image.new('RGBA', (w, h), color)] and [Image.new('L', (w, h), color)]. *)
Definition new_rgba (w h : Z) (color : rgba) : run ref :=
  _ ← name "Image";
  im ← value (Image_new w h color);
  allocate (RGBAImage im).

Definition new_l (w h : Z) (color : Z) : run ref :=
  _ ← name "Image";
  im ← value (Image_new w h color);
  allocate (LImage im).

(** [im.putpixel(xy, v)]. *)
Definition putpixel (l : ref) (xy : Z * Z) (v : rgba) : run unit :=
  im ← rgba_at l;
  im' ← value (putpixel im xy v);
  assign l (RGBAImage im').

(** [im.putalpha(a)]. *)
Definition putalpha (l a : ref) : run unit :=
  im ← rgba_at l;
  m ← l_at a;
  im' ← value (putalpha im m);
  assign l (RGBAImage im').

(** [ImageDraw.Draw(im)]: a handle that draws on the object itself. *)
Definition Draw (l : ref) : run ref :=
  _ ← name "ImageDraw";
  mret l.

(** A drawing call on an "L" image and on an "RGBA" image. *)
Definition draw_l (d : ref) (covers : Z -> Z -> bool) (fill : Z) : run unit :=
  m ← l_at d;
  assign d (LImage (draw covers fill m)).

Definition draw_rgba (d : ref) (covers : Z -> Z -> bool) (fill : rgba) : run unit :=
  im ← rgba_at d;
  assign d (RGBAImage (draw covers fill im)).

Section Calls.
Context {pil : Pillow}.

(** [im.filter(ImageFilter.GaussianBlur(radius))]. *)
Definition filter_GaussianBlur (l : ref) (radius : num) : run ref :=
  im ← rgba_at l;
  allocate (RGBAImage (filter_blur radius im)).

(** [Image.alpha_composite(im1, im2)]. *)
Definition alpha_composite (l1 l2 : ref) : run ref :=
  _ ← name "Image";
  im1 ← rgba_at l1;
  im2 ← rgba_at l2;
  im ← value (alpha_composite im1 im2);
  allocate (RGBAImage im).

(** [im.getchannel('A')]. *)
Definition getchannel_A (l : ref) : run ref :=
  im ← rgba_at l;
  allocate (LImage (getchannel_A im)).

(** [ImageChops.multiply(a, b)]. *)
Definition multiply (a b : ref) : run ref :=
  x ← l_at a;
  y ← l_at b;
  allocate (LImage (chops_multiply x y)).

(** Lines 21-144, statement by statement. *)
Definition create_icon (size : Z) : run ref :=
  img ← new_rgba size size (0, 0, 0, 0);
  corner_radius ← value (scaled size c_0_22);
  _ ← for_each (range size) (fun y =>
        for_each (range size) (fun x =>
          c ← value (bg_pixel size x y);
          putpixel img (x, y) c));
  mask ← new_l size size 0;
  mask_draw ← Draw mask;
  _ ← draw_l mask_draw (rounded_rectangle_covers (0, 0, size, size) corner_radius) 255;
  _ ← putalpha img mask;
  m_mask ← new_l size size 0;
  m_draw ← Draw m_mask;
  g ← value (glyph_geometry size);
  m_outer ← value (m_outer g);
  _ ← draw_l m_draw (polygon_covers m_outer) 255;
  m_gradient ← new_rgba size size (0, 0, 0, 0);
  _ ← for_each (range size) (fun y =>
        '(r, gr, b) ← value (gradient_row g y);
        for_each (range size) (fun x => putpixel m_gradient (x, y) (r, gr, b, 255)));
  _ ← putalpha m_gradient m_mask;
  glow ← new_rgba size size (0, 0, 0, 0);
  glow_draw ← Draw glow;
  _ ← draw_rgba glow_draw (polygon_covers m_outer) (255, 80, 60, 60);
  _ ← name "ImageFilter";
  radius ← value (py_mul (PInt size) (PFloat c_0_04));
  glow ← filter_GaussianBlur glow radius;
  img ← alpha_composite img glow;
  img ← alpha_composite img m_gradient;
  _ ← name "ImageChops";
  alpha ← getchannel_A img;
  product ← multiply alpha mask;
  _ ← putalpha img product;
  mret img.

End Calls.

End Obj.

(** The state whose objects are those of [h] followed by the newer [os]. *)
Definition after (h : list object) (ns : gset string) (w : world) (os : list object)
  : interp := Interp (h ++ os) ns w.

(** * Rounding never crosses a representable number *)



Lemma digits2_bounds p :
  2 ^ (Z.pos (digits2_pos p) - 1) <= Z.pos p < 2 ^ Z.pos (digits2_pos p).
Proof.
  induction p as [p IH|p IH|]; cbn [digits2_pos]; [| |cbn; lia];
    rewrite Pos2Z.inj_succ;
    replace (Z.succ (Z.pos (digits2_pos p)) - 1) with (Z.succ (Z.pos (digits2_pos p) - 1)) by lia;
    rewrite !Z.pow_succ_r by lia; lia.
Qed.

Lemma digits2_unique p d :
  2 ^ (d - 1) <= Z.pos p < 2 ^ d -> Z.pos (digits2_pos p) = d.
Proof.
  intros [Hl Hu]. pose proof (digits2_bounds p) as [Hl' Hu'].
  destruct (Z.lt_trichotomy (Z.pos (digits2_pos p)) d) as [H|[H|H]]; [|done|].
  - assert (2 ^ Z.pos (digits2_pos p) <= 2 ^ (d - 1)) by (apply Z.pow_le_mono_r; lia). lia.
  - assert (d <= 0 \/ 0 < d) as [Hd|Hd] by lia.
    + assert (2 ^ d <= 1); [|lia].
      destruct (Z.eq_dec d 0) as [->|]; [done|]. rewrite Z.pow_neg_r; lia.
    + assert (2 ^ d <= 2 ^ (Z.pos (digits2_pos p) - 1)) by (apply Z.pow_le_mono_r; lia). lia.
Qed.

Lemma shr_1_spec r :
  0 <= shr_m r ->
  shr_m (shr_1 r) = shr_m r / 2 /\
  inexact (shr_1 r) = inexact r || negb (shr_m r mod 2 =? 0).
Proof.
  destruct r as [m r s]; cbn [shr_m]. intros Hm.
  destruct m as [|[p|p|]|p]; try lia; cbn [shr_1 shr_m inexact shr_r shr_s].
  - split; [done|]. by destruct r, s.
  - split; [rewrite Pos2Z.inj_xI; apply Z.div_unique with 1; lia|].
    replace (Z.pos p~1 mod 2) with 1 by (rewrite Pos2Z.inj_xI; apply Z.mod_unique with (Z.pos p); lia).
    by destruct r, s.
  - split; [rewrite Pos2Z.inj_xO; apply Z.div_unique with 0; lia|].
    replace (Z.pos p~0 mod 2) with 0 by (rewrite Pos2Z.inj_xO; apply Z.mod_unique with (Z.pos p); lia).
    by destruct r, s.
  - split; [done|]. by destruct r, s.
Qed.

Lemma mod_pow2_split m a b :
  0 <= a -> 0 <= b ->
  (m mod 2 ^ (a + b) =? 0) = (m mod 2 ^ a =? 0) && ((m / 2 ^ a) mod 2 ^ b =? 0).
Proof.
  intros Ha Hb. rewrite Z.pow_add_r by lia.
  assert (0 < 2 ^ a) by (apply Z.pow_pos_nonneg; lia).
  assert (0 < 2 ^ b) by (apply Z.pow_pos_nonneg; lia).
  rewrite Z.rem_mul_r by lia.
  pose proof (Z.mod_pos_bound m (2 ^ a) ltac:(lia)).
  pose proof (Z.mod_pos_bound (m / 2 ^ a) (2 ^ b) ltac:(lia)).
  destruct (Z.eqb_spec (m mod 2 ^ a) 0), (Z.eqb_spec ((m / 2 ^ a) mod 2 ^ b) 0);
    cbn; apply Z.eqb_neq || apply Z.eqb_eq; nia.
Qed.

Lemma iter_shr_1_spec n r :
  0 <= shr_m r ->
  shr_m (iter_pos shr_1 n r) = shr_m r / 2 ^ Z.pos n /\
  inexact (iter_pos shr_1 n r) = inexact r || negb (shr_m r mod 2 ^ Z.pos n =? 0).
Proof.
  revert r. induction n as [n IH|n IH|]; intros r Hr; cbn [iter_pos].
  - destruct (shr_1_spec r Hr) as [E1 I1].
    assert (0 <= shr_m (shr_1 r)) as H1 by (rewrite E1; apply Z.div_pos; lia).
    destruct (IH _ H1) as [E2 I2].
    assert (0 <= shr_m (iter_pos shr_1 n (shr_1 r))) as H2
      by (rewrite E2; apply Z.div_pos; [lia|apply Z.pow_pos_nonneg; lia]).
    destruct (IH _ H2) as [E3 I3].
    rewrite E3, I3, E2, I2, E1, I1.
    replace (Z.pos n~1) with (1 + (Z.pos n + Z.pos n)) by lia.
    rewrite (mod_pow2_split _ 1), (mod_pow2_split _ (Z.pos n) (Z.pos n)) by lia.
    rewrite (Z.pow_add_r 2 1), (Z.pow_add_r 2 (Z.pos n)) by lia.
    rewrite <- !Z.div_div by (try apply Z.pow_pos_nonneg; lia).
    change (2 ^ 1) with 2. split; [done|].
    rewrite !negb_andb. by rewrite !orb_assoc.
  - destruct (IH _ Hr) as [E2 I2].
    assert (0 <= shr_m (iter_pos shr_1 n r)) as H2
      by (rewrite E2; apply Z.div_pos; [lia|apply Z.pow_pos_nonneg; lia]).
    destruct (IH _ H2) as [E3 I3].
    rewrite E3, I3, E2, I2.
    replace (Z.pos n~0) with (Z.pos n + Z.pos n) by lia.
    rewrite (mod_pow2_split _ (Z.pos n) (Z.pos n)) by lia.
    rewrite (Z.pow_add_r 2 (Z.pos n)) by lia.
    rewrite <- !Z.div_div by (try apply Z.pow_pos_nonneg; lia).
    split; [done|].
    rewrite !negb_andb. by rewrite !orb_assoc.
  - apply shr_1_spec, Hr.
Qed.

Lemma shr_spec r e n r' e' :
  0 <= shr_m r -> 0 <= n -> shr r e n = (r', e') ->
  e' = e + n /\ shr_m r' = shr_m r / 2 ^ n /\
  inexact r' = inexact r || negb (shr_m r mod 2 ^ n =? 0).
Proof.
  intros Hm Hn. destruct n as [|p|p]; [|clear Hn|lia]; cbn [shr]; intros [= <- <-].
  - rewrite Z.pow_0_r, Z.div_1_r, Z.mod_1_r, Z.add_0_r. cbn. by rewrite orb_false_r.
  - split; [done|]. by apply iter_shr_1_spec.
Qed.

Lemma fexp_eq e : fexp e = Z.max (e - 53) emin.
Proof. reflexivity. Qed.

Lemma round_nearest_even_spec r :
  shr_m r <= round_nearest_even (shr_m r) (loc_of_shr_record r) <= shr_m r + 1 /\
  (inexact r = false -> round_nearest_even (shr_m r) (loc_of_shr_record r) = shr_m r).
Proof.
  destruct r as [m [] []]; cbn; try destruct (Z.even m); split; (lia || done).
Qed.

(** The final step of every operation: what [binary_round_aux] returns on a
    positive mantissa that is not shorter than the target grid allows.  The
    value is the truncation [M'] of the argument on the grid [2 ^ e1] or its
    successor, the truncation itself when the argument lies on the grid. *)
Lemma bra_shape s M E l :
  let d := Z.pos (digits2_pos M) in
  let e1 := fexp (d + E) in
  let n := e1 - E in
  let M' := Z.pos M / 2 ^ n in
  0 <= n ->
  exists M1,
    M' <= M1 <= M' + 1 /\
    (l = loc_Exact -> Z.pos M mod 2 ^ n = 0 -> M1 = M') /\
    ((M1 = 0 /\ binary_round_aux prec emax s (Z.pos M) E l = S754_zero s) \/
     exists m2 e2,
       binary_round_aux prec emax s (Z.pos M) E l =
         (if e2 <=? 971 then S754_finite s m2 e2 else S754_infinity s) /\
       Z.pos (digits2_pos m2) <= 53 /\ e1 <= e2 <= e1 + 1 /\
       Z.pos m2 * 2 ^ (e2 - e1) = M1 /\
       (emin <= d + E - 53 -> Z.pos (digits2_pos m2) = 53)).
Proof.
  intros d e1 n M' Hn.
  pose proof (digits2_bounds M) as [HMl HMu]. fold d in HMl, HMu.
  assert (0 < 2 ^ n) as Hn2 by (apply Z.pow_pos_nonneg; lia).
  assert (He1 : e1 = Z.max (d + E - 53) emin) by apply fexp_eq.
  assert (M' < 2 ^ 53) as HM'u.
  { unfold M'. apply Z.div_lt_upper_bound; [lia|]. rewrite <- Z.pow_add_r by lia.
    eapply Z.lt_le_trans; [apply HMu|]. apply Z.pow_le_mono_r; lia. }
  assert (0 <= M') as HM'l by (apply Z.div_pos; lia).
  assert (emin <= d + E - 53 -> 2 ^ 52 <= M') as HM'n.
  { intros Hnorm. unfold M'. apply Z.div_le_lower_bound; [lia|].
    rewrite <- Z.pow_add_r by lia. replace (n + 52) with (d - 1) by lia. done. }
  unfold binary_round_aux, shr_fexp. cbn [Zdigits2]. fold d e1 n.
  destruct (shr (shr_record_of_loc (Z.pos M) l) E n) as [r1 e1'] eqn:Hs1.
  apply shr_spec in Hs1 as (-> & Hm1 & Hi1); [|by destruct l as [|[]]|lia].
  replace (shr_m (shr_record_of_loc (Z.pos M) l)) with (Z.pos M) in Hm1, Hi1
    by (by destruct l as [|[]]).
  replace (E + n) with e1 by lia. fold M' in Hm1.
  destruct (round_nearest_even_spec r1) as [HR HRx]. rewrite Hm1 in HR, HRx |- *.
  set (M1 := round_nearest_even M' (loc_of_shr_record r1)) in *.
  exists M1. split; [done|]. split.
  { intros -> Hmod. apply HRx. rewrite Hi1, Hmod. done. }
  destruct M1 as [|p1|p1] eqn:HM1; [|clearbody M1|lia].
  { left. split; [done|]. cbn [Zdigits2].
    destruct (fexp (0 + e1) - e1) eqn:Hn2'; [done| |done].
    rewrite fexp_eq in Hn2'. lia. }
  right. cbn [Zdigits2].
  destruct (Z.eq_dec (Z.pos p1) (2 ^ 53)) as [Heq|Hne].
  - assert (Z.pos (digits2_pos p1) = 54) as ->.
    { apply digits2_unique. rewrite Heq. change (54 - 1) with 53. split; [lia|].
      apply Z.pow_lt_mono_r; lia. }
    replace (fexp (54 + e1) - e1) with 1 by (rewrite fexp_eq; lia).
    assert (p1 = 9007199254740992%positive) as -> by (change (2 ^ 53) with 9007199254740992 in Heq; lia).
    cbn [shr iter_pos shr_record_of_loc shr_1 shr_m].
    exists 4503599627370496%positive, (e1 + 1).
    change (emax - prec) with 971.
    split; [done|]. split; [done|]. split; [lia|]. split; [|done].
    replace (e1 + 1 - e1) with 1 by lia. done.
  - pose proof (digits2_bounds p1) as [Hp1l Hp1u].
    assert (Z.pos (digits2_pos p1) <= 53) as Hd1.
    { destruct (Z.le_gt_cases (Z.pos (digits2_pos p1)) 53) as [|Hgt]; [done|exfalso].
      assert (2 ^ 53 <= 2 ^ (Z.pos (digits2_pos p1) - 1)) by (apply Z.pow_le_mono_r; lia). lia. }
    assert (shr (shr_record_of_loc (Z.pos p1) loc_Exact) e1
              (fexp (Z.pos (digits2_pos p1) + e1) - e1)
            = (shr_record_of_loc (Z.pos p1) loc_Exact , e1)) as ->.
    { destruct (fexp (Z.pos (digits2_pos p1) + e1) - e1) eqn:Hn2'; [done| |done].
      rewrite fexp_eq in Hn2'. lia. }
    cbn [shr_record_of_loc shr_m]. change (emax - prec) with 971.
    exists p1, e1. split; [done|]. split; [done|]. split; [lia|].
    rewrite Z.sub_diag, Z.pow_0_r, Z.mul_1_r. split; [done|].
    intros Hnorm. apply digits2_unique. change (53 - 1) with 52. specialize (HM'n Hnorm). lia.
Qed.

Lemma pow2_pos e : (0 < pow2 e)%Q.
Proof. apply Qpower_0_lt. done. Qed.

Lemma pow2_add a b : (pow2 (a + b) == pow2 a * pow2 b)%Q.
Proof. apply Qpower_plus. done. Qed.

Lemma pow2_Z n : 0 <= n -> (pow2 n == inject_Z (2 ^ n))%Q.
Proof. intros Hn. unfold pow2. by rewrite Zpower_Qpower. Qed.

Lemma pow2_scale a e n :
  0 <= n -> (inject_Z a * pow2 (e + n) == inject_Z (a * 2 ^ n) * pow2 e)%Q.
Proof.
  intros Hn. rewrite pow2_add, (pow2_Z n), inject_Z_mult by done. ring.
Qed.

Lemma pow2_le_Z a b e :
  (inject_Z a * pow2 e <= inject_Z b * pow2 e)%Q <-> a <= b.
Proof.
  pose proof (pow2_pos e). rewrite Zle_Qle. split; intros; nra.
Qed.

Lemma pow2_lt_Z a b e :
  (inject_Z a * pow2 e < inject_Z b * pow2 e)%Q <-> a < b.
Proof.
  pose proof (pow2_pos e). rewrite Zlt_Qlt. split; intros; nra.
Qed.

Lemma pow2_mono a b : a <= b -> (pow2 a <= pow2 b)%Q.
Proof. intros. apply Qpower_le_compat_l; done. Qed.

Lemma bra_faithful s M E l (x : Q) :
  let d := Z.pos (digits2_pos M) in
  E <= fexp (d + E) -> d + E <= 1023 ->
  (inject_Z (Z.pos M) * pow2 E <= x)%Q ->
  (x < inject_Z (Z.pos M + 1) * pow2 E)%Q ->
  (l = loc_Exact <-> x == inject_Z (Z.pos M) * pow2 E)%Q ->
  let r := binary_round_aux prec emax s (Z.pos M) E l in
  finite r /\ sign_of r = Some s /\ rounds_abs x r /\
  (emin <= d + E - 53 ->
   exists m2 e2, r = S754_finite s m2 e2 /\ Z.pos (digits2_pos m2) = 53 /\
                 d + E - 53 <= e2 <= d + E - 52).
Proof.
  intros d Hn Hhi Hxl Hxu Hex r.
  destruct (bra_shape s M E l ltac:(fold d; lia)) as (M1 & HM1 & Hexact & Hres).
  fold d in HM1, Hexact, Hres.
  set (e1 := fexp (d + E)) in *. set (n := e1 - E) in *.
  set (M' := Z.pos M / 2 ^ n) in *.
  assert (He1 : e1 = Z.max (d + E - 53) emin) by apply fexp_eq.
  assert (0 < 2 ^ n) as Hn2 by (apply Z.pow_pos_nonneg; lia).
  pose proof (Z.div_mod (Z.pos M) (2 ^ n) ltac:(lia)) as Hdm. fold M' in Hdm.
  pose proof (Z.mod_pos_bound (Z.pos M) (2 ^ n) ltac:(lia)) as Hmb.
  pose proof (digits2_bounds M) as [HMl HMu]. fold d in HMl, HMu.
  assert (Hpe : forall a, (inject_Z a * pow2 e1 == inject_Z (a * 2 ^ n) * pow2 E)%Q).
  { intros a. replace e1 with (E + n) at 1 by lia. apply pow2_scale. lia. }
  assert (HV : (SF2Q (SFabs r) == inject_Z (M1 * 2 ^ n) * pow2 E)%Q
               /\ finite r /\ sign_of r = Some s /\
               (emin <= d + E - 53 ->
                 exists m2 e2, r = S754_finite s m2 e2 /\ Z.pos (digits2_pos m2) = 53 /\
                 d + E - 53 <= e2 <= d + E - 52)).
  { destruct Hres as [[-> Hr]|(m2 & e2 & Hr & Hdig & He2 & Hm2 & Hnorm)]; subst r; rewrite Hr.
    - cbn [SFabs SF2Q finite sign_of]. rewrite Z.mul_0_l.
      split; [unfold inject_Z; ring|]. split; [done|]. split; [done|].
      intros Hnorm. exfalso.
      assert (2 ^ 52 <= M'); [|lia].
      unfold M'. apply Z.div_le_lower_bound; [lia|].
      rewrite <- Z.pow_add_r by lia. replace (n + 52) with (d - 1) by lia. done.
    - replace (e2 <=? 971) with true by (symmetry; apply Z.leb_le; lia).
      cbn [SFabs SF2Q cond_Zopp finite sign_of]. split; [|split; [lia|split; [done|]]].
      + replace e2 with (e1 + (e2 - e1)) at 1 by lia.
        rewrite pow2_scale by lia. rewrite Hm2. apply Hpe.
      + intros Hn'. exists m2, e2. split; [done|]. split; [auto|lia]. }
  destruct HV as (HV & Hfin & Hsgn & Hnorm).
  split; [done|]. split; [done|]. split; [|done].
  intros K (k & g & Hk & Hg & HK). rewrite HV, HK. clear HV.
  pose proof (pow2_pos E) as HuE.
  destruct (Z.le_gt_cases e1 g) as [Hg'|Hg'].
  - (* K lies on the grid of the result *)
    assert (HKg : (inject_Z k * pow2 g == inject_Z (k * 2 ^ (g - e1) * 2 ^ n) * pow2 E)%Q).
    { replace g with (e1 + (g - e1)) at 1 by lia.
      rewrite pow2_scale by lia. apply Hpe. }
    rewrite HKg. set (Y := k * 2 ^ (g - e1)). split; intros HxK.
    + apply pow2_le_Z. fold Y in HxK.
      assert (Z.pos M <= Y * 2 ^ n) as HMY by (apply (pow2_le_Z _ _ E); lra).
      destruct (Z.eq_dec M1 M') as [->|Hne]; [lia|].
      assert (M1 = M' + 1) as -> by lia.
      destruct (Z.eq_dec (Z.pos M) (Y * 2 ^ n)) as [HMeq|].
      2:{ apply Z.mul_le_mono_nonneg_r; [lia|].
          assert (M' < Y); [|lia]. apply Z.mul_lt_mono_pos_r with (2 ^ n); lia. }
      exfalso. apply Hne, Hexact.
      * apply Hex. rewrite HMeq in Hxl |- *. lra.
      * rewrite HMeq. apply Z.mod_mul. lia.
    + apply pow2_le_Z. fold Y in HxK.
      assert (Y * 2 ^ n < Z.pos M + 1) as HMY by (apply (pow2_lt_Z _ _ E); lra).
      apply Z.mul_le_mono_nonneg_r; [lia|].
      assert (Y < M' + 1); [|lia]. apply Z.mul_lt_mono_pos_r with (2 ^ n); lia.
  - (* K is below the smallest normal mantissa at the result exponent *)
    assert (2 ^ 52 <= M') as HM'.
    { unfold M'. apply Z.div_le_lower_bound; [lia|].
      rewrite <- Z.pow_add_r by lia. replace (n + 52) with (d - 1) by lia. done. }
    assert (HKlt : (inject_Z k * pow2 g < inject_Z (M' * 2 ^ n) * pow2 E)%Q).
    { rewrite <- Hpe.
      assert (Hsc : (inject_Z M' * pow2 e1 == inject_Z (M' * 2 ^ (e1 - g)) * pow2 g)%Q).
      { rewrite <- pow2_scale by lia. by replace (g + (e1 - g)) with e1 by lia. }
      rewrite Hsc.
      apply pow2_lt_Z.
      assert (2 ^ 1 <= 2 ^ (e1 - g)) by (apply Z.pow_le_mono_r; lia).
      change (2 ^ 1) with 2 in *. change (2 ^ 53) with (2 * 2 ^ 52) in *. nia. }
    assert (HM'le : (inject_Z (M' * 2 ^ n) * pow2 E <= inject_Z (Z.pos M) * pow2 E)%Q)
      by (apply pow2_le_Z; lia).
    split; intros HxK.
    + lra.
    + assert ((inject_Z (M' * 2 ^ n) * pow2 E <= inject_Z (M1 * 2 ^ n) * pow2 E)%Q)
        by (apply pow2_le_Z; nia).
      lra.
Qed.

Lemma iter_xO_spec d m : Z.pos (Pos.iter xO m d) = Z.pos m * 2 ^ Z.pos d.
Proof.
  rewrite Pos2Nat.inj_iter, <- (positive_nat_Z d).
  induction (Pos.to_nat d) as [|k IH]; [cbn; lia|].
  rewrite Nat2Z.inj_succ, Z.pow_succ_r by lia. cbn [nat_rect].
  rewrite Pos2Z.inj_xO, IH. lia.
Qed.

Lemma shl_align_spec mx ex ex' :
  snd (shl_align mx ex ex') = Z.min ex ex' /\
  Z.pos (fst (shl_align mx ex ex')) = Z.pos mx * 2 ^ (ex - Z.min ex ex').
Proof.
  unfold shl_align. destruct (ex' - ex) as [|d|d] eqn:Hd; cbn [fst snd].
  - replace (Z.min ex ex') with ex by lia. rewrite Z.sub_diag. lia.
  - replace (Z.min ex ex') with ex by lia. rewrite Z.sub_diag. lia.
  - replace (Z.min ex ex') with ex' by lia. rewrite iter_xO_spec.
    replace (ex - ex') with (Z.pos d) by lia. done.
Qed.

Lemma digits2_shift p q k :
  0 <= k -> Z.pos q = Z.pos p * 2 ^ k ->
  Z.pos (digits2_pos q) = Z.pos (digits2_pos p) + k.
Proof.
  intros Hk Hq. apply digits2_unique. rewrite Hq.
  pose proof (digits2_bounds p) as [Hl Hu].
  assert (0 < 2 ^ k) by (apply Z.pow_pos_nonneg; lia).
  replace (Z.pos (digits2_pos p) + k - 1) with (Z.pos (digits2_pos p) - 1 + k) by lia.
  rewrite !Z.pow_add_r by lia. nia.
Qed.

Lemma inject_Z_nonneg z : 0 <= z -> (0 <= inject_Z z)%Q.
Proof. intros. change 0%Q with (inject_Z 0). by rewrite <- Zle_Qle. Qed.

Lemma sf2q_abs_nonneg r : (0 <= SF2Q (SFabs r))%Q.
Proof.
  destruct r as [| | |s m e]; cbn; try lra.
  pose proof (pow2_pos e). pose proof (inject_Z_nonneg (Z.pos m) ltac:(lia)). nra.
Qed.

Lemma repr_0 : repr 0.
Proof. exists 0, 0. split; [lia|]. split; [lia|]. cbn. ring. Qed.

(** Rounding of a positive integer mantissa at any exponent. *)
Lemma binary_round_faithful s p e :
  let d := Z.pos (digits2_pos p) in
  d + e <= 1023 ->
  let r := binary_round prec emax s p e in
  finite r /\ sign_of r = Some s /\
  rounds_abs (inject_Z (Z.pos p) * pow2 e) r /\
  (emin <= d + e - 53 ->
   exists m2 e2, r = S754_finite s m2 e2 /\ Z.pos (digits2_pos m2) = 53 /\
                 d + e - 53 <= e2 <= d + e - 52).
Proof.
  intros d Hhi r. unfold r, binary_round. fold d.
  destruct (shl_align_spec p e (fexp (d + e))) as [Hez Hmz].
  destruct (shl_align p e (fexp (d + e))) as [mz ez]. cbn [fst snd] in Hez, Hmz.
  rewrite <- Hez in Hmz.
  assert (Hdz : Z.pos (digits2_pos mz) = d + (e - ez)) by (apply digits2_shift; [lia|done]).
  assert (Hval : (inject_Z (Z.pos p) * pow2 e == inject_Z (Z.pos mz) * pow2 ez)%Q).
  { replace e with (ez + (e - ez)) at 1 by lia. rewrite pow2_scale by lia. by rewrite Hmz. }
  pose proof (bra_faithful s mz ez loc_Exact (inject_Z (Z.pos mz) * pow2 ez)) as H.
  cbv zeta in H. rewrite Hdz in H.
  replace (d + (e - ez) + ez) with (d + e) in H by lia.
  destruct H as (Hfin & Hsgn & Hrnd & Hnorm).
  - lia.
  - done.
  - lra.
  - apply pow2_lt_Z. lia.
  - split; [reflexivity|done].
  - split; [done|]. split; [done|]. split; [|done].
    intros K HK. rewrite Hval. by apply Hrnd.
Qed.

Lemma sf2q_sign r s :
  sign_of r = Some s ->
  (SF2Q r == if s then - SF2Q (SFabs r) else SF2Q (SFabs r))%Q.
Proof.
  destruct r as [s'|s'| |s' m e]; cbn; intros [= <-]; try (destruct s'; ring).
  destruct s'; cbn [cond_Zopp]; [|done].
  rewrite inject_Z_opp. ring.
Qed.

Lemma repr_nonneg K : repr K -> (0 <= K)%Q.
Proof.
  intros (k & g & Hk & _ & ->). pose proof (pow2_pos g).
  pose proof (inject_Z_nonneg k ltac:(lia)). nra.
Qed.

Lemma rounds_of_abs x r s :
  (0 <= x)%Q -> finite r -> sign_of r = Some s -> rounds_abs x r ->
  rounds (if s then - x else x) r.
Proof.
  intros Hx Hfin Hsgn Hrnd. split; [done|].
  pose proof (sf2q_abs_nonneg r) as Hnn.
  pose proof (sf2q_sign r s Hsgn) as Hv.
  destruct (Hrnd 0%Q repr_0) as [H0u H0l].
  intros K [HK|HK]; pose proof (repr_nonneg _ HK) as HKnn;
    destruct (Hrnd _ HK) as [Hu Hl]; destruct s; rewrite Hv; split; intros H; lra.
Qed.

Lemma rounds_ext v v' r : (v == v')%Q -> rounds v r -> rounds v' r.
Proof.
  intros Hv [Hfin H]. split; [done|]. intros K HK.
  destruct (H K HK) as [Hu Hl]. split; intros; [apply Hu|apply Hl]; lra.
Qed.

Lemma digits2_le p k : Z.pos p < 2 ^ k -> Z.pos (digits2_pos p) <= k.
Proof.
  intros Hp. pose proof (digits2_bounds p) as [Hl _].
  destruct (Z.le_gt_cases (Z.pos (digits2_pos p)) k) as [|Hgt]; [done|exfalso].
  assert (2 ^ k <= 2 ^ (Z.pos (digits2_pos p) - 1)); [|lia].
  destruct (Z.le_gt_cases 0 k); [apply Z.pow_le_mono_r; lia|].
  rewrite (Z.pow_neg_r 2 k) by lia. apply Z.pow_nonneg. lia.
Qed.

Lemma digits2_gt p k : 2 ^ k <= Z.pos p -> k < Z.pos (digits2_pos p).
Proof.
  intros Hp. pose proof (digits2_bounds p) as [_ Hu].
  destruct (Z.le_gt_cases (Z.pos (digits2_pos p)) k) as [Hle|]; [exfalso|lia].
  assert (2 ^ Z.pos (digits2_pos p) <= 2 ^ k) by (apply Z.pow_le_mono_r; lia). lia.
Qed.

Lemma digits2_mul p q :
  Z.pos (digits2_pos p) + Z.pos (digits2_pos q) - 1 <= Z.pos (digits2_pos (p * q))
    <= Z.pos (digits2_pos p) + Z.pos (digits2_pos q).
Proof.
  pose proof (digits2_bounds p) as [Hpl Hpu]. pose proof (digits2_bounds q) as [Hql Hqu].
  set (a := Z.pos (digits2_pos p)) in *. set (b := Z.pos (digits2_pos q)) in *.
  assert (0 < a /\ 0 < b) as [Ha Hb] by (unfold a, b; lia).
  assert (0 < 2 ^ (a - 1)) by (apply Z.pow_pos_nonneg; lia).
  assert (0 < 2 ^ (b - 1)) by (apply Z.pow_pos_nonneg; lia).
  split.
  - assert (a + b - 2 < Z.pos (digits2_pos (p * q))); [|lia].
    apply digits2_gt. replace (a + b - 2) with ((a - 1) + (b - 1)) by lia.
    rewrite Z.pow_add_r, Pos2Z.inj_mul by lia. nia.
  - apply digits2_le. rewrite Z.pow_add_r, Pos2Z.inj_mul by lia. nia.
Qed.

Lemma fmul_rounds sx mx ex sy my ey :
  Z.pos (digits2_pos mx) <= 53 -> Z.pos (digits2_pos my) <= 53 ->
  Z.pos (digits2_pos mx) = 53 \/ Z.pos (digits2_pos my) = 53 ->
  ex + ey <= 900 ->
  let x := S754_finite sx mx ex in
  let y := S754_finite sy my ey in
  rounds (SF2Q x * SF2Q y) (fmul x y) /\ sign_of (fmul x y) = Some (xorb sx sy).
Proof.
  intros Hdx Hdy H53 He x y. unfold fmul, x, y. cbn [SFmul].
  pose proof (digits2_mul mx my) as [Hdl Hdu].
  pose proof (Pos2Z.is_pos (digits2_pos mx)). pose proof (Pos2Z.is_pos (digits2_pos my)).
  destruct (bra_faithful (xorb sx sy) (mx * my) (ex + ey) loc_Exact
              (inject_Z (Z.pos (mx * my)) * pow2 (ex + ey))) as (Hfin & Hsgn & Hrnd & _).
  - rewrite fexp_eq. lia.
  - lia.
  - lra.
  - apply pow2_lt_Z. lia.
  - split; [reflexivity|done].
  - split; [|done].
    assert (Hnn : (0 <= inject_Z (Z.pos (mx * my)) * pow2 (ex + ey))%Q).
    { pose proof (pow2_pos (ex + ey)).
      pose proof (inject_Z_nonneg (Z.pos (mx * my)) ltac:(lia)). nra. }
    eapply rounds_ext; [|apply (rounds_of_abs _ _ _ Hnn Hfin Hsgn Hrnd)].
    cbn [SF2Q].
    destruct sx, sy; cbn [xorb cond_Zopp];
      rewrite pow2_add, Pos2Z.inj_mul, inject_Z_mult, ?inject_Z_opp; ring.
Qed.

Lemma normalize_rounds S e :
  Z.abs S < 2 ^ (1000 - e) -> e <= 1000 ->
  rounds (inject_Z S * pow2 e) (binary_normalize prec emax S e false).
Proof.
  intros HS He. destruct S as [|p|p]; cbn [binary_normalize].
  - split; [done|]. intros K _. cbn [SF2Q]. change (inject_Z 0) with 0%Q. split; intros; lra.
  - destruct (binary_round_faithful false p e) as (Hfin & Hsgn & Hrnd & _).
    { pose proof (digits2_le p (1000 - e) ltac:(lia)). lia. }
    assert (Hnn : (0 <= inject_Z (Z.pos p) * pow2 e)%Q).
    { pose proof (pow2_pos e). pose proof (inject_Z_nonneg (Z.pos p) ltac:(lia)). nra. }
    apply (rounds_of_abs _ _ _ Hnn Hfin Hsgn Hrnd).
  - destruct (binary_round_faithful true p e) as (Hfin & Hsgn & Hrnd & _).
    { pose proof (digits2_le p (1000 - e) ltac:(lia)). lia. }
    assert (Hnn : (0 <= inject_Z (Z.pos p) * pow2 e)%Q).
    { pose proof (pow2_pos e). pose proof (inject_Z_nonneg (Z.pos p) ltac:(lia)). nra. }
    eapply rounds_ext; [|apply (rounds_of_abs _ _ _ Hnn Hfin Hsgn Hrnd)].
    cbn beta iota. rewrite <- Pos2Z.opp_pos, inject_Z_opp. ring.
Qed.

Lemma aligned_value s m e ez :
  ez <= e ->
  (inject_Z (cond_Zopp s (Z.pos (fst (shl_align m e ez)))) * pow2 ez
   == SF2Q (S754_finite s m e))%Q.
Proof.
  intros Hez. destruct (shl_align_spec m e ez) as [_ Hm]. rewrite Hm.
  replace (Z.min e ez) with ez by lia. cbn [SF2Q].
  replace e with (ez + (e - ez)) at 2 by lia. rewrite pow2_scale by lia.
  destruct s; cbn [cond_Zopp]; rewrite ?inject_Z_opp, ?Z.mul_opp_l, ?inject_Z_opp; ring.
Qed.

Lemma aligned_bound s m e ez :
  ez <= e -> Z.pos (digits2_pos m) <= 53 ->
  Z.abs (cond_Zopp s (Z.pos (fst (shl_align m e ez)))) < 2 ^ (53 + e - ez).
Proof.
  intros Hez Hd. destruct (shl_align_spec m e ez) as [_ Hm]. rewrite Hm.
  replace (Z.min e ez) with ez by lia.
  pose proof (digits2_bounds m) as [_ Hu].
  assert (2 ^ Z.pos (digits2_pos m) <= 2 ^ 53) by (apply Z.pow_le_mono_r; lia).
  assert (0 < 2 ^ (e - ez)) by (apply Z.pow_pos_nonneg; lia).
  replace (53 + e - ez) with (53 + (e - ez)) by lia. rewrite Z.pow_add_r by lia.
  destruct s; cbn [cond_Zopp]; nia.
Qed.

Lemma fadd_rounds sx mx ex sy my ey :
  Z.pos (digits2_pos mx) <= 53 -> Z.pos (digits2_pos my) <= 53 ->
  ex <= 900 -> ey <= 900 ->
  let x := S754_finite sx mx ex in
  let y := S754_finite sy my ey in
  rounds (SF2Q x + SF2Q y) (fadd x y).
Proof.
  intros Hdx Hdy Hex Hey x y. unfold fadd, x, y. cbn [SFadd].
  set (ez := Z.min ex ey).
  eapply rounds_ext; [|apply normalize_rounds].
  - rewrite inject_Z_plus, Qmult_plus_distr_l.
    rewrite !aligned_value by lia. reflexivity.
  - pose proof (aligned_bound sx mx ex ez ltac:(lia) Hdx).
    pose proof (aligned_bound sy my ey ez ltac:(lia) Hdy).
    assert (2 ^ (53 + ex - ez) <= 2 ^ (999 - ez)) by (apply Z.pow_le_mono_r; lia).
    assert (2 ^ (53 + ey - ez) <= 2 ^ (999 - ez)) by (apply Z.pow_le_mono_r; lia).
    replace (1000 - ez) with (Z.succ (999 - ez)) by lia. rewrite Z.pow_succ_r by lia. lia.
  - lia.
Qed.

Lemma fsub_fadd sx mx ex sy my ey :
  fsub (S754_finite sx mx ex) (S754_finite sy my ey)
  = fadd (S754_finite sx mx ex) (SFopp (S754_finite sy my ey)).
Proof.
  unfold fsub, fadd. cbn [SFsub SFadd SFopp]. f_equal.
  destruct sy; cbn [negb cond_Zopp]; lia.
Qed.

Lemma sf2q_opp x : (SF2Q (SFopp x) == - SF2Q x)%Q.
Proof.
  destruct x as [| | |s m e]; cbn [SFopp SF2Q]; try ring.
  destruct s; cbn [negb cond_Zopp]; rewrite ?inject_Z_opp; ring.
Qed.

Lemma fsub_rounds sx mx ex sy my ey :
  Z.pos (digits2_pos mx) <= 53 -> Z.pos (digits2_pos my) <= 53 ->
  ex <= 900 -> ey <= 900 ->
  let x := S754_finite sx mx ex in
  let y := S754_finite sy my ey in
  rounds (SF2Q x - SF2Q y) (fsub x y).
Proof.
  intros Hdx Hdy Hex Hey x y. unfold x, y. rewrite fsub_fadd.
  eapply rounds_ext; [|apply fadd_rounds; done].
  rewrite (sf2q_opp (S754_finite sy my ey)). ring.
Qed.

Lemma rounds_exact v r : rounds v r -> srepr v -> (SF2Q r == v)%Q.
Proof.
  intros [_ H] Hv. destruct (H v Hv) as [Hu Hl].
  apply Qle_antisym; [apply Hu|apply Hl]; lra.
Qed.

Lemma srepr_Z z : Z.abs z < 2 ^ 53 -> srepr (inject_Z z).
Proof.
  intros Hz. destruct (Z.le_gt_cases 0 z).
  - left. exists z, 0. split; [lia|]. split; [lia|]. cbn. ring.
  - right. exists (- z), 0. split; [lia|]. split; [lia|]. rewrite inject_Z_opp. cbn. ring.
Qed.

Lemma srepr_scaled z g : Z.abs z < 2 ^ 53 -> emin <= g -> srepr (inject_Z z * pow2 g).
Proof.
  intros Hz Hg. destruct (Z.le_gt_cases 0 z).
  - left. exists z, g. split; [lia|]. split; [lia|]. reflexivity.
  - right. exists (- z), g. split; [lia|]. split; [lia|]. rewrite inject_Z_opp. ring.
Qed.

Lemma of_Z_rounds z : Z.abs z < 2 ^ 53 -> rounds (inject_Z z) (of_Z z).
Proof.
  intros Hz. eapply rounds_ext; [|apply (normalize_rounds z 0)].
  - cbn. ring.
  - assert (2 ^ 53 <= 2 ^ (1000 - 0)) by (apply Z.pow_le_mono_r; lia). lia.
  - lia.
Qed.

Lemma of_Z_exact z : Z.abs z < 2 ^ 53 -> (SF2Q (of_Z z) == inject_Z z)%Q.
Proof. intros Hz. apply rounds_exact; [by apply of_Z_rounds|by apply srepr_Z]. Qed.

Lemma of_Z_0 : of_Z 0 = S754_zero false.
Proof. reflexivity. Qed.

Lemma of_Z_pos_shape z :
  0 < z < 2 ^ 53 ->
  exists m e, of_Z z = S754_finite false m e /\ Z.pos (digits2_pos m) = 53 /\ -52 <= e <= 1.
Proof.
  intros Hz. destruct z as [|p|p]; try lia. unfold of_Z. cbn [binary_normalize].
  destruct (binary_round_faithful false p 0) as (_ & _ & _ & Hn).
  { pose proof (digits2_le p 53 ltac:(lia)). lia. }
  pose proof (digits2_le p 53 ltac:(lia)). pose proof (Pos2Z.is_pos (digits2_pos p)).
  destruct Hn as (m & e & -> & Hd & He); [lia|]. exists m, e. split; [done|]. split; [done|lia].
Qed.

Lemma of_Z_neg_shape z :
  - 2 ^ 53 < z < 0 ->
  exists m e, of_Z z = S754_finite true m e /\ Z.pos (digits2_pos m) = 53 /\ -52 <= e <= 1.
Proof.
  intros Hz. destruct z as [|p|p]; try lia. unfold of_Z. cbn [binary_normalize].
  destruct (binary_round_faithful true p 0) as (_ & _ & _ & Hn).
  { pose proof (digits2_le p 53 ltac:(lia)). lia. }
  pose proof (digits2_le p 53 ltac:(lia)). pose proof (Pos2Z.is_pos (digits2_pos p)).
  destruct Hn as (m & e & -> & Hd & He); [lia|]. exists m, e. split; [done|]. split; [done|lia].
Qed.

(** Two normal mantissas denoting the same number are the same float. *)
Lemma normal_unique m e m' e' :
  Z.pos (digits2_pos m) = 53 -> Z.pos (digits2_pos m') = 53 ->
  (inject_Z (Z.pos m) * pow2 e == inject_Z (Z.pos m') * pow2 e')%Q ->
  m = m' /\ e = e'.
Proof.
  assert (Haux : forall m e m' e', e <= e' ->
    Z.pos (digits2_pos m) = 53 -> Z.pos (digits2_pos m') = 53 ->
    (inject_Z (Z.pos m) * pow2 e == inject_Z (Z.pos m') * pow2 e')%Q ->
    m = m' /\ e = e').
  { clear. intros m e m' e' Hle Hd Hd' Hv.
    replace e' with (e + (e' - e)) in Hv by lia. rewrite pow2_scale in Hv by lia.
    assert (Z.pos m = Z.pos m' * 2 ^ (e' - e)) as Hm.
    { apply Z.le_antisymm; apply (pow2_le_Z _ _ e); lra. }
    pose proof (digits2_shift m' m (e' - e) ltac:(lia) Hm) as Hs.
    assert (e' = e) as -> by lia. rewrite Z.sub_diag, Z.pow_0_r in Hm. split; lia. }
  intros Hd Hd' Hv. destruct (Z.le_gt_cases e e').
  - by apply Haux.
  - destruct (Haux m' e' m e) as [-> ->]; [lia|done|done|by symmetry|done].
Qed.

Lemma to_Z_bounds r a b :
  finite r -> (inject_Z a <= SF2Q r)%Q -> (SF2Q r <= inject_Z b)%Q ->
  exists z, to_Z r = Some z /\ a <= z <= b.
Proof.
  destruct r as [s| | |s m e]; cbn [finite]; try done; intros Hfin Ha Hb.
  - exists 0. split; [done|]. cbn [SF2Q] in *. change 0%Q with (inject_Z 0) in *.
    rewrite <- Zle_Qle in Ha, Hb. lia.
  - cbn [to_Z SF2Q] in *. eexists. split; [reflexivity|].
    destruct (Z.leb_spec 0 e) as [He|He].
    + rewrite <- (Z.add_0_l e), pow2_scale in Ha, Hb by lia.
      change (pow2 0) with 1%Q in *. rewrite Qmult_1_r in Ha, Hb.
      rewrite <- Zle_Qle in Ha, Hb.
      destruct s; cbn [cond_Zopp] in *; lia.
    + assert (0 < 2 ^ (- e)) as Hp by (apply Z.pow_pos_nonneg; lia).
      assert (Hsc : forall c, (inject_Z c == inject_Z (c * 2 ^ (- e)) * pow2 e)%Q).
      { intros c. rewrite <- pow2_scale by lia. replace (e + - e) with 0 by lia.
        change (pow2 0) with 1%Q. ring. }
      rewrite (Hsc a) in Ha. rewrite (Hsc b) in Hb.
      apply pow2_le_Z in Ha, Hb.
      pose proof (Z.div_mod (Z.pos m) (2 ^ (- e)) ltac:(lia)) as Hdm.
      pose proof (Z.mod_pos_bound (Z.pos m) (2 ^ (- e)) ltac:(lia)) as Hmb.
      set (q := Z.pos m / 2 ^ (- e)) in *.
      destruct s; cbn [cond_Zopp] in *; nia.
Qed.

Lemma sf_exp_lt s m e h : (SF2Q (SFabs (S754_finite s m e)) < pow2 h)%Q -> e < h.
Proof.
  cbn [SFabs SF2Q cond_Zopp]. intros H.
  apply (Qpower_lt_compat_l_inv 2); [|done]. fold (pow2 e) (pow2 h).
  pose proof (pow2_pos e). assert (1 <= inject_Z (Z.pos m))%Q.
  { change 1%Q with (inject_Z 1). rewrite <- Zle_Qle. lia. }
  nra.
Qed.

Lemma new_location_exact nb k : new_location nb k = loc_Exact <-> k = 0.
Proof.
  unfold new_location, new_location_even, new_location_odd.
  destruct (Z.even nb), (Z.eqb_spec k 0); split; (done || lia).
Qed.

(** Division of two finite floats whose quotient lies in the normal range. *)
Lemma fdiv_rounds sx mx ex sy my ey :
  let D := Z.pos (digits2_pos mx) + ex - (Z.pos (digits2_pos my) + ey) in
  emin <= D - 53 -> D <= 1000 ->
  let x := S754_finite sx mx ex in
  let y := S754_finite sy my ey in
  rounds (SF2Q x / SF2Q y) (fdiv x y) /\
  sign_of (fdiv x y) = Some (xorb sx sy) /\
  (emin <= ex - ey ->
   exists m2 e2, fdiv x y = S754_finite (xorb sx sy) m2 e2 /\ Z.pos (digits2_pos m2) = 53).
Proof.
  intros D HDl HDu x y. unfold fdiv, x, y. cbn [SFdiv].
  unfold SFdiv_core_binary. cbn [Zdigits2]. fold D.
  rewrite fexp_eq. replace (Z.max (D - 53) emin) with (D - 53) by lia.
  set (dx := Z.pos (digits2_pos mx)) in *. set (dy := Z.pos (digits2_pos my)) in *.
  set (e' := Z.min (D - 53) (ex - ey)).
  set (s := ex - ey - e').
  assert (0 <= s) as Hs by lia.
  assert (match s with Z.pos _ => Z.shiftl (Z.pos mx) s | 0 => Z.pos mx | Z.neg _ => 0 end
          = Z.pos mx * 2 ^ s) as ->.
  { destruct s eqn:Es; [lia| |lia]. apply Z.shiftl_mul_pow2. lia. }
  set (m' := Z.pos mx * 2 ^ s).
  pose proof (Z_div_mod m' (Z.pos my) ltac:(lia)) as Hdm.
  destruct (Z.div_eucl m' (Z.pos my)) as [q r]. destruct Hdm as [Hdm Hr].
  pose proof (digits2_bounds mx) as [Hxl Hxu]. pose proof (digits2_bounds my) as [Hyl Hyu].
  fold dx in Hxl, Hxu. fold dy in Hyl, Hyu.
  assert (0 < dx /\ 0 < dy) as [Hdx Hdy] by (unfold dx, dy; lia).
  assert (0 < 2 ^ s) as Hs2 by (apply Z.pow_pos_nonneg; lia).
  assert (0 < 2 ^ (dy - 1)) as Hy2 by (apply Z.pow_pos_nonneg; lia).
  assert (2 ^ 52 <= q) as Hq52.
  { assert (2 ^ 52 * Z.pos my <= m'); [|nia].
    assert (2 ^ (52 + dy) <= 2 ^ (dx - 1 + s)) by (apply Z.pow_le_mono_r; lia).
    rewrite !Z.pow_add_r in * by lia. unfold m'. nia. }
  destruct q as [|pq|pq]; try lia.
  assert (Z.pos (digits2_pos pq) <= dx + s - dy + 1) as Hdq.
  { apply digits2_le.
    replace (dx + s - dy + 1) with (dx + s - (dy - 1)) by lia.
    assert (Z.pos pq * 2 ^ (dy - 1) < 2 ^ (dx + s)) as Haux.
    { rewrite Z.pow_add_r by lia. unfold m' in Hdm. nia. }
    destruct (Z.le_gt_cases (dy - 1) (dx + s)) as [Hc|Hc].
    - replace (dx + s) with ((dx + s - (dy - 1)) + (dy - 1)) in Haux by lia.
      rewrite Z.pow_add_r in Haux by lia. nia.
    - assert (2 ^ (dx + s) <= 2 ^ (dy - 1)) by (apply Z.pow_le_mono_r; lia). nia. }
  pose proof (digits2_gt pq 52 ltac:(lia)) as Hdq53.
  set (X := (inject_Z (Z.pos mx) * pow2 ex / (inject_Z (Z.pos my) * pow2 ey))%Q).
  pose proof (pow2_pos ex) as Hpex. pose proof (pow2_pos ey) as Hpey.
  pose proof (pow2_pos e') as Hpe'.
  assert (0 < inject_Z (Z.pos my))%Q as HY by (change 0%Q with (inject_Z 0); rewrite <- Zlt_Qlt; lia).
  assert (HX : (X * inject_Z (Z.pos my) == inject_Z m' * pow2 e')%Q).
  { unfold X, m'. rewrite inject_Z_mult, <- (pow2_Z s) by lia.
    assert (pow2 ex == pow2 s * pow2 e' * pow2 ey)%Q as ->.
    { rewrite <- !pow2_add. by replace (s + e' + ey) with ex by lia. }
    field. split; lra. }
  assert (Hm' : (inject_Z m' == inject_Z (Z.pos pq) * inject_Z (Z.pos my) + inject_Z r)%Q).
  { rewrite Hdm, inject_Z_plus, inject_Z_mult. ring. }
  assert (0 <= inject_Z r)%Q as Hr0 by (apply inject_Z_nonneg; lia).
  assert (inject_Z r < inject_Z (Z.pos my))%Q as Hr1 by (rewrite <- Zlt_Qlt; lia).
  destruct (bra_faithful (xorb sx sy) pq e' (new_location (Z.pos my) r) X)
    as (Hfin & Hsgn & Hrnd & Hnorm).
  - rewrite fexp_eq. lia.
  - lia.
  - nra.
  - rewrite inject_Z_plus. change (inject_Z 1) with 1%Q. nra.
  - rewrite new_location_exact. split.
    + intros ->. change (inject_Z 0) with 0%Q in Hm'. nra.
    + intros HXq. destruct (Z.eq_dec r 0) as [|Hne]; [done|exfalso].
      assert (0 < inject_Z r)%Q by (change 0%Q with (inject_Z 0); rewrite <- Zlt_Qlt; lia).
      nra.
  - assert (HXnn : (0 <= X)%Q).
    { pose proof (inject_Z_nonneg m' ltac:(unfold m'; lia)). nra. }
    split; [|split; [done|]].
    + eapply rounds_ext; [|apply (rounds_of_abs _ _ _ HXnn Hfin Hsgn Hrnd)].
      cbn [SF2Q]. unfold X.
      destruct sx, sy; cbn [xorb cond_Zopp]; rewrite ?inject_Z_opp; field; split; lra.
    + intros He. destruct Hnorm as (m2 & e2 & Hr2 & Hd2 & _); [lia|].
      exists m2, e2. done.
Qed.

(** Truncation is the floor of a non-negative value and the ceiling of a
    non-positive one. *)
Lemma to_Z_trunc r :
  finite r ->
  exists z, to_Z r = Some z /\
    ((0 <= SF2Q r)%Q -> (inject_Z z <= SF2Q r < inject_Z (z + 1))%Q) /\
    ((SF2Q r <= 0)%Q -> (inject_Z (z - 1) < SF2Q r <= inject_Z z)%Q).
Proof.
  destruct r as [s| | |s m e]; cbn [finite]; try done; intros Hfin.
  - exists 0. split; [done|]. cbn. split; intros; split; (lra || done).
  - cbn [to_Z SF2Q]. eexists. split; [reflexivity|].
    pose proof (pow2_pos e) as Hpe.
    destruct (Z.leb_spec 0 e) as [He|He].
    + assert (Hv : forall c, (inject_Z c * pow2 e == inject_Z (c * 2 ^ e))%Q).
      { intros c. rewrite <- (Z.add_0_l e) at 1. rewrite pow2_scale by lia.
        change (pow2 0) with 1%Q. ring. }
      rewrite Hv.
      assert (cond_Zopp s (Z.pos m) * 2 ^ e = cond_Zopp s (Z.pos m * 2 ^ e)) as ->
        by (destruct s; cbn [cond_Zopp]; lia).
      split; intros _; split; try apply Qle_refl; rewrite <- Zlt_Qlt; lia.
    + assert (0 < 2 ^ (- e)) as Hp by (apply Z.pow_pos_nonneg; lia).
      assert (Hsc : forall c, (inject_Z c == inject_Z (c * 2 ^ (- e)) * pow2 e)%Q).
      { intros c. rewrite <- pow2_scale by lia. replace (e + - e) with 0 by lia.
        change (pow2 0) with 1%Q. ring. }
      pose proof (Z.div_mod (Z.pos m) (2 ^ (- e)) ltac:(lia)) as Hdm.
      pose proof (Z.mod_pos_bound (Z.pos m) (2 ^ (- e)) ltac:(lia)) as Hmb.
      set (q := Z.pos m / 2 ^ (- e)) in *.
      assert (0 <= q) by (apply Z.div_pos; lia).
      destruct s; cbn [cond_Zopp].
      * split; intros Hs.
        -- exfalso. pose proof (inject_Z_nonneg (Z.pos m) ltac:(lia)).
           rewrite inject_Z_opp in Hs.
           assert (0 < inject_Z (Z.pos m))%Q by (change 0%Q with (inject_Z 0); rewrite <- Zlt_Qlt; lia).
           nra.
        -- rewrite (Hsc (- q - 1)), (Hsc (- q)). split; [apply pow2_lt_Z|apply pow2_le_Z]; nia.
      * split; intros Hs.
        -- rewrite (Hsc q), (Hsc (q + 1)). split; [apply pow2_le_Z|apply pow2_lt_Z]; nia.
        -- exfalso.
           assert (0 < inject_Z (Z.pos m))%Q by (change 0%Q with (inject_Z 0); rewrite <- Zlt_Qlt; lia).
           nra.
Qed.

Lemma pow2_neg_inv n : 0 <= n -> (inject_Z (2 ^ n) * pow2 (- n) == 1)%Q.
Proof.
  intros Hn. rewrite <- (pow2_Z n) by done. rewrite <- pow2_add.
  replace (n + - n) with 0 by lia. reflexivity.
Qed.

Lemma one_val52 : (inject_Z 4503599627370496 * pow2 (-52) == 1)%Q.
Proof. exact (pow2_neg_inv 52 ltac:(lia)). Qed.

Lemma one_val53 : (inject_Z 9007199254740992 * pow2 (-53) == 1)%Q.
Proof. exact (pow2_neg_inv 53 ltac:(lia)). Qed.

(** A positive float of at most 53 bits that compares below [1.0] is below 1. *)
Lemma flt_one_value m e :
  Z.pos (digits2_pos m) <= 53 ->
  flt (S754_finite false m e) one = true ->
  (inject_Z (Z.pos m) * pow2 e < 1)%Q.
Proof.
  intros Hd. unfold flt, SFltb, one. cbn [SFcompare].
  assert (Z.pos m < 9007199254740992) as Hm53.
  { pose proof (digits2_bounds m) as [_ Hu].
    assert (2 ^ Z.pos (digits2_pos m) <= 2 ^ 53) as H by (apply Z.pow_le_mono_r; lia).
    change (2 ^ 53) with 9007199254740992 in H.
    eapply Z.lt_le_trans; [exact Hu|exact H]. }
  clear Hd.
  destruct (Z.compare_spec e (-52)) as [->|Hlt|Hgt]; [| |done].
  - rewrite Pos.compare_cont_spec. cbn [Pos.switch_Eq].
    destruct (Pos.compare_spec m 4503599627370496) as [|Hm|]; try done. intros _.
    eapply Qlt_le_trans; [|apply Qle_lteq; right; apply one_val52].
    apply pow2_lt_Z. exact Hm.
  - intros _. pose proof (pow2_mono e (-53) ltac:(clear -Hlt; lia)) as Hmono.
    pose proof (pow2_pos e). pose proof (pow2_pos (-53)).
    pose proof (inject_Z_nonneg (Z.pos m) ltac:(lia)).
    apply Qle_lt_trans with (inject_Z (Z.pos m) * pow2 (-53))%Q.
    + rewrite !(Qmult_comm (inject_Z (Z.pos m))). apply Qmult_le_compat_r; done.
    + eapply Qlt_le_trans; [|apply Qle_lteq; right; apply one_val53].
      apply pow2_lt_Z. exact Hm53.
Qed.

Lemma finite_is_finite r : finite r -> is_finite r = true.
Proof. by destruct r. Qed.

Lemma finite_srepr r : finite r -> srepr (SF2Q r).
Proof.
  destruct r as [s| | |s m e]; cbn [finite SF2Q]; try done.
  - intros _. left. apply repr_0.
  - intros [Hd He].
    pose proof (digits2_bounds m) as [_ Hu].
    assert (2 ^ Z.pos (digits2_pos m) <= 2 ^ 53) by (apply Z.pow_le_mono_r; lia).
    destruct s; cbn [cond_Zopp].
    + right. exists (Z.pos m), e. split; [lia|]. split; [lia|].
      rewrite inject_Z_opp. ring.
    + left. exists (Z.pos m), e. split; [lia|]. split; [lia|]. reflexivity.
Qed.

Lemma rounds_self v r : finite r -> (v == SF2Q r)%Q -> rounds v r.
Proof. intros Hfin Hv. split; [done|]. intros K _. split; intros; lra. Qed.

Lemma rounds_within v r a b :
  rounds v r -> srepr a -> srepr b -> (a <= v <= b)%Q -> within a b r.
Proof.
  intros [Hfin H] Ha Hb [Hav Hvb]. split; [done|].
  split; [apply (H a Ha)|apply (H b Hb)]; done.
Qed.

Lemma expo_le x k :
  0 <= k -> within (- inject_Z (2 ^ k)) (inject_Z (2 ^ k)) x -> expo x <= k.
Proof.
  intros Hk [Hfin [Hl Hu]]. destruct x as [| | |s m e]; cbn [expo]; try lia.
  assert (e < k + 1); [|lia]. apply (sf_exp_lt s m e).
  rewrite pow2_add, (pow2_Z k) by done. change (pow2 1) with 2%Q.
  cbn [SFabs SF2Q cond_Zopp] in *.
  assert (0 < inject_Z (2 ^ k))%Q.
  { change 0%Q with (inject_Z 0). rewrite <- Zlt_Qlt. apply Z.pow_pos_nonneg; lia. }
  destruct s; cbn [cond_Zopp] in *; rewrite ?inject_Z_opp in *; lra.
Qed.

Lemma within_weaken a b a' b' x :
  within a b x -> (a' <= a)%Q -> (b <= b')%Q -> within a' b' x.
Proof. intros [Hfin [Hl Hu]] Ha Hb. split; [done|]. split; lra. Qed.

Lemma fmul_fin x y :
  finite x -> finite y -> normz x \/ normz y -> expo x + expo y <= 900 ->
  rounds (SF2Q x * SF2Q y) (fmul x y).
Proof.
  intros Hx Hy Hn He.
  destruct x as [sx| | |sx mx ex], y as [sy| | |sy my ey]; try done;
    first [ cbn [finite normz expo] in *; apply (fmul_rounds sx mx ex sy my ey); tauto
          | unfold fmul; cbn [SFmul]; apply rounds_self; [exact I|cbn; ring] ].
Qed.

Lemma fadd_fin x y :
  finite x -> finite y -> expo x <= 900 -> expo y <= 900 ->
  rounds (SF2Q x + SF2Q y) (fadd x y).
Proof.
  intros Hx Hy Hex Hey.
  destruct x as [sx| | |sx mx ex], y as [sy| | |sy my ey]; try done;
    first [ cbn [finite expo] in *; apply (fadd_rounds sx mx ex sy my ey); tauto
          | unfold fadd; cbn [SFadd]; apply rounds_self; [done|cbn [SF2Q]; ring]
          | apply rounds_self; [destruct sx, sy; exact I|destruct sx, sy; cbn; ring] ].
Qed.

Lemma fsub_fin x y :
  finite x -> finite y -> expo x <= 900 -> expo y <= 900 ->
  rounds (SF2Q x - SF2Q y) (fsub x y).
Proof.
  intros Hx Hy Hex Hey.
  destruct x as [sx| | |sx mx ex], y as [sy| | |sy my ey]; try done;
    first [ cbn [finite expo] in *; apply (fsub_rounds sx mx ex sy my ey); tauto
          | apply rounds_self; [destruct sx, sy; exact I|destruct sx, sy; cbn; ring]
          | apply rounds_self; [done|];
            change (fsub (S754_zero sx) (S754_finite sy my ey))
              with (SFopp (S754_finite sy my ey));
            rewrite sf2q_opp; cbn [SF2Q]; ring
          | unfold fsub; cbn [SFsub]; apply rounds_self; [done|cbn [SF2Q]; ring] ].
Qed.

(** ** Python arithmetic on small integers *)

Lemma as_float_int z :
  Z.abs z < 2 ^ 53 ->
  exists f, as_float (PInt z) = Ok f /\ finite f /\ normz f /\
            (SF2Q f == inject_Z z)%Q /\ expo f <= 1.
Proof.
  intros Hz. cbn [as_float]. unfold float_of_int.
  pose proof (of_Z_rounds z Hz) as [Hfin _].
  pose proof (of_Z_exact z Hz) as Hv.
  rewrite (finite_is_finite _ Hfin). exists (of_Z z).
  split; [done|]. split; [done|]. split; [|split; [done|]].
  - destruct (Z.lt_trichotomy z 0) as [Hneg|[->|Hpos]].
    + destruct (of_Z_neg_shape z) as (m & e & -> & Hd & He); [lia|done].
    + done.
    + destruct (of_Z_pos_shape z) as (m & e & -> & Hd & He); [lia|done].
  - destruct (Z.lt_trichotomy z 0) as [Hneg|[->|Hpos]].
    + destruct (of_Z_neg_shape z) as (m & e & -> & Hd & He); [lia|cbn; lia].
    + cbn. lia.
    + destruct (of_Z_pos_shape z) as (m & e & -> & Hd & He); [lia|cbn; lia].
Qed.

Lemma py_int_within r a b :
  within (inject_Z a) (inject_Z b) r ->
  exists z, py_int (PFloat r) = Ok z /\ a <= z <= b.
Proof.
  intros [Hfin [Hl Hu]]. destruct (to_Z_bounds r a b Hfin Hl Hu) as (z & Hz & Hb).
  exists z. cbn [py_int]. by rewrite Hz.
Qed.

Lemma dy_srepr a j : Z.abs a < 2 ^ 53 -> 0 <= j <= 1000 -> srepr (dy a j).
Proof. intros Ha Hj. apply srepr_scaled; [done|lia]. Qed.

Lemma dy_le a b j : 0 <= j -> (dy a j <= dy b j)%Q <-> a <= b.
Proof. intros. apply pow2_le_Z. Qed.

Lemma dy_lt a b j : 0 <= j -> (dy a j < dy b j)%Q <-> a < b.
Proof. intros. apply pow2_lt_Z. Qed.

Lemma dy_Z a j : 0 <= j -> (inject_Z a == dy (a * 2 ^ j) j)%Q.
Proof.
  intros Hj. unfold dy. rewrite <- pow2_scale by lia.
  replace (- j + j) with 0 by lia. change (pow2 0) with 1%Q. ring.
Qed.

Lemma dy_mul_Z n a j : (inject_Z n * dy a j == dy (n * a) j)%Q.
Proof. unfold dy. rewrite inject_Z_mult. ring. Qed.

Lemma dy_add_Z n a j : 0 <= j -> (inject_Z n + dy a j == dy (n * 2 ^ j + a) j)%Q.
Proof. intros Hj. rewrite (dy_Z n j Hj). unfold dy. rewrite inject_Z_plus. ring. Qed.

Lemma dy_sub_Z n a j : 0 <= j -> (inject_Z n - dy a j == dy (n * 2 ^ j - a) j)%Q.
Proof.
  intros Hj. rewrite (dy_Z n j Hj). unfold dy, Z.sub.
  rewrite inject_Z_plus, inject_Z_opp. ring.
Qed.

(** [(PInt n) * c]: the product, rounded, stays between the products of
    the bounds. *)
Lemma py_mul_const n c a b j :
  0 <= n < 2 ^ 31 -> 0 <= a <= b -> b < 2 ^ 20 -> 0 <= j <= 20 ->
  const_between a b j c ->
  exists w, py_mul (PInt n) (PFloat c) = Ok (PFloat w) /\
            within (dy (n * a) j) (dy (n * b) j) w /\ expo w <= 900.
Proof.
  intros Hn Ha Hb Hj (Hfc & Hnc & Hec & Hcl & Hcu).
  assert (2 ^ 31 * 2 ^ 20 < 2 ^ 53) as Hp by (vm_compute; reflexivity).
  destruct (as_float_int n) as (f & Hf & Hfin & Hnf & Hv & Hef).
  { assert (2 ^ 31 < 2 ^ 53) by (vm_compute; reflexivity). lia. }
  unfold py_mul. rewrite Hf. cbn. exists (fmul f c). split; [done|].
  pose proof (fmul_fin f c Hfin Hfc (or_introl Hnf) ltac:(lia)) as Hr.
  assert (Hw : within (dy (n * a) j) (dy (n * b) j) (fmul f c)).
  { apply (rounds_within _ _ _ _ Hr).
    - apply dy_srepr; [nia|lia].
    - apply dy_srepr; [nia|lia].
    - rewrite Hv, <- !dy_mul_Z.
      pose proof (inject_Z_nonneg n ltac:(lia)). split; nra. }
  split; [done|].
  assert (expo (fmul f c) <= 53); [|lia]. apply expo_le; [lia|].
  apply (within_weaken _ _ _ _ _ Hw).
  - assert (0 <= dy (n * a) j)%Q.
    { unfold dy. pose proof (pow2_pos (- j)). pose proof (inject_Z_nonneg (n * a) ltac:(nia)). nra. }
    pose proof (inject_Z_nonneg (2 ^ 53) ltac:(lia)). lra.
  - rewrite (dy_Z (2 ^ 53) j) by lia. apply dy_le; [lia|].
    assert (0 < 2 ^ j) by (apply Z.pow_pos_nonneg; lia). nia.
Qed.

(** [int(size * c)] is between the floors of the dyadic bounds. *)
Lemma scaled_bounds n c a b j :
  0 <= n < 2 ^ 31 -> 0 <= a <= b -> b < 2 ^ 20 -> 0 <= j <= 20 ->
  const_between a b j c ->
  exists z, scaled n c = Ok z /\ 0 <= z /\ z * 2 ^ j <= n * b /\ n * a < (z + 1) * 2 ^ j.
Proof.
  intros Hn Ha Hb Hj Hc.
  destruct (py_mul_const n c a b j Hn Ha Hb Hj Hc) as (w & Hw & [Hfin [Hl Hu]] & _).
  unfold scaled. rewrite Hw. cbn [mbind result_bind].
  destruct (to_Z_trunc w Hfin) as (z & Hz & Hpos & _).
  exists z. cbn [py_int]. rewrite Hz. split; [done|].
  assert (0 <= dy (n * a) j)%Q as H0.
  { unfold dy. pose proof (pow2_pos (- j)). pose proof (inject_Z_nonneg (n * a) ltac:(nia)). nra. }
  destruct Hpos as [Hzl Hzu]; [lra|].
  rewrite (dy_Z z j) in Hzl by lia. rewrite (dy_Z (z + 1) j) in Hzu by lia.
  assert (dy (z * 2 ^ j) j <= dy (n * b) j)%Q as H1 by lra.
  assert (dy (n * a) j < dy ((z + 1) * 2 ^ j) j)%Q as H2 by lra.
  assert (dy 0 j < dy ((z + 1) * 2 ^ j) j)%Q as H3.
  { unfold dy at 1. change (inject_Z 0) with 0%Q. lra. }
  apply dy_le in H1; [|lia]. apply dy_lt in H2; [|lia]. apply dy_lt in H3; [|lia].
  assert (0 < 2 ^ j) by (apply Z.pow_pos_nonneg; lia).
  split; [nia|]. split; lia.
Qed.

(** ** The literals between dyadics *)

Ltac const_between_tac :=
  split; [split; [vm_compute; discriminate|vm_compute; split; discriminate]|];
  split; [vm_compute; reflexivity|];
  split; [vm_compute; discriminate|];
  split; unfold dy, Qle; vm_compute; discriminate.

Lemma c_0_22_between : const_between 7 8 5 c_0_22.
Proof. const_between_tac. Qed.

Lemma c_0_18_between : const_between 2 3 4 c_0_18.
Proof. const_between_tac. Qed.

Lemma c_0_125_between : const_between 1 1 3 c_0_125.
Proof. const_between_tac. Qed.

Lemma c_0_28_between : const_between 8 9 5 c_0_28.
Proof. const_between_tac. Qed.

Lemma c_1_1_between : const_between 4 5 2 c_1_1.
Proof. const_between_tac. Qed.

Lemma c_0_8_between : const_between 3 4 2 c_0_8.
Proof. const_between_tac. Qed.

Lemma c_0_7_between : const_between 2 3 2 c_0_7.
Proof. const_between_tac. Qed.

Lemma c_0_04_between : const_between 1 2 5 c_0_04.
Proof. const_between_tac. Qed.

Lemma glyph_geometry_ok N :
  0 <= N <= INT_MAX -> exists g, glyph_geometry N = Ok g /\ geometry_of N g.
Proof.
  intros HN. unfold INT_MAX in HN.
  assert (0 <= N < 2 ^ 31) as HN' by (change (2 ^ 31) with 2147483648; lia).
  destruct (scaled_bounds N c_0_18 2 3 4 HN' ltac:(lia) ltac:(done) ltac:(lia) c_0_18_between)
    as (mx & Hmx & Hmx0 & Hmxu & _).
  destruct (scaled_bounds N c_0_22 7 8 5 HN' ltac:(lia) ltac:(done) ltac:(lia) c_0_22_between)
    as (mt & Hmt & Hmt0 & Hmtu & Hmtl).
  destruct (scaled_bounds N c_0_125 1 1 3 HN' ltac:(lia) ltac:(done) ltac:(lia) c_0_125_between)
    as (st & Hst & Hst0 & Hstu & Hstl).
  destruct (scaled_bounds N c_0_28 8 9 5 HN' ltac:(lia) ltac:(done) ltac:(lia) c_0_28_between)
    as (vd & Hvd & Hvd0 & Hvdu & _).
  unfold glyph_geometry. rewrite Hmx, Hmt, Hst, Hvd. cbn [mbind result_bind].
  eexists. split; [reflexivity|]. unfold geometry_of. cbn.
  change (2 ^ 4) with 16 in *. change (2 ^ 5) with 32 in *. change (2 ^ 3) with 8 in *.
  lia.
Qed.

Lemma scaled_radius N :
  0 <= N <= INT_MAX ->
  exists R, scaled N c_0_22 = Ok R /\ 0 <= R /\ 4 * R <= N /\ 7 * N < 32 * (R + 1).
Proof.
  intros HN. unfold INT_MAX in HN.
  assert (0 <= N < 2 ^ 31) as HN' by (change (2 ^ 31) with 2147483648; lia).
  destruct (scaled_bounds N c_0_22 7 8 5 HN' ltac:(lia) ltac:(done) ltac:(lia) c_0_22_between)
    as (R & HR & HR0 & HRu & HRl).
  exists R. change (2 ^ 5) with 32 in *. split; [done|]. lia.
Qed.

(** ** Vertex coordinates *)

Lemma py_add_int_float base w :
  Z.abs base < 2 ^ 53 -> finite w -> expo w <= 900 ->
  exists f, py_add (PInt base) (PFloat w) = Ok (PFloat f) /\
            rounds (inject_Z base + SF2Q w) f.
Proof.
  intros Hb Hw He. destruct (as_float_int base Hb) as (fb & Hfb & Hfin & _ & Hv & Hefb).
  unfold py_add. rewrite Hfb. cbn. eexists. split; [reflexivity|].
  eapply rounds_ext; [|apply (fadd_fin fb w Hfin Hw); lia]. by rewrite Hv.
Qed.

Lemma py_sub_int_float base w :
  Z.abs base < 2 ^ 53 -> finite w -> expo w <= 900 ->
  exists f, py_sub (PInt base) (PFloat w) = Ok (PFloat f) /\
            rounds (inject_Z base - SF2Q w) f.
Proof.
  intros Hb Hw He. destruct (as_float_int base Hb) as (fb & Hfb & Hfin & _ & Hv & Hefb).
  unfold py_sub. rewrite Hfb. cbn. eexists. split; [reflexivity|].
  eapply rounds_ext; [|apply (fsub_fin fb w Hfin Hw); lia]. by rewrite Hv.
Qed.

Lemma dy_add_4 n a : (inject_Z n + dy a 2 == dy (n * 4 + a) 2)%Q.
Proof. apply (dy_add_Z n a 2). lia. Qed.

Lemma dy_sub_4 n a : (inject_Z n - dy a 2 == dy (n * 4 - a) 2)%Q.
Proof. apply (dy_sub_Z n a 2). lia. Qed.

Lemma dy_Z_4 n : (inject_Z n == dy (n * 4) 2)%Q.
Proof. apply (dy_Z n 2). lia. Qed.

(** [base + s * c] for a literal [c] between [a / 4] and [b / 4]. *)
Lemma coord_add base s c a b :
  0 <= base < 2 ^ 32 -> 0 <= s < 2 ^ 31 -> 0 <= a <= b -> b <= 8 ->
  const_between a b 2 c ->
  exists w f, py_mul (PInt s) (PFloat c) = Ok (PFloat w) /\
              py_add (PInt base) (PFloat w) = Ok (PFloat f) /\
              within (dy (base * 4 + s * a) 2) (dy (base * 4 + s * b) 2) f.
Proof.
  intros Hbase Hs Ha Hb Hc.
  assert (2 ^ 32 * 16 < 2 ^ 53) as Hp by (vm_compute; reflexivity).
  assert (2 ^ 31 < 2 ^ 32) as Hp' by (vm_compute; reflexivity).
  destruct (py_mul_const s c a b 2 Hs Ha ltac:(change (2 ^ 20) with 1048576; lia) ltac:(lia) Hc)
    as (w & Hw & [Hfin [Hl Hu]] & He).
  destruct (py_add_int_float base w ltac:(lia) Hfin He) as (f & Hf & Hr).
  exists w, f. split; [done|]. split; [done|].
  apply (rounds_within _ _ _ _ Hr).
  - apply dy_srepr; [nia|lia].
  - apply dy_srepr; [nia|lia].
  - rewrite <- !dy_add_4. split; lra.
Qed.

(** [base - s * c]. *)
Lemma coord_sub base s c a b :
  0 <= base < 2 ^ 32 -> 0 <= s < 2 ^ 31 -> 0 <= a <= b -> b <= 8 ->
  const_between a b 2 c ->
  exists w f, py_mul (PInt s) (PFloat c) = Ok (PFloat w) /\
              py_sub (PInt base) (PFloat w) = Ok (PFloat f) /\
              within (dy (base * 4 - s * b) 2) (dy (base * 4 - s * a) 2) f.
Proof.
  intros Hbase Hs Ha Hb Hc.
  assert (2 ^ 32 * 16 < 2 ^ 53) as Hp by (vm_compute; reflexivity).
  assert (2 ^ 31 < 2 ^ 32) as Hp' by (vm_compute; reflexivity).
  destruct (py_mul_const s c a b 2 Hs Ha ltac:(change (2 ^ 20) with 1048576; lia) ltac:(lia) Hc)
    as (w & Hw & [Hfin [Hl Hu]] & He).
  destruct (py_sub_int_float base w ltac:(lia) Hfin He) as (f & Hf & Hr).
  exists w, f. split; [done|]. split; [done|].
  apply (rounds_within _ _ _ _ Hr).
  - apply dy_srepr; [nia|lia].
  - apply dy_srepr; [nia|lia].
  - rewrite <- !dy_sub_4. split; lra.
Qed.

Lemma within_coord_in lo hi a b f :
  within (dy a 2) (dy b 2) f -> lo * 4 <= a -> b <= hi * 4 ->
  coord_in lo hi (PFloat f).
Proof.
  intros Hw Ha Hb. cbn [coord_in]. apply (within_weaken _ _ _ _ _ Hw).
  - rewrite (dy_Z_4 lo). by apply dy_le.
  - rewrite (dy_Z_4 hi). by apply dy_le.
Qed.

(** The outline is computed without error, and its five float coordinates
    lie between the dyadic bounds of their literals. *)
Lemma m_outer_ok N g :
  0 <= N <= INT_MAX -> geometry_of N g ->
  exists x3 x5 y9 y10,
    m_outer g =
      Ok [ (PInt (left g), PInt (bottom g));
           (PInt (left g), PInt (top g));
           (PFloat x3, PInt (top g));
           (PInt (center_x g), PInt (top g + v_depth g));
           (PFloat x5, PInt (top g));
           (PInt (right g), PInt (top g));
           (PInt (right g), PInt (bottom g));
           (PInt (right g - stroke g), PInt (bottom g));
           (PInt (right g - stroke g), PFloat y9);
           (PInt (center_x g), PFloat y10);
           (PInt (left g + stroke g), PFloat y9);
           (PInt (left g + stroke g), PInt (bottom g)) ] /\
    within (dy (left g * 4 + stroke g * 4) 2) (dy (left g * 4 + stroke g * 5) 2) x3 /\
    within (dy (right g * 4 - stroke g * 5) 2) (dy (right g * 4 - stroke g * 4) 2) x5 /\
    within (dy (top g * 4 + stroke g * 3) 2) (dy (top g * 4 + stroke g * 4) 2) y9 /\
    within (dy ((top g + v_depth g) * 4 + stroke g * 2) 2)
           (dy ((top g + v_depth g) * 4 + stroke g * 3) 2) y10.
Proof.
  intros HN Hg. unfold geometry_of in Hg. unfold INT_MAX in HN.
  assert (2 ^ 31 = 2147483648) as H31 by reflexivity.
  assert (2 ^ 32 = 4294967296) as H32 by reflexivity.
  unfold left, right, top, bottom in *.
  destruct (coord_add (margin_x g) (stroke g) c_1_1 4 5) as (w3 & x3 & Hw3 & Hx3 & Hb3);
    [lia|lia|lia|lia|apply c_1_1_between|].
  destruct (coord_sub (canvas g - margin_x g) (stroke g) c_1_1 4 5) as (w5 & x5 & Hw5 & Hx5 & Hb5);
    [lia|lia|lia|lia|apply c_1_1_between|].
  destruct (coord_add (margin_top g) (stroke g) c_0_8 3 4) as (h9 & y9 & Hh9 & Hy9 & Hb9);
    [lia|lia|lia|lia|apply c_0_8_between|].
  destruct (coord_add (margin_top g + v_depth g) (stroke g) c_0_7 2 3)
    as (h10 & y10 & Hh10 & Hy10 & Hb10);
    [lia|lia|lia|lia|apply c_0_7_between|].
  assert (w5 = w3) as -> by congruence.
  exists x3, x5, y9, y10. split; [|done].
  unfold m_outer, left, right, top, bottom.
  repeat (first [rewrite Hw3|rewrite Hx3|rewrite Hx5|rewrite Hh9|rewrite Hy9
                 |rewrite Hh10|rewrite Hy10]; cbn [mbind result_bind]).
  reflexivity.
Qed.

(** ** Loops over [range] and the images they paint *)

Lemma bind_Ok {A B} (m : result A) (k : A -> result B) (b : B) :
  m ≫= k = Ok b -> exists a, m = Ok a /\ k a = Ok b.
Proof. destruct m as [a|e]; cbn; [eauto|done]. Qed.

Lemma for_each_seq {T} (body : Z -> T -> result T) (Inv : Z -> T -> Prop) k a s :
  Inv (Z.of_nat a) s ->
  (forall i s, Z.of_nat a <= i < Z.of_nat (a + k) -> Inv i s ->
     exists s', body i s = Ok s' /\ Inv (i + 1) s') ->
  exists s', for_each (Z.of_nat <$> seq a k) body s = Ok s' /\ Inv (Z.of_nat (a + k)) s'.
Proof.
  revert a s. induction k as [|k IH]; intros a s Hinv Hstep.
  - exists s. rewrite Nat.add_0_r. done.
  - cbn [seq fmap list_fmap for_each].
    destruct (Hstep (Z.of_nat a) s ltac:(lia) Hinv) as (s1 & Hb & Hinv1).
    rewrite Hb. cbn [mbind result_bind].
    replace (Z.of_nat a + 1) with (Z.of_nat (S a)) in Hinv1 by lia.
    destruct (IH (S a) s1 Hinv1) as (s' & Hs' & Hinv').
    + intros i t Hi. apply Hstep. lia.
    + exists s'. split; [done|]. by replace (a + S k)%nat with (S a + k)%nat by lia.
Qed.

Lemma for_each_range {T} (body : Z -> T -> result T) (Inv : Z -> T -> Prop) n s :
  0 <= n -> Inv 0 s ->
  (forall i s, 0 <= i < n -> Inv i s -> exists s', body i s = Ok s' /\ Inv (i + 1) s') ->
  exists s', for_each (range n) body s = Ok s' /\ Inv n s'.
Proof.
  intros Hn Hinv Hstep. unfold range.
  destruct (for_each_seq body Inv (Z.to_nat n) 0 s Hinv) as (s' & Hs' & Hinv').
  - intros i t Hi. apply Hstep. lia.
  - exists s'. split; [done|]. by replace (Z.of_nat (0 + Z.to_nat n)) with n in Hinv' by lia.
Qed.

Lemma putpixel_spec {P} (im : image P) x y (v : P) :
  0 <= x < width im -> 0 <= y < height im ->
  exists im', putpixel im (x, y) v = Ok im' /\
    width im' = width im /\ height im' = height im /\
    forall x' y', px im' x' y' = if (x' =? x) && (y' =? y) then v else px im x' y'.
Proof.
  intros Hx Hy. unfold putpixel, in_image. cbn [fst snd].
  replace (x <? 0) with false by lia. replace (y <? 0) with false by lia.
  replace ((0 <=? x) && (x <? width im) && (0 <=? y) && (y <? height im)) with true by lia.
  eexists. split; [reflexivity|]. done.
Qed.

(** One row: [for x in range(n): img.putpixel((x, y), col(x))]. *)
Lemma paint_row {P} (col : Z -> result P) n y (img : image P) :
  0 <= n <= width img -> 0 <= y < height img ->
  (forall x, 0 <= x < n -> exists c, col x = Ok c) ->
  exists img',
    for_each (range n) (fun x img => c ← col x; putpixel img (x, y) c) img = Ok img' /\
    width img' = width img /\ height img' = height img /\
    forall x' y',
      if (y' =? y) && (0 <=? x') && (x' <? n)
      then col x' = Ok (px img' x' y')
      else px img' x' y' = px img x' y'.
Proof.
  intros Hn Hy Hcol.
  destruct (for_each_range (fun x img => c ← col x; putpixel img (x, y) c)
    (fun i im => width im = width img /\ height im = height img /\
       forall x' y', if (y' =? y) && (0 <=? x') && (x' <? i)
                     then col x' = Ok (px im x' y') else px im x' y' = px img x' y')
    n img) as (img' & Hrun & Hw & Hh & Hpx); [lia| | |by exists img'].
  - split; [done|]. split; [done|]. intros x' y'.
    replace ((y' =? y) && (0 <=? x') && (x' <? 0)) with false by lia. done.
  - intros i im Hi (Hw & Hh & Hpx). destruct (Hcol i Hi) as [c Hc]. rewrite Hc.
    cbn [mbind result_bind].
    destruct (putpixel_spec im i y c ltac:(lia) ltac:(lia)) as (im' & Hput & Hw' & Hh' & Hpx').
    exists im'. split; [done|]. split; [lia|]. split; [lia|]. intros x' y'.
    rewrite Hpx'. specialize (Hpx x' y').
    destruct (Z.eqb_spec x' i) as [Hxe|Hne]; destruct (Z.eqb_spec y' y) as [Hye|Hney];
      cbn [andb] in *.
    + subst x'. replace ((0 <=? i) && (i <? i + 1)) with true by lia. done.
    + done.
    + replace ((0 <=? x') && (x' <? i + 1)) with ((0 <=? x') && (x' <? i)) by lia. done.
    + done.
Qed.

(** The whole canvas, row by row. *)
Lemma paint_rows {P} (row : Z -> image P -> result (image P))
    (R : Z -> Z -> P -> Prop) n (img : image P) :
  0 <= n -> width img = n -> height img = n ->
  (forall y im, 0 <= y < n -> width im = n -> height im = n ->
     exists im', row y im = Ok im' /\ width im' = n /\ height im' = n /\
       forall x' y', if (y' =? y) && (0 <=? x') && (x' <? n)
                     then R x' y' (px im' x' y') else px im' x' y' = px im x' y') ->
  exists img', for_each (range n) row img = Ok img' /\
    width img' = n /\ height img' = n /\
    forall x y, 0 <= x < n -> 0 <= y < n -> R x y (px img' x y).
Proof.
  intros Hn Hw Hh Hrow.
  destruct (for_each_range row
    (fun i im => width im = n /\ height im = n /\
       forall x y, 0 <= x < n -> 0 <= y < i -> R x y (px im x y))
    n img) as (img' & Hrun & Hw' & Hh' & Hpx); [lia| | |by exists img'].
  - split; [done|]. split; [done|]. intros x y Hx Hy. lia.
  - intros i im Hi (Hwi & Hhi & Hpx).
    destruct (Hrow i im Hi Hwi Hhi) as (im' & Hr & Hw' & Hh' & Hpx').
    exists im'. split; [done|]. split; [done|]. split; [done|]. intros x y Hx Hy.
    specialize (Hpx' x y). destruct (Z.eqb_spec y i) as [Hye|Hne]; cbn [andb] in Hpx'.
    + subst y. by replace ((0 <=? x) && (x <? n)) with true in Hpx' by lia.
    + rewrite Hpx'. apply Hpx; lia.
Qed.

(** ** Signs, without magnitudes *)

Lemma bra_sign s m e l :
  let r := binary_round_aux prec emax s m e l in
  r = S754_nan \/ sign_of r = Some s.
Proof.
  unfold binary_round_aux.
  destruct (shr_fexp prec emax m e l) as [r1 e1].
  destruct (shr_fexp prec emax _ e1 loc_Exact) as [r2 e2].
  destruct (shr_m r2); [by right| |by left].
  destruct (e2 <=? emax - prec); by right.
Qed.

Lemma fmul_self_nonneg f : nonneg_or_nan (fmul f f).
Proof.
  destruct f as [s|s| |s m e]; unfold fmul; cbn [SFmul].
  - right. by destruct s.
  - right. by destruct s.
  - by left.
  - replace (xorb s s) with false by (by destruct s). apply bra_sign.
Qed.

Lemma fadd_nonneg a b : nonneg_or_nan a -> nonneg_or_nan b -> nonneg_or_nan (fadd a b).
Proof.
  intros [->|Ha] [->|Hb]; try (left; by destruct a); try (by left).
  destruct a as [sa|sa| |sa ma ea]; try done; destruct b as [sb|sb| |sb mb eb]; try done;
    cbn [sign_of] in Ha, Hb; injection Ha as ->; injection Hb as ->;
    unfold fadd; cbn [SFadd]; try (by right).
  cbn [cond_Zopp].
  set (A := (shl_align ma ea (Z.min ea eb)).1). set (B := (shl_align mb eb (Z.min ea eb)).1).
  change (Z.pos A + Z.pos B) with (Z.pos (A + B)). cbn [binary_normalize].
  unfold binary_round.
  destruct (shl_align (A + B) _ _) as [mz ez]. apply bra_sign.
Qed.

Lemma fsqrt_nonneg a : nonneg_or_nan a -> nonneg_or_nan (fsqrt a).
Proof.
  intros [->|Ha]; [by left|].
  destruct a as [sa|sa| |sa ma ea]; try done; cbn [sign_of] in Ha; injection Ha as ->;
    unfold fsqrt; cbn [SFsqrt]; try (by right).
  destruct (SFsqrt_core_binary prec emax (Z.pos ma) ea) as [[mz ez] lz]. apply bra_sign.
Qed.

Lemma flt_zero_nonneg r : nonneg_or_nan r -> flt r (S754_zero false) = false.
Proof.
  intros [->|Hr]; [done|].
  destruct r as [s|s| |s m e]; try done; cbn [sign_of] in Hr; by injection Hr as ->.
Qed.

(** A non-negative float times a positive normal literal. *)
Lemma fmul_literal_shape r mc ec :
  nonneg_or_nan r -> Z.pos (digits2_pos mc) = 53 ->
  let d := fmul r (S754_finite false mc ec) in
  d = S754_nan \/ d = S754_zero false \/ d = S754_infinity false \/
  exists m e, d = S754_finite false m e /\ finite d.
Proof.
  intros [->|Hr] Hmc d; [by left|].
  destruct r as [s|s| |s m e]; try done; cbn [sign_of] in Hr; injection Hr as ->;
    unfold d, fmul; cbn [SFmul xorb].
  - by right; left.
  - by right; right; left.
  - pose proof (digits2_mul m mc) as [Hdl _].
    pose proof (Pos2Z.is_pos (digits2_pos m)).
    destruct (bra_shape false (m * mc) (e + ec) loc_Exact) as (M1 & _ & _ & Hres).
    { rewrite fexp_eq. lia. }
    destruct Hres as [[_ ->]|(m2 & e2 & -> & Hd2 & He2 & _)]; [by right; left|].
    destruct (Z.leb_spec e2 971); [|by right; right; left].
    right; right; right. exists m2, e2. split; [done|]. cbn [finite].
    rewrite fexp_eq in He2. lia.
Qed.

(** ** The background *)

Lemma half_size N :
  valid_size N ->
  exists h, py_truediv (PInt N) (PInt 2) = Ok (PFloat h) /\ finite h /\ is_zero h = false.
Proof.
  intros [HN0 HN]. unfold INT_MAX in HN. unfold py_truediv.
  change (2 =? 0) with false. cbn iota.
  destruct N as [|p|p]; try lia. cbn [int_mantissa].
  assert (Z.pos (digits2_pos p) <= 31) as Hd.
  { apply digits2_le. change (2 ^ 31) with 2147483648. lia. }
  pose proof (Pos2Z.is_pos (digits2_pos p)).
  destruct (fdiv_rounds false p 0 false 2 0) as (Hr & _ & Hn).
  { cbn [digits2_pos Pos.succ]. lia. }
  { cbn [digits2_pos Pos.succ]. lia. }
  destruct Hn as (m2 & e2 & Heq & Hd2); [lia|].
  destruct Hr as [Hfin _]. rewrite (finite_is_finite _ Hfin).
  eexists. split; [reflexivity|]. split; [done|]. by rewrite Heq.
Qed.

(** The blend weight [t = min(1.0, dist * 0.7)] is a float between 0
    and 1, whatever the distance. *)
Lemma min_one_within d :
  d = S754_nan \/ d = S754_zero false \/ d = S754_infinity false \/
    (exists m e, d = S754_finite false m e /\ finite d) ->
  exists t, py_min (PFloat c_1_0) (PFloat d) = PFloat t /\ within 0 1 t.
Proof.
  assert (Hone : within 0 1 c_1_0).
  { split; [by vm_compute|]. split; unfold Qle; vm_compute; discriminate. }
  unfold py_min. cbn [py_lt].
  intros [->|[->|[->|(m & e & -> & Hfin)]]].
  - exists c_1_0. done.
  - exists (S754_zero false). split; [done|]. split; [done|]. cbn. split; lra.
  - exists c_1_0. done.
  - destruct (flt (S754_finite false m e) c_1_0) eqn:Hlt; [|by exists c_1_0].
    exists (S754_finite false m e). split; [done|]. split; [done|].
    cbn [finite] in Hfin. pose proof (flt_one_value m e ltac:(lia) Hlt).
    cbn [SF2Q cond_Zopp]. pose proof (pow2_pos e).
    pose proof (inject_Z_nonneg (Z.pos m) ltac:(lia)). split; nra.
Qed.

(** [int(a + (b - a) * t)] for channel values [b <= a] and a weight
    between two small integers. *)
Lemma lerp_ok a b t tl th :
  0 <= b <= a -> a <= 255 -> -4 <= tl <= th -> th <= 4 ->
  within (inject_Z tl) (inject_Z th) t ->
  exists z, lerp a b (PFloat t) = Ok z /\ a + (b - a) * th <= z <= a + (b - a) * tl.
Proof.
  intros Hb Ha Htl Hth [Hfin [Hl Hu]].
  assert (2 ^ 53 = 9007199254740992) as H53 by reflexivity.
  assert (2 ^ 11 = 2048) as H11 by reflexivity.
  destruct (as_float_int (b - a) ltac:(lia)) as (f & Hf & Hffin & Hfn & Hfv & Hfe).
  assert (expo t <= 2) as Het.
  { apply expo_le; [lia|]. split; [done|]. change (2 ^ 2) with 4.
    assert (inject_Z (-4) <= inject_Z tl)%Q by (rewrite <- Zle_Qle; lia).
    assert (inject_Z th <= inject_Z 4)%Q by (rewrite <- Zle_Qle; lia).
    change (inject_Z (-4)) with (- inject_Z 4)%Q in *. split; lra. }
  pose proof (fmul_fin f t Hffin Hfin (or_introl Hfn) ltac:(lia)) as Hr.
  assert (Hd : within (inject_Z ((b - a) * th)) (inject_Z ((b - a) * tl)) (fmul f t)).
  { apply (rounds_within _ _ _ _ Hr).
    - apply srepr_Z. nia.
    - apply srepr_Z. nia.
    - rewrite Hfv, !inject_Z_mult.
      assert (inject_Z (b - a) <= 0)%Q.
      { change 0%Q with (inject_Z 0). rewrite <- Zle_Qle. lia. }
      split; nra. }
  assert (expo (fmul f t) <= 11) as Hed.
  { apply expo_le; [lia|]. apply (within_weaken _ _ _ _ _ Hd).
    - rewrite <- inject_Z_opp, <- Zle_Qle. nia.
    - rewrite <- Zle_Qle. nia. }
  unfold lerp. unfold py_mul at 1. rewrite Hf. cbn [mbind result_bind as_float].
  destruct (py_add_int_float a (fmul f t) ltac:(lia) (proj1 Hd) ltac:(lia)) as (v & Hv & Hrv).
  rewrite Hv. cbn [mbind result_bind].
  apply py_int_within.
  apply (rounds_within _ _ _ _ Hrv).
  - apply srepr_Z. nia.
  - apply srepr_Z. nia.
  - destruct Hd as [_ [Hdl Hdu]]. rewrite !inject_Z_plus. split; lra.
Qed.

Lemma lerp3_ok a b t tl th :
  0 <= b.1.1 <= a.1.1 -> 0 <= b.1.2 <= a.1.2 -> 0 <= b.2 <= a.2 ->
  a.1.1 <= 255 -> a.1.2 <= 255 -> a.2 <= 255 ->
  -4 <= tl <= th -> th <= 4 ->
  within (inject_Z tl) (inject_Z th) t ->
  exists r g bl, lerp3 a b (PFloat t) = Ok (r, g, bl) /\
    a.1.1 + (b.1.1 - a.1.1) * th <= r <= a.1.1 + (b.1.1 - a.1.1) * tl /\
    a.1.2 + (b.1.2 - a.1.2) * th <= g <= a.1.2 + (b.1.2 - a.1.2) * tl /\
    a.2 + (b.2 - a.2) * th <= bl <= a.2 + (b.2 - a.2) * tl.
Proof.
  intros H1 H2 H3 H4 H5 H6 Htl Hth Ht.
  destruct (lerp_ok a.1.1 b.1.1 t tl th H1 H4 Htl Hth Ht) as (r & Hr & Hrb).
  destruct (lerp_ok a.1.2 b.1.2 t tl th H2 H5 Htl Hth Ht) as (g & Hg & Hgb).
  destruct (lerp_ok a.2 b.2 t tl th H3 H6 Htl Hth Ht) as (bl & Hbl & Hblb).
  exists r, g, bl. unfold lerp3. rewrite Hr. cbn [mbind result_bind].
  rewrite Hg. cbn [mbind result_bind]. rewrite Hbl. done.
Qed.

Lemma py_sub_int_any x h :
  Z.abs x < 2 ^ 53 -> exists f, py_sub (PInt x) (PFloat h) = Ok (PFloat f).
Proof.
  intros Hx. destruct (as_float_int x Hx) as (f & Hf & _).
  unfold py_sub. rewrite Hf. cbn. by eexists.
Qed.

Lemma py_truediv_float a h :
  is_zero h = false -> py_truediv (PFloat a) (PFloat h) = Ok (PFloat (fdiv a h)).
Proof. intros Hz. unfold py_truediv. cbn [as_float mbind result_bind]. by rewrite Hz. Qed.

Lemma math_sqrt_nonneg s :
  nonneg_or_nan s -> math_sqrt (PFloat s) = Ok (PFloat (fsqrt s)).
Proof.
  intros Hs. unfold math_sqrt. cbn [as_float mbind result_bind].
  by rewrite (flt_zero_nonneg s Hs).
Qed.

(** Every background pixel is computed without error, is opaque, and has
    each channel between the dark and the lighter colour. *)
Lemma bg_pixel_ok N x y :
  valid_size N -> 0 <= x < N -> 0 <= y < N ->
  exists r g b, bg_pixel N x y = Ok (r, g, b, 255) /\
    24 <= r <= 39 /\ 24 <= g <= 39 /\ 27 <= b <= 42.
Proof.
  intros HN Hx Hy. pose proof HN as [HN0 HN1]. unfold INT_MAX in HN1.
  assert (2 ^ 53 = 9007199254740992) as H53 by reflexivity.
  destruct (half_size N HN) as (h & Hh & Hhfin & Hhz).
  destruct (py_sub_int_any x h ltac:(lia)) as (nx & Hnx).
  destruct (py_sub_int_any y h ltac:(lia)) as (ny & Hny).
  unfold bg_pixel. rewrite Hh. cbn [mbind result_bind].
  rewrite Hnx. cbn [mbind result_bind]. rewrite (py_truediv_float nx h Hhz).
  cbn [mbind result_bind]. rewrite Hny. cbn [mbind result_bind].
  rewrite (py_truediv_float ny h Hhz). cbn [mbind result_bind py_mul as_float py_add].
  set (dx := fdiv nx h). set (dy := fdiv ny h).
  pose proof (fadd_nonneg _ _ (fmul_self_nonneg dx) (fmul_self_nonneg dy)) as Hs.
  rewrite (math_sqrt_nonneg _ Hs). cbn [mbind result_bind py_mul as_float].
  destruct (min_one_within (fmul (fsqrt (fadd (fmul dx dx) (fmul dy dy))) c_0_7))
    as (t & Ht & Htw).
  { apply fmul_literal_shape; [by apply fsqrt_nonneg|reflexivity]. }
  rewrite Ht.
  destruct (lerp3_ok bg_lighter bg_dark t 0 1) as (r & g & b & Hl & Hr & Hg & Hb);
    try (cbn; lia); [done|].
  rewrite Hl. cbn [mbind result_bind]. exists r, g, b. split; [done|].
  cbn in Hr, Hg, Hb. lia.
Qed.

(** The painter overwrites every pixel of any N x N canvas handed to it. *)
Lemma paint_background_ok N (img : image rgba) :
  valid_size N -> width img = N -> height img = N ->
  exists img', paint_background N img = Ok img' /\
    width img' = N /\ height img' = N /\
    forall x y, 0 <= x < N -> 0 <= y < N ->
      bg_pixel N x y = Ok (px img' x y).
Proof.
  intros HN Hw Hh. pose proof HN as [HN0 _].
  unfold paint_background.
  apply (paint_rows _ (fun x y p => bg_pixel N x y = Ok p)); [lia|done|done|].
  intros y im Hy Hwi Hhi.
  destruct (paint_row (fun x => bg_pixel N x y) N y im) as (im' & Hrun & Hw' & Hh' & Hpx);
    [lia|lia| |].
  - intros x Hx. destruct (bg_pixel_ok N x y HN Hx Hy) as (r & g & b & Hc & _). eauto.
  - exists im'. split; [done|]. split; [lia|]. split; [lia|].
    intros x' y'. specialize (Hpx x' y').
    destruct (Z.eqb_spec y' y) as [Hye|Hne]; [subst y'|]; exact Hpx.
Qed.

(** ** The gradient *)

Lemma Qltb_spec a b : Qltb a b = true <-> (a < b)%Q.
Proof. unfold Qltb, Qlt. apply Z.ltb_lt. Qed.

Lemma Qltb_false a b : Qltb a b = false <-> (b <= a)%Q.
Proof. unfold Qltb, Qle. rewrite Z.ltb_ge. done. Qed.

(** The quotient of two positive integers below [2 ^ 31]. *)
Lemma truediv_pos k h :
  0 < k < 2 ^ 31 -> 0 < h < 2 ^ 31 ->
  exists m e, py_truediv (PInt k) (PInt h) = Ok (PFloat (S754_finite false m e)) /\
    rounds (inject_Z k / inject_Z h) (S754_finite false m e) /\
    Z.pos (digits2_pos m) = 53.
Proof.
  intros Hk Hh. destruct k as [|pk|pk]; try lia. destruct h as [|ph|ph]; try lia.
  unfold py_truediv. replace (Z.pos ph =? 0) with false by lia. cbn [int_mantissa].
  assert (Z.pos (digits2_pos pk) <= 31) by (apply digits2_le; lia).
  assert (Z.pos (digits2_pos ph) <= 31) by (apply digits2_le; lia).
  pose proof (Pos2Z.is_pos (digits2_pos pk)). pose proof (Pos2Z.is_pos (digits2_pos ph)).
  destruct (fdiv_rounds false pk 0 false ph 0) as (Hr & _ & Hn); [lia|lia|].
  destruct Hn as (m & e & Heq & Hd); [lia|]. cbn [xorb] in Heq.
  rewrite Heq in Hr |- *. pose proof Hr as [Hfin _]. rewrite (finite_is_finite _ Hfin).
  exists m, e. split; [done|]. split; [|done].
  eapply rounds_ext; [|exact Hr]. cbn [SF2Q cond_Zopp]. change (pow2 0) with 1%Q.
  by rewrite !Qmult_1_r.
Qed.

(** The quotient of a negative by a positive integer. *)
Lemma truediv_neg k h :
  - 2 ^ 31 < k < 0 -> 0 < h < 2 ^ 31 ->
  exists m e, py_truediv (PInt k) (PInt h) = Ok (PFloat (S754_finite true m e)) /\
    rounds (inject_Z k / inject_Z h) (S754_finite true m e).
Proof.
  intros Hk Hh. destruct k as [|pk|pk]; try lia. destruct h as [|ph|ph]; try lia.
  unfold py_truediv. replace (Z.pos ph =? 0) with false by lia. cbn [int_mantissa].
  assert (Z.pos (digits2_pos pk) <= 31) by (apply digits2_le; lia).
  assert (Z.pos (digits2_pos ph) <= 31) by (apply digits2_le; lia).
  pose proof (Pos2Z.is_pos (digits2_pos pk)). pose proof (Pos2Z.is_pos (digits2_pos ph)).
  destruct (fdiv_rounds true pk 0 false ph 0) as (Hr & _ & Hn); [lia|lia|].
  destruct Hn as (m & e & Heq & Hd); [lia|]. cbn [xorb] in Heq.
  rewrite Heq in Hr |- *. pose proof Hr as [Hfin _]. rewrite (finite_is_finite _ Hfin).
  exists m, e. split; [done|].
  eapply rounds_ext; [|exact Hr]. cbn [SF2Q cond_Zopp]. change (pow2 0) with 1%Q.
  by rewrite !Qmult_1_r.
Qed.

Lemma truediv_zero h :
  0 < h -> py_truediv (PInt 0) (PInt h) = Ok (PFloat (S754_zero false)).
Proof.
  intros Hh. destruct h as [|ph|ph]; try lia.
  unfold py_truediv. by replace (Z.pos ph =? 0) with false by lia.
Qed.

Lemma srepr_ext K K' : (K == K')%Q -> srepr K -> srepr K'.
Proof.
  intros HK [(k & g & Hk & Hg & Hv)|(k & g & Hk & Hg & Hv)]; [left|right];
    exists k, g; (split; [done|]); (split; [done|]); rewrite <- Hv; lra.
Qed.

(** A quotient that is a normal float is that float. *)
Lemma truediv_exact k h m e :
  0 < k < 2 ^ 31 -> 0 < h < 2 ^ 31 ->
  Z.pos (digits2_pos m) = 53 -> -1074 <= e ->
  (inject_Z k / inject_Z h == inject_Z (Z.pos m) * pow2 e)%Q ->
  py_truediv (PInt k) (PInt h) = Ok (PFloat (S754_finite false m e)).
Proof.
  intros Hk Hh Hd He Hv.
  destruct (truediv_pos k h Hk Hh) as (m' & e' & Hdiv & Hr & Hd').
  rewrite Hdiv. do 2 f_equal.
  assert (SF2Q (S754_finite false m' e') == inject_Z k / inject_Z h)%Q as Hval.
  { apply (rounds_exact _ _ Hr). apply (srepr_ext (inject_Z (Z.pos m) * pow2 e)); [by symmetry|].
    left. exists (Z.pos m), e.
    pose proof (digits2_bounds m) as [_ Hu]. rewrite Hd in Hu.
    split; [lia|]. split; [lia|reflexivity]. }
  cbn [SF2Q cond_Zopp] in Hval. rewrite Hv in Hval.
  destruct (normal_unique m' e' m e Hd' Hd Hval) as [-> ->]. done.
Qed.

Lemma gradient_color_int_0 : gradient_color (PInt 0) = Ok grad_top.
Proof. vm_compute. reflexivity. Qed.

Lemma gradient_color_int_1 : gradient_color (PInt 1) = Ok grad_bottom.
Proof. vm_compute. reflexivity. Qed.

Lemma gradient_color_zero : gradient_color (PFloat (S754_zero false)) = Ok grad_top.
Proof. vm_compute. reflexivity. Qed.

Lemma gradient_color_half : gradient_color (PFloat c_0_5) = Ok grad_mid.
Proof. vm_compute. reflexivity. Qed.

Lemma gradient_color_one : gradient_color (PFloat c_1_0) = Ok grad_bottom.
Proof. vm_compute. reflexivity. Qed.

Lemma py_mul_float_2 d lo hi :
  -2 <= lo <= hi -> hi <= 2 ->
  within (inject_Z lo) (inject_Z hi) d ->
  exists t2, py_mul (PFloat d) (PInt 2) = Ok (PFloat t2) /\
             within (inject_Z (2 * lo)) (inject_Z (2 * hi)) t2.
Proof.
  intros Hlo Hhi Hd. pose proof Hd as [Hfin [Hl Hu]].
  assert (2 ^ 53 = 9007199254740992) as H53 by reflexivity.
  destruct (as_float_int 2 ltac:(lia)) as (f2 & Hf2 & Hffin & Hfn & Hfv & Hfe).
  unfold py_mul. cbn [as_float mbind result_bind]. cbn [as_float] in Hf2. rewrite Hf2.
  cbn [mbind result_bind]. eexists. split; [reflexivity|].
  assert (expo d <= 1) as Hed.
  { apply expo_le; [lia|]. split; [done|]. change (2 ^ 1) with 2.
    assert (inject_Z (-2) <= inject_Z lo)%Q by (rewrite <- Zle_Qle; lia).
    assert (inject_Z hi <= inject_Z 2)%Q by (rewrite <- Zle_Qle; lia).
    change (inject_Z (-2)) with (- inject_Z 2)%Q in *. split; lra. }
  apply (rounds_within _ _ _ _ (fmul_fin d f2 Hfin Hffin (or_intror Hfn) ltac:(lia))).
  - apply srepr_Z. lia.
  - apply srepr_Z. lia.
  - rewrite Hfv, !inject_Z_mult. change (inject_Z 2) with 2%Q. split; lra.
Qed.

(** The colour is defined wherever the position is a float in [0, 1]. *)
Lemma gradient_color_ok t :
  within 0 1 t -> exists c, gradient_color (PFloat t) = Ok c.
Proof.
  intros Ht. pose proof Ht as [Hfin [Hl Hu]].
  unfold gradient_color. destruct (py_lt (PFloat t) (PFloat c_0_5)).
  - destruct (py_mul_float_2 t 0 1 ltac:(lia) ltac:(lia) Ht) as (t2 & Ht2 & Hw2).
    rewrite Ht2. cbn [mbind result_bind].
    destruct (lerp3_ok grad_top grad_mid t2 0 2) as (r & g & b & Hc & _);
      try (cbn; lia); [exact Hw2|].
    rewrite Hc. by eexists.
  - cbn [py_sub as_float mbind result_bind].
    assert (Hc5 : finite c_0_5 /\ (SF2Q c_0_5 == 1 # 2)%Q /\ expo c_0_5 <= 0).
    { split; [by vm_compute|]. split; [by vm_compute|]. vm_compute. discriminate. }
    destruct Hc5 as (Hcf & Hcv & Hce).
    assert (expo t <= 0) as Het.
    { apply expo_le; [lia|]. split; [done|]. change (inject_Z (2 ^ 0)) with 1%Q. split; lra. }
    assert (Hd : within (inject_Z (-1)) (inject_Z 1) (fsub t c_0_5)).
    { apply (rounds_within _ _ _ _ (fsub_fin t c_0_5 Hfin Hcf ltac:(lia) ltac:(lia))).
      - apply srepr_Z. lia.
      - apply srepr_Z. lia.
      - rewrite Hcv. change (inject_Z (-1)) with (-1)%Q. change (inject_Z 1) with 1%Q.
        split; lra. }
    destruct (py_mul_float_2 _ (-1) 1 ltac:(lia) ltac:(lia) Hd) as (t2 & Ht2 & Hw2).
    rewrite Ht2. cbn [mbind result_bind].
    destruct (lerp3_ok grad_mid grad_bottom t2 (-2) 2) as (r & g & b & Hc & _);
      try (cbn; lia); [exact Hw2|].
    rewrite Hc. by eexists.
Qed.

Lemma geometry_extent N g :
  valid_size N -> geometry_of N g ->
  0 <= top g /\ top g < bottom g /\ bottom g <= N /\ 0 < bottom g - top g < 2 ^ 31.
Proof.
  intros [HN0 HN1] Hg. unfold geometry_of in Hg. unfold INT_MAX in HN1.
  unfold top, bottom. change (2 ^ 31) with 2147483648. lia.
Qed.

(** The position of a row: the integer 0 above the glyph, the integer 1
    below it, a float in [0, 1] inside. *)
Lemma gradient_t_ok N g y :
  valid_size N -> geometry_of N g -> 0 <= y < N ->
  exists t, gradient_t g y = Ok t /\
    ((y < top g /\ t = PInt 0) \/ (bottom g < y /\ t = PInt 1) \/
     (top g <= y <= bottom g /\ exists f, t = PFloat f /\ within 0 1 f)).
Proof.
  intros HN Hg Hy. destruct (geometry_extent N g HN Hg) as (Ht0 & Htb & HbN & Hh).
  change (2 ^ 31) with 2147483648 in Hh.
  unfold gradient_t.
  destruct (Z.ltb_spec y (top g)) as [Hlt|Hge]; [exists (PInt 0); by auto|].
  destruct (Z.ltb_spec (bottom g) y) as [Hgt|Hle]; [exists (PInt 1); by auto 6|].
  destruct (Z.eq_dec y (top g)) as [->|Hne].
  - rewrite Z.sub_diag, truediv_zero by lia. eexists. split; [done|].
    right; right. split; [lia|]. eexists. split; [done|]. split; [done|]. cbn. split; lra.
  - destruct (truediv_pos (y - top g) (bottom g - top g)) as (m & e & Hdiv & Hr & Hd).
    { change (2 ^ 31) with 2147483648. lia. }
    { change (2 ^ 31) with 2147483648. lia. }
    eexists. split; [exact Hdiv|]. right; right. split; [lia|]. eexists. split; [done|].
    apply (rounds_within _ _ _ _ Hr).
    + left. apply repr_0.
    + apply (srepr_Z 1). done.
    + assert (0 < inject_Z (bottom g - top g))%Q as Hhq.
      { change 0%Q with (inject_Z 0). rewrite <- Zlt_Qlt. lia. }
      assert (0 <= inject_Z (y - top g))%Q as Hkq by (apply inject_Z_nonneg; lia).
      assert (inject_Z (y - top g) <= inject_Z (bottom g - top g))%Q as Hkh
        by (rewrite <- Zle_Qle; lia).
      split.
      * apply Qle_shift_div_l; [done|]. lra.
      * apply Qle_shift_div_r; [done|]. change (inject_Z 1) with 1%Q. lra.
Qed.

Lemma gradient_row_ok N g y :
  valid_size N -> geometry_of N g -> 0 <= y < N ->
  exists c, gradient_row g y = Ok c.
Proof.
  intros HN Hg Hy.
  destruct (gradient_t_ok N g y HN Hg Hy) as (t & Ht & [[_ ->]|[[_ ->]|[_ (f & -> & Hf)]]]);
    unfold gradient_row; rewrite Ht; cbn [mbind result_bind].
  - rewrite gradient_color_int_0. by eexists.
  - rewrite gradient_color_int_1. by eexists.
  - by apply gradient_color_ok.
Qed.

(** The row at the top of the glyph has the top stop. *)
Lemma gradient_row_top N g :
  valid_size N -> geometry_of N g -> gradient_row g (top g) = Ok grad_top.
Proof.
  intros HN Hg. destruct (geometry_extent N g HN Hg) as (Ht0 & Htb & HbN & Hh).
  unfold gradient_row, gradient_t.
  replace (top g <? top g) with false by lia. replace (bottom g <? top g) with false by lia.
  rewrite Z.sub_diag, truediv_zero by lia. cbn [mbind result_bind].
  apply gradient_color_zero.
Qed.

(** The row at the bottom of the glyph has the bottom stop. *)
Lemma gradient_row_bottom N g :
  valid_size N -> geometry_of N g -> gradient_row g (bottom g) = Ok grad_bottom.
Proof.
  intros HN Hg. destruct (geometry_extent N g HN Hg) as (Ht0 & Htb & HbN & Hh).
  unfold gradient_row, gradient_t.
  replace (bottom g <? top g) with false by lia. replace (bottom g <? bottom g) with false by lia.
  rewrite (truediv_exact _ _ 4503599627370496 (-52)); [|done|done|reflexivity|lia|].
  - cbn [mbind result_bind]. apply gradient_color_one.
  - rewrite one_val52.
    assert (0 < inject_Z (bottom g - top g))%Q.
    { change 0%Q with (inject_Z 0). rewrite <- Zlt_Qlt. lia. }
    field. lra.
Qed.

(** The row midway between them, when there is one, has the middle stop. *)
Lemma gradient_row_mid N g y :
  valid_size N -> geometry_of N g -> 2 * (y - top g) = bottom g - top g ->
  gradient_row g y = Ok grad_mid.
Proof.
  intros HN Hg Hmid. destruct (geometry_extent N g HN Hg) as (Ht0 & Htb & HbN & Hh).
  unfold gradient_row, gradient_t.
  replace (y <? top g) with false by lia. replace (bottom g <? y) with false by lia.
  rewrite (truediv_exact _ _ 4503599627370496 (-53)); [|lia|done|reflexivity|lia|].
  - cbn [mbind result_bind]. apply gradient_color_half.
  - rewrite <- Hmid, inject_Z_mult.
    assert (0 < inject_Z (y - top g))%Q.
    { change 0%Q with (inject_Z 0). rewrite <- Zlt_Qlt. lia. }
    assert (inject_Z 4503599627370496 * pow2 (-53) == 1 # 2)%Q as ->.
    { pose proof one_val53 as H53.
      assert (inject_Z 9007199254740992 == 2 * inject_Z 4503599627370496)%Q as Hd
        by (vm_compute; reflexivity).
      rewrite Hd in H53. lra. }
    change (inject_Z 2) with 2%Q. field. lra.
Qed.

(** The gradient layer: every row holds one colour, the colour of the
    row, at full opacity. *)
Lemma paint_gradient_ok N g (img : image rgba) :
  valid_size N -> geometry_of N g -> width img = N -> height img = N ->
  exists img', paint_gradient N g img = Ok img' /\
    width img' = N /\ height img' = N /\
    forall x y, 0 <= x < N -> 0 <= y < N ->
      exists r gr b, gradient_row g y = Ok (r, gr, b) /\ px img' x y = (r, gr, b, 255).
Proof.
  intros HN Hg Hw Hh. pose proof HN as [HN0 _].
  unfold paint_gradient.
  apply (paint_rows _ (fun x y p =>
    exists r gr b, gradient_row g y = Ok (r, gr, b) /\ p = (r, gr, b, 255))); [lia|done|done|].
  intros y im Hy Hwi Hhi.
  destruct (gradient_row_ok N g y HN Hg Hy) as ([[r gr] b] & Hrow).
  rewrite Hrow. cbn [mbind result_bind].
  destruct (paint_row (fun _ => Ok (r, gr, b, 255)) N y im) as (im' & Hrun & Hw' & Hh' & Hpx);
    [lia|lia|by eauto|].
  exists im'. split; [exact Hrun|]. split; [lia|]. split; [lia|].
  intros x' y'. specialize (Hpx x' y').
  destruct (Z.eqb_spec y' y) as [Hye|Hne]; [subst y'|]; cbn [andb] in *; [|exact Hpx].
  destruct ((0 <=? x') && (x' <? N)); [|exact Hpx].
  exists r, gr, b. split; [done|]. by injection Hpx.
Qed.

(** ** The renderer as a whole *)

Lemma global_in ns name : name ∈ ns -> global ns name = Ok tt.
Proof. intros H. unfold global. by rewrite decide_True. Qed.

Lemma global_notin ns name : name ∉ ns -> global ns name = Raise (NameError name).
Proof. intros H. unfold global. by rewrite decide_False. Qed.

Lemma global_Ok ns name u : global ns name = Ok u -> name ∈ ns.
Proof. unfold global. by destruct (decide (name ∈ ns)). Qed.

Lemma Image_new_ok {P} N (c : P) : 0 <= N -> Image_new N N c = Ok (blank N N c).
Proof. intros HN. unfold Image_new. by replace ((N <? 0) || (N <? 0)) with false by lia. Qed.

Lemma putalpha_ok im a :
  width a = width im -> height a = height im -> putalpha im a = Ok (with_alpha im a).
Proof. intros Hw Hh. unfold putalpha. by rewrite Hw, Hh, !Z.eqb_refl. Qed.

Section Renderer.
Context {pil : Pillow}.

Lemma alpha_composite_ok im1 im2 :
  width im1 = width im2 -> height im1 = height im2 ->
  alpha_composite im1 im2 = Ok (composite im1 im2).
Proof. intros Hw Hh. unfold alpha_composite. by rewrite Hw, Hh, !Z.eqb_refl. Qed.

Lemma rounded_mask_ok ns N R :
  "Image" ∈ ns -> "ImageDraw" ∈ ns -> 0 <= N ->
  rounded_mask ns N R = Ok (mask_of N R).
Proof.
  intros HI HD HN. unfold rounded_mask.
  by rewrite (global_in _ _ HI), (global_in _ _ HD), Image_new_ok.
Qed.

Lemma glyph_mask_ok ns N pts :
  "Image" ∈ ns -> "ImageDraw" ∈ ns -> 0 <= N ->
  glyph_mask ns N pts = Ok (glyph_mask_of N pts).
Proof.
  intros HI HD HN. unfold glyph_mask.
  by rewrite (global_in _ _ HI), (global_in _ _ HD), Image_new_ok.
Qed.

Lemma blur_radius_ok N :
  valid_size N -> exists radius, py_mul (PInt N) (PFloat c_0_04) = Ok radius.
Proof.
  intros [HN0 HN1]. unfold INT_MAX in HN1.
  destruct (py_mul_const N c_0_04 1 2 5) as (w & Hw & _);
    [change (2 ^ 31) with 2147483648; lia|lia|done|lia|apply c_0_04_between|].
  by eexists.
Qed.

(** With the three drawing modules bound, [create_icon] paints every layer
    without error and stops only at the read of [ImageChops]. *)
Lemma create_icon_run ns N :
  valid_size N -> "Image" ∈ ns -> "ImageDraw" ∈ ns -> "ImageFilter" ∈ ns ->
  exists R bg0 g pts grad0 radius,
    scaled N c_0_22 = Ok R /\
    paint_background N (blank N N (0, 0, 0, 0)) = Ok bg0 /\
    glyph_geometry N = Ok g /\ geometry_of N g /\ m_outer g = Ok pts /\
    paint_gradient N g (blank N N (0, 0, 0, 0)) = Ok grad0 /\
    py_mul (PInt N) (PFloat c_0_04) = Ok radius /\
    width bg0 = N /\ height bg0 = N /\ width grad0 = N /\ height grad0 = N /\
    create_icon ns N =
      (_ ← global ns "ImageChops"; Ok (icon_of N R bg0 grad0 pts radius)).
Proof.
  intros HN HI HD HF. pose proof HN as [HN0 HN1].
  destruct (scaled_radius N ltac:(lia)) as (R & HR & _).
  destruct (paint_background_ok N (blank N N (0, 0, 0, 0)) HN eq_refl eq_refl)
    as (bg0 & Hbg & Hbw & Hbh & _).
  destruct (glyph_geometry_ok N ltac:(lia)) as (g & Hg & Hgeo).
  destruct (m_outer_ok N g ltac:(lia) Hgeo) as (x3 & x5 & y9 & y10 & Hpts & _).
  destruct (paint_gradient_ok N g (blank N N (0, 0, 0, 0)) HN Hgeo eq_refl eq_refl)
    as (grad0 & Hgrad & Hgw & Hgh & _).
  destruct (blur_radius_ok N HN) as (radius & Hrad).
  eexists R, bg0, g, _, grad0, radius.
  split; [done|]. split; [done|]. split; [done|]. split; [done|]. split; [exact Hpts|].
  split; [done|]. split; [done|]. split; [done|]. split; [done|]. split; [done|].
  split; [done|].
  unfold create_icon.
  rewrite !(global_in _ _ HI), !(global_in _ _ HD), !(global_in _ _ HF).
  rewrite !Image_new_ok by lia. cbn [mbind result_bind].
  rewrite HR. cbn [mbind result_bind]. rewrite Hbg. cbn [mbind result_bind].
  rewrite (rounded_mask_ok ns N R HI HD) by lia. cbn [mbind result_bind].
  rewrite putalpha_ok by (cbn; lia). cbn [mbind result_bind].
  rewrite Hg. cbn [mbind result_bind]. rewrite Hpts. cbn [mbind result_bind].
  rewrite (glyph_mask_ok ns N _ HI HD) by lia. cbn [mbind result_bind].
  rewrite Hgrad. cbn [mbind result_bind].
  rewrite putalpha_ok by (cbn; lia). cbn [mbind result_bind].
  rewrite Hrad. cbn [mbind result_bind].
  rewrite alpha_composite_ok by (cbn; lia). cbn [mbind result_bind].
  rewrite alpha_composite_ok by (cbn; lia). cbn [mbind result_bind].
  destruct (global ns "ImageChops") as [[]|e]; cbn [mbind result_bind]; [|done].
  rewrite putalpha_ok by (cbn; lia). reflexivity.
Qed.

End Renderer.

(** ** The two masks *)

Lemma px_draw {P} (covers : Z -> Z -> bool) (fill c : P) N x y :
  0 <= x < N -> 0 <= y < N ->
  px (draw covers fill (blank N N c)) x y = if covers x y then fill else c.
Proof.
  intros Hx Hy. unfold draw, blank, in_image. cbn.
  replace ((0 <=? x) && (x <? N) && (0 <=? y) && (y <? N)) with true by lia.
  done.
Qed.

Lemma px_draw_outside {P} (covers : Z -> Z -> bool) (fill c : P) N x y :
  covers x y = false -> px (draw covers fill (blank N N c)) x y = c.
Proof.
  intros Hc. unfold draw, blank. cbn. rewrite Hc.
  by destruct (in_image _ x y).
Qed.

Lemma clamp_mid v lo hi : lo <= v <= hi -> clamp v lo hi = v.
Proof. unfold clamp. lia. Qed.



Lemma coord_in_le lo hi c : coord_in lo hi c -> (inject_Z lo <= num_Q c <= inject_Z hi)%Q.
Proof.
  destruct c as [z|f]; cbn [coord_in num_Q].
  - intros [? ?]. split; by rewrite <- Zle_Qle.
  - by intros [_ ?].
Qed.

Lemma box_fill_in_bbox : polygon_in_bbox reference_pillow.
Proof.
  intros pts x0 x1 y0 y1 x y Hall Hc. cbn in Hc. unfold box_fill in Hc.
  rewrite Forall_forall in Hall.
  apply andb_prop in Hc as [Hc H4]. apply andb_prop in Hc as [Hc H3].
  apply andb_prop in Hc as [H1 H2].
  apply existsb_exists in H1 as (p1 & Hp1 & H1), H2 as (p2 & Hp2 & H2),
    H3 as (p3 & Hp3 & H3), H4 as (p4 & Hp4 & H4).
  apply Qle_bool_iff in H1, H2, H3, H4.
  apply list_elem_of_In, Hall in Hp1, Hp2, Hp3, Hp4.
  destruct Hp1 as [Hp1 _], Hp2 as [Hp2 _], Hp3 as [_ Hp3], Hp4 as [_ Hp4].
  apply coord_in_le in Hp1, Hp2, Hp3, Hp4.
  rewrite !Zle_Qle. repeat split; lra.
Qed.


Section RoundedMask.
Context {pil : Pillow}.





End RoundedMask.

(** Every vertex of the outline lies in the box that the margins leave. *)
Lemma m_outer_in_box N g pts :
  valid_size N -> geometry_of N g -> m_outer g = Ok pts ->
  Forall (fun p : num * num =>
            coord_in (left g) (right g) p.1 /\ coord_in (top g) (bottom g) p.2) pts.
Proof.
  intros [HN0 HN1] Hg Hpts.
  destruct (m_outer_ok N g ltac:(lia) Hg) as (x3 & x5 & y9 & y10 & Heq & H3 & H5 & H9 & H10).
  rewrite Heq in Hpts. injection Hpts as <-.
  unfold geometry_of in Hg. unfold left, right, top, bottom, center_x in *.
  destruct Hg as (Hc & Hmb & ?). rewrite Hc, Hmb in *.
  pose proof (Z.div_mod N 2 ltac:(lia)). pose proof (Z.mod_pos_bound N 2 ltac:(lia)).
  repeat first [apply Forall_nil_2 | apply Forall_cons_2]; cbn [fst snd coord_in]; split;
    first [ lia | eapply within_coord_in; [eassumption|lia|lia] ].
Qed.

(** ** The run of the script *)

Lemma io_bind_run {A B} (m : io A) (k : A -> io B) w a w1 :
  m w = (Ok a, w1) -> (m ≫= k) w = k a w1.
Proof. intros H. unfold mbind, io_bind. by rewrite H. Qed.

Lemma io_bind_raise {A B} (m : io A) (k : A -> io B) w e w1 :
  m w = (Raise e, w1) -> (m ≫= k) w = (Raise e, w1).
Proof. intros H. unfold mbind, io_bind. by rewrite H. Qed.

Lemma same_env_refl w : same_env w w.
Proof. by unfold same_env. Qed.

Lemma same_env_trans w1 w2 w3 : same_env w1 w2 -> same_env w2 w3 -> same_env w1 w3.
Proof. unfold same_env. intros (?&?&?&?&?&?) (?&?&?&?&?&?). repeat split; congruence. Qed.

Lemma written_app tr1 tr2 : written (tr1 ++ tr2) = written tr1 ++ written tr2.
Proof. unfold written. apply omap_app. Qed.

Lemma wrote_refl w : wrote w w [].
Proof. unfold wrote. cbn. rewrite app_nil_r. auto using same_env_refl. Qed.

Lemma wrote_trans w1 w2 w3 l1 l2 :
  wrote w1 w2 l1 -> wrote w2 w3 l2 -> wrote w1 w3 (l1 ++ l2).
Proof.
  intros (Hf1 & Ht1 & He1) (Hf2 & Ht2 & He2). split; [|split].
  - by rewrite foldl_app, <- Hf1.
  - by rewrite Ht2, Ht1, fmap_app, app_assoc.
  - by eapply same_env_trans.
Qed.

Lemma wrote_writable w w' l p : wrote w w' l -> writable w' p = writable w p.
Proof. intros (_ & _ & (_ & _ & _ & H & _)). by rewrite H. Qed.

Lemma print_run line w : print line w = (Ok tt, emit (EvPrint line) w).
Proof. reflexivity. Qed.

Lemma wrote_print line w : wrote w (emit (EvPrint line) w) [].
Proof.
  unfold wrote, same_env. cbn. rewrite written_app. cbn. by rewrite !app_nil_r.
Qed.

Lemma write_file_run p f w :
  writable w p = true ->
  exists w', write_file p f w = (Ok tt, w') /\ wrote w w' [(p, f)].
Proof.
  intros Hw. unfold write_file. rewrite Hw. eexists. split; [done|].
  unfold wrote, same_env. cbn. by rewrite written_app.
Qed.

Lemma makedirs_run p w :
  writable w p = true ->
  exists w', makedirs p w = (Ok tt, w') /\ wrote w w' [].
Proof.
  intros Hw. unfold makedirs. rewrite Hw, orb_true_r. eexists. split; [done|].
  unfold wrote, same_env, with_dirs. cbn. rewrite written_app. cbn. by rewrite !app_nil_r.
Qed.

(** A loop whose every round writes one file writes the files of its
    list, in the order of the list. *)
Lemma for_each_io_wrote {A} (body : A -> io unit) (file_of : A -> path * file) l w :
  (forall a w, writable w (file_of a).1 = true ->
     exists w', body a w = (Ok tt, w') /\ wrote w w' [file_of a]) ->
  (forall a, a ∈ l -> writable w (file_of a).1 = true) ->
  exists w', for_each_io l body w = (Ok tt, w') /\ wrote w w' (file_of <$> l).
Proof.
  intros Hbody. revert w. induction l as [|a l IH]; intros w Hw.
  - exists w. split; [done|apply wrote_refl].
  - destruct (Hbody a w) as (w1 & H1 & Hw1); [apply Hw; left|].
    destruct (IH w1) as (w2 & H2 & Hw2).
    { intros b Hb. rewrite (wrote_writable _ _ _ _ Hw1). apply Hw. by right. }
    exists w2. split.
    + cbn [for_each_io]. by rewrite (io_bind_run _ _ _ _ _ H1).
    + apply (wrote_trans _ _ _ [file_of a] _ Hw1 Hw2).
Qed.

Lemma lookup_put_files_notin (l : list (path * file)) (m : gmap path file) (p : path) :
  p ∉ l.*1 -> foldl put_file m l !! p = m !! p.
Proof.
  revert m. induction l as [|[q f] l IH]; intros m Hp; [done|].
  cbn [foldl]. rewrite IH.
  - unfold put_file. cbn. apply lookup_insert_ne. intros ->. apply Hp. cbn. left.
  - intros H. apply Hp. cbn. by right.
Qed.

Lemma lookup_put_files (l : list (path * file)) (m : gmap path file) (p : path) (f : file) :
  NoDup l.*1 -> (p, f) ∈ l -> foldl put_file m l !! p = Some f.
Proof.
  revert m. induction l as [|[q h] l IH]; intros m Hnd Hin.
  - by apply elem_of_nil in Hin.
  - cbn in Hnd. apply NoDup_cons in Hnd as [Hq Hnd].
    apply elem_of_cons in Hin as [Heq|Hin].
    + injection Heq as -> ->. cbn [foldl]. rewrite lookup_put_files_notin by done.
      unfold put_file. cbn. apply lookup_insert_eq.
    + cbn [foldl]. by apply IH.
Qed.

Lemma output_paths_NoDup out : NoDup (output_paths out).
Proof.
  unfold output_paths. apply NoDup_fmap_2.
  - intros a b H. apply app_inv_head in H. by injection H.
  - apply (bool_decide_unpack _). vm_compute. exact I.
Qed.

Section Run.
Context {pil : Pillow}.

Lemma expected_paths icon out : (expected_files icon out).*1 = output_paths out.
Proof. reflexivity. Qed.

Lemma generate_all_sizes_run ns icon out w :
  "Image" ∈ ns ->
  (forall p, p ∈ out :: output_paths out -> writable w p = true) ->
  exists w', generate_all_sizes ns icon out w = (Ok tt, w') /\
    wrote w w' ((sized_file icon out <$> sizes) ++ [(out ++ ["AppIcon.png"], PNG icon)]).
Proof.
  intros HI Hw. unfold generate_all_sizes.
  destruct (makedirs_run out w) as (w1 & H1 & Hw1); [apply Hw; left|].
  rewrite (io_bind_run _ _ _ _ _ H1).
  match goal with |- context [for_each_io sizes ?b] => set (body := b) end.
  destruct (for_each_io_wrote body (sized_file icon out) sizes w1) as (w2 & H2 & Hw2).
  { intros [size filename] v Hv. subst body. cbn beta iota.
    unfold lift at 1. rewrite (global_in _ _ HI).
    unfold mbind at 1, io_bind at 1.
    destruct (write_file_run (out ++ [filename]) (PNG (resize icon (size, size))) v Hv)
      as (v1 & Hv1 & Hwv1).
    rewrite (io_bind_run _ _ _ _ _ Hv1). rewrite print_run.
    eexists. split; [done|].
    apply (wrote_trans _ _ _ [_] [] Hwv1), wrote_print. }
  { intros sf Hsf. rewrite (wrote_writable _ _ _ _ Hw1). apply Hw. right.
    unfold output_paths. rewrite fmap_app. apply elem_of_app. left.
    cbn [sized_file fst]. rewrite <- list_fmap_compose.
    by apply (list_elem_of_fmap_2 (fun sf' : Z * string => out ++ [sf'.2])). }
  rewrite (io_bind_run _ _ _ _ _ H2).
  destruct (write_file_run (out ++ ["AppIcon.png"]) (PNG icon) w2) as (w3 & H3 & Hw3).
  { rewrite (wrote_writable _ _ _ _ Hw2), (wrote_writable _ _ _ _ Hw1). apply Hw. right.
    unfold output_paths. rewrite fmap_app. apply elem_of_app. right. cbn. left. }
  rewrite (io_bind_run _ _ _ _ _ H3). rewrite print_run.
  eexists. split; [done|].
  apply (wrote_trans _ _ _ [] _ Hw1).
  apply (wrote_trans _ _ _ _ _ Hw2).
  rewrite <- (app_nil_r [_]).
  apply (wrote_trans _ _ _ _ [] Hw3), wrote_print.
Qed.

Lemma update_contents_json_run out w :
  writable w (out ++ ["Contents.json"]) = true ->
  exists w', update_contents_json out w = (Ok tt, w') /\
    wrote w w' [(out ++ ["Contents.json"], JSONText contents 2)].
Proof.
  intros Hw. unfold update_contents_json.
  destruct (write_file_run _ (JSONText contents 2) w Hw) as (w1 & H1 & Hw1).
  rewrite (io_bind_run _ _ _ _ _ H1), print_run.
  eexists. split; [done|].
  rewrite <- (app_nil_r [_]). apply (wrote_trans _ _ _ _ [] Hw1), wrote_print.
Qed.

(** [main] with an icon in hand. *)
Lemma main_run ns icon w :
  "Image" ∈ ns -> create_icon ns 1024 = Ok icon ->
  (forall p, p ∈ output_dir_of (script_file w) :: output_paths (output_dir_of (script_file w)) ->
     writable w p = true) ->
  exists w', main ns w = (Ok tt, w') /\
    wrote w w' (expected_files icon (output_dir_of (script_file w))).
Proof.
  intros HI Hicon Hw. unfold main.
  rewrite (io_bind_run _ _ _ _ _ (print_run _ w)).
  rewrite Hicon. unfold lift at 1. unfold mbind at 1, io_bind at 1.
  unfold mbind at 1, io_bind at 1. cbn [script_file emit].
  fold (output_dir_of (script_file w)). set (out := output_dir_of (script_file w)) in *.
  rewrite (io_bind_run _ _ _ _ _ (print_run _ _)).
  pose proof (wrote_trans _ _ _ _ _ (wrote_print "Generating MCP Control app icon..." w)
                (wrote_print ("Output directory: " +:+ show_path out) _)) as Hw0.
  cbn [app] in Hw0.
  match type of Hw0 with wrote _ ?v _ => set (w0 := v) in * end.
  destruct (generate_all_sizes_run ns icon out w0 HI) as (w1 & H1 & Hw1).
  { intros p Hp. rewrite (wrote_writable _ _ _ _ Hw0). by apply Hw. }
  rewrite (io_bind_run _ _ _ _ _ H1).
  destruct (update_contents_json_run out w1) as (w2 & H2 & Hw2).
  { rewrite (wrote_writable _ _ _ _ Hw1), (wrote_writable _ _ _ _ Hw0). apply Hw. right.
    unfold output_paths. rewrite fmap_app. apply elem_of_app. right. cbn. right. left. }
  rewrite (io_bind_run _ _ _ _ _ H2), print_run.
  eexists. split; [done|].
  apply (wrote_trans _ _ _ [] _ Hw0).
  change (expected_files icon out)
    with (((sized_file icon out <$> sizes) ++ [(out ++ ["AppIcon.png"], PNG icon)])
          ++ [(out ++ ["Contents.json"], JSONText contents 2)]).
  apply (wrote_trans _ _ _ _ _ Hw1).
  rewrite <- (app_nil_r [_]). apply (wrote_trans _ _ _ _ [] Hw2), wrote_print.
Qed.

End Run.

(** * Truncated products in exact arithmetic *)

(** [int(n * c)] for a literal [c] within [2^-45] of the fraction
    [num / den]: the float product truncates to the exact floor
    [n * num / den], unless [c] lies below the fraction and the exact
    product is an integer, when it may also be one less. *)
Lemma scaled_floor n c num den :
  0 <= n < 2 ^ 31 -> 0 < den <= 100 -> 0 < num <= den ->
  finite c -> normz c -> expo c <= 1 ->
  (inject_Z num - inject_Z den * (1 # 35184372088832) <= SF2Q c * inject_Z den)%Q ->
  (SF2Q c * inject_Z den <= inject_Z num + inject_Z den * (1 # 35184372088832))%Q ->
  exists z, scaled n c = Ok z /\
    n * num / den - 1 <= z <= n * num / den /\
    ((n * num) mod den <> 0 \/ (inject_Z num <= SF2Q c * inject_Z den)%Q ->
     z = n * num / den).
Proof.
  intros Hn Hden Hnum Hfc Hnc Hec Hql Hqu.
  assert (2 ^ 31 = 2147483648) as H31 by reflexivity.
  assert (2 ^ 53 = 9007199254740992) as H53 by reflexivity.
  set (m := n * num / den).
  pose proof (Z.div_mod (n * num) den ltac:(lia)) as Hdm. fold m in Hdm.
  pose proof (Z.mod_pos_bound (n * num) den ltac:(lia)) as Hmod.
  assert (0 <= m) as Hm0 by (apply Z.div_pos; nia).
  assert (m <= n) as Hmn by nia.
  destruct (as_float_int n ltac:(lia)) as (f & Hf & Hffin & Hfn & Hfv & Hfe).
  pose proof (fmul_fin f c Hffin Hfc (or_introl Hfn) ltac:(lia)) as Hr.
  set (X := inject_Z n) in *. set (D := inject_Z den) in *.
  set (Nn := inject_Z num) in *. set (q := SF2Q c) in *.
  assert (0 <= X)%Q as HX0 by (apply inject_Z_nonneg; lia).
  assert (X <= 2147483648)%Q as HX1.
  { change 2147483648%Q with (inject_Z 2147483648). unfold X. rewrite <- Zle_Qle. lia. }
  assert (1 <= D)%Q as HD0.
  { change 1%Q with (inject_Z 1). unfold D. rewrite <- Zle_Qle. lia. }
  assert (D <= 100)%Q as HD1.
  { change 100%Q with (inject_Z 100). unfold D. rewrite <- Zle_Qle. lia. }
  assert (inject_Z m * D + inject_Z ((n * num) mod den) == X * Nn)%Q as HmD.
  { unfold X, D, Nn. rewrite <- !inject_Z_mult, <- inject_Z_plus. apply inject_Z_injective.
    lia. }
  assert (0 <= inject_Z ((n * num) mod den))%Q as Hr0 by (apply inject_Z_nonneg; lia).
  assert (inject_Z ((n * num) mod den) <= D - 1)%Q as Hr1.
  { change 1%Q with (inject_Z 1). unfold D, Qminus. rewrite <- inject_Z_opp, <- inject_Z_plus.
    rewrite <- Zle_Qle. lia. }
  assert (0 <= (2147483648 - X) * D)%Q as HXD by (apply Qmult_le_0_compat; lra).
  assert (X * D * (1 # 35184372088832) <= 1 # 128)%Q as Heps by lra.
  (* the exact product, times the denominator *)
  assert (X * Nn - (1 # 128) <= X * q * D)%Q as Hvl by nra.
  assert (X * q * D <= X * Nn + (1 # 128))%Q as Hvu by nra.
  assert (0 <= X * q)%Q as Hv0.
  { apply Qmult_le_0_compat; [done|]. apply (Qmult_le_r _ _ D); [lra|].
    assert (1 <= Nn)%Q.
    { change 1%Q with (inject_Z 1). unfold Nn. rewrite <- Zle_Qle. lia. }
    lra. }
  (* bounds of the rounded product *)
  assert (X * q <= inject_Z (m + 1) - (1 # 256))%Q as Hub.
  { apply (Qmult_le_r _ _ D); [lra|]. rewrite inject_Z_plus. change (inject_Z 1) with 1%Q. nra. }
  assert (srepr (inject_Z (m + 1) - (1 # 256))) as Hsb.
  { apply (srepr_ext (dy ((m + 1) * 256 - 1) 8)).
    - assert (pow2 (- (8)) == 1 # 256)%Q as Hp8 by reflexivity.
      unfold dy, Z.sub. rewrite Hp8.
      rewrite !inject_Z_plus, inject_Z_mult, inject_Z_plus.
      change (inject_Z 256) with 256%Q. change (inject_Z 1) with 1%Q.
      change (inject_Z (- (1))) with (-1)%Q. ring.
    - apply dy_srepr; lia. }
  assert (forall lo, 0 <= lo <= m + 1 -> (inject_Z lo <= X * q)%Q ->
            exists z, scaled n c = Ok z /\ lo <= z <= m) as Hbetween.
  { intros lo Hlo Hlb.
    assert (within (inject_Z lo) (inject_Z (m + 1) - (1 # 256)) (fmul f c)) as [Hfin [Hwl Hwu]].
    { apply (rounds_within _ _ _ _ Hr); [apply srepr_Z; lia|exact Hsb|].
      rewrite Hfv. fold X q. split; [exact Hlb|exact Hub]. }
    destruct (to_Z_trunc (fmul f c) Hfin) as (z & Hz & Hpos & _).
    assert (0 <= inject_Z lo)%Q as Hlo0 by (apply inject_Z_nonneg; lia).
    destruct Hpos as [Hzl Hzu]; [lra|].
    exists z. split.
    - unfold scaled, py_mul. rewrite Hf. cbn [as_float mbind result_bind py_int]. by rewrite Hz.
    - assert (inject_Z lo < inject_Z (z + 1))%Q as H1 by lra.
      assert (inject_Z z < inject_Z (m + 1))%Q as H2 by lra.
      rewrite <- Zlt_Qlt in H1, H2. lia. }
  destruct (Z.eq_dec m 0) as [Hm|Hm].
  - destruct (Hbetween 0 ltac:(lia) Hv0) as (z & Hz & Hzb).
    exists z. split; [exact Hz|]. split; [lia|]. intros _. lia.
  - assert (inject_Z (m - 1) <= X * q)%Q as Hlow.
    { apply (Qmult_le_r _ _ D); [lra|]. unfold Z.sub. rewrite inject_Z_plus.
      change (inject_Z (- (1))) with (-1)%Q. lra. }
    destruct (Hbetween (m - 1) ltac:(lia) Hlow) as (z & Hz & Hzb).
    exists z. split; [exact Hz|]. split; [lia|]. intros Hexact.
    assert (inject_Z m <= X * q)%Q as Hlow'.
    { apply (Qmult_le_r _ _ D); [lra|]. destruct Hexact as [Hne|Hge].
      - assert (1 <= inject_Z ((n * num) mod den))%Q.
        { change 1%Q with (inject_Z 1). rewrite <- Zle_Qle. lia. }
        lra.
      - assert (0 <= X * (q * D - Nn))%Q by (apply Qmult_le_0_compat; lra). lra. }
    destruct (Hbetween m ltac:(lia) Hlow') as (z' & Hz' & Hzb').
    rewrite Hz in Hz'. injection Hz' as <-. lia.
Qed.

Lemma c_0_22_fraction :
  (inject_Z 22 <= SF2Q c_0_22 * inject_Z 100)%Q /\
  (SF2Q c_0_22 * inject_Z 100 <= inject_Z 22 + inject_Z 100 * (1 # 35184372088832))%Q.
Proof. split; unfold Qle; vm_compute; discriminate. Qed.

Lemma c_0_28_fraction :
  (inject_Z 28 <= SF2Q c_0_28 * inject_Z 100)%Q /\
  (SF2Q c_0_28 * inject_Z 100 <= inject_Z 28 + inject_Z 100 * (1 # 35184372088832))%Q.
Proof. split; unfold Qle; vm_compute; discriminate. Qed.

Lemma c_0_125_fraction :
  (inject_Z 1 <= SF2Q c_0_125 * inject_Z 8)%Q /\
  (SF2Q c_0_125 * inject_Z 8 <= inject_Z 1 + inject_Z 8 * (1 # 35184372088832))%Q.
Proof. split; unfold Qle; vm_compute; discriminate. Qed.

Lemma c_0_18_fraction :
  (inject_Z 18 - inject_Z 100 * (1 # 35184372088832) <= SF2Q c_0_18 * inject_Z 100)%Q /\
  (SF2Q c_0_18 * inject_Z 100 <= inject_Z 18 + inject_Z 100 * (1 # 35184372088832))%Q.
Proof. split; unfold Qle; vm_compute; discriminate. Qed.

(** A literal above its fraction. *)
Lemma scaled_exact n c a b j num den :
  0 <= n < 2 ^ 31 -> 0 < den <= 100 -> 0 < num <= den ->
  const_between a b j c ->
  (inject_Z num <= SF2Q c * inject_Z den)%Q ->
  (SF2Q c * inject_Z den <= inject_Z num + inject_Z den * (1 # 35184372088832))%Q ->
  scaled n c = Ok (n * num / den).
Proof.
  intros Hn Hden Hnum (Hfc & Hnc & Hec & _) Hql Hqu.
  destruct (scaled_floor n c num den Hn Hden Hnum Hfc Hnc Hec) as (z & Hz & _ & Heq);
    [|exact Hqu|].
  - assert (0 <= inject_Z den * (1 # 35184372088832))%Q.
    { apply Qmult_le_0_compat; [apply inject_Z_nonneg; lia|done]. }
    lra.
  - rewrite Hz. f_equal. apply Heq. by right.
Qed.

(** * The gradient against exact interpolation *)

(** ** Rounding errors *)

Lemma half_val52 : (inject_Z 4503599627370496 * pow2 (-53) == 1 # 2)%Q.
Proof. vm_compute. reflexivity. Qed.

Lemma half_val53 : (inject_Z 9007199254740992 * pow2 (-54) == 1 # 2)%Q.
Proof. vm_compute. reflexivity. Qed.

(** A positive normal float compares below [0.5] exactly when it is
    below one half. *)
Lemma flt_half m e :
  Z.pos (digits2_pos m) = 53 ->
  if flt (S754_finite false m e) c_0_5
  then (inject_Z (Z.pos m) * pow2 e < 1 # 2)%Q
  else (1 # 2 <= inject_Z (Z.pos m) * pow2 e)%Q.
Proof.
  intros Hd. pose proof (digits2_bounds m) as [Hl Hu]. rewrite Hd in Hl, Hu.
  change (2 ^ (53 - 1)) with 4503599627370496 in Hl.
  change (2 ^ 53) with 9007199254740992 in Hu.
  pose proof (pow2_pos e) as Hpe.
  unfold flt, SFltb, c_0_5. cbn [SFcompare].
  destruct (Z.compare_spec e (-53)) as [->|Hlt|Hgt].
  - rewrite Pos.compare_cont_spec.
    destruct (Pos.compare_spec m 4503599627370496) as [->|Hm|Hm];
      cbn [Pos.switch_Eq]; cbv iota.
    + rewrite half_val52. apply Qle_refl.
    + rewrite <- half_val52. apply pow2_lt_Z. exact Hm.
    + rewrite <- half_val52. apply pow2_le_Z. lia.
  - cbv iota. rewrite <- half_val53.
    apply Qle_lt_trans with (inject_Z (Z.pos m) * pow2 (-54))%Q.
    + pose proof (pow2_mono e (-54) ltac:(lia)).
      pose proof (inject_Z_nonneg (Z.pos m) ltac:(lia)).
      rewrite !(Qmult_comm (inject_Z (Z.pos m))). by apply Qmult_le_compat_r.
    + apply pow2_lt_Z. exact Hu.
  - cbv iota. rewrite <- half_val52.
    apply Qle_trans with (inject_Z 4503599627370496 * pow2 e)%Q.
    + pose proof (pow2_mono (-53) e ltac:(lia)).
      rewrite !(Qmult_comm (inject_Z 4503599627370496)).
      apply Qmult_le_compat_r; [done|]. by apply inject_Z_nonneg.
    + apply pow2_le_Z. exact Hl.
Qed.

(** Doubling a float between 0 and one half. *)
Lemma py_mul_2_half d :
  within 0 (1 # 2) d ->
  exists t2, py_mul (PFloat d) (PInt 2) = Ok (PFloat t2) /\ within (inject_Z 0) (inject_Z 1) t2.
Proof.
  intros Hd. pose proof Hd as [Hfin [Hl Hu]].
  assert (2 ^ 53 = 9007199254740992) as H53 by reflexivity.
  destruct (as_float_int 2 ltac:(lia)) as (f2 & Hf2 & Hffin & Hfn & Hfv & Hfe).
  unfold py_mul. cbn [as_float mbind result_bind]. cbn [as_float] in Hf2. rewrite Hf2.
  cbn [mbind result_bind]. eexists. split; [reflexivity|].
  assert (expo d <= 0) as Hed.
  { apply expo_le; [lia|]. split; [done|]. change (inject_Z (2 ^ 0)) with 1%Q. split; lra. }
  apply (rounds_within _ _ _ _ (fmul_fin d f2 Hfin Hffin (or_intror Hfn) ltac:(lia))).
  - apply srepr_Z. lia.
  - apply srepr_Z. lia.
  - rewrite Hfv. change (inject_Z 2) with 2%Q. change (inject_Z 0) with 0%Q.
    change (inject_Z 1) with 1%Q. split; lra.
Qed.


Lemma pow2_inv g : (pow2 g * pow2 (- g) == 1)%Q.
Proof. rewrite <- pow2_add. by replace (g + - g) with 0 by lia. Qed.

(** A rounded value lies within one step of the grid below [2 ^ 53] steps
    that holds the exact one. *)
Lemma rounds_near v r g :
  rounds v r -> -1074 <= g ->
  (- pow2 (g + 52) <= v <= pow2 (g + 52))%Q ->
  (v - pow2 g <= SF2Q r <= v + pow2 g)%Q.
Proof.
  intros [Hfin H] Hg [Hl Hu].
  pose proof (pow2_pos g) as HP. pose proof (pow2_pos (- g)) as HPi.
  pose proof (pow2_inv g) as Hinv.
  assert (pow2 (g + 52) == pow2 g * inject_Z (2 ^ 52))%Q as H52.
  { rewrite pow2_add. by rewrite (pow2_Z 52). }
  rewrite H52 in Hl, Hu.
  set (u := (v * pow2 (- g))%Q).
  assert (v == u * pow2 g)%Q as Hv.
  { unfold u. rewrite <- Qmult_assoc, (Qmult_comm (pow2 (- g))), Hinv. ring. }
  assert (- inject_Z (2 ^ 52) <= u <= inject_Z (2 ^ 52))%Q as [Hul Huu].
  { assert (u == v * pow2 (- g))%Q as Hu' by reflexivity.
    assert (inject_Z (2 ^ 52) == pow2 g * inject_Z (2 ^ 52) * pow2 (- g))%Q as Hc.
    { rewrite (Qmult_comm (pow2 g)), <- Qmult_assoc, Hinv. ring. }
    split.
    - assert (- inject_Z (2 ^ 52) == (- (pow2 g * inject_Z (2 ^ 52))) * pow2 (- g))%Q as Hc'.
      { rewrite Hc at 1. ring. }
      rewrite Hc', Hu'. apply Qmult_le_compat_r; [exact Hl|]. by apply Qlt_le_weak.
    - rewrite Hc, Hu'. apply Qmult_le_compat_r; [exact Hu|]. by apply Qlt_le_weak. }
  set (j := Qfloor u).
  pose proof (Qfloor_le u) as Hj1. pose proof (Qlt_floor u) as Hj2. fold j in Hj1, Hj2.
  assert (- 2 ^ 52 <= j <= 2 ^ 52) as Hjb.
  { split.
    - assert (inject_Z (- 2 ^ 52) < inject_Z (j + 1))%Q as Hlt.
      { rewrite inject_Z_opp. lra. }
      rewrite <- Zlt_Qlt in Hlt. lia.
    - rewrite Zle_Qle. lra. }
  assert (2 ^ 52 = 4503599627370496) as E52 by reflexivity.
  assert (2 ^ 53 = 9007199254740992) as E53 by reflexivity.
  assert (srepr (inject_Z j * pow2 g)) as HK1 by (apply srepr_scaled; lia).
  assert (srepr (inject_Z (j + 1) * pow2 g)) as HK2 by (apply srepr_scaled; lia).
  assert (inject_Z j * pow2 g <= v)%Q as Hlow.
  { rewrite Hv. apply Qmult_le_compat_r; [exact Hj1|]. by apply Qlt_le_weak. }
  assert (v <= inject_Z (j + 1) * pow2 g)%Q as Hhigh.
  { rewrite Hv. apply Qmult_le_compat_r; [by apply Qlt_le_weak|]. by apply Qlt_le_weak. }
  destruct (H _ HK1) as [_ Hr1]. destruct (H _ HK2) as [Hr2 _].
  specialize (Hr1 Hlow). specialize (Hr2 Hhigh).
  rewrite inject_Z_plus in Hhigh, Hr2. change (inject_Z 1) with 1%Q in *.
  split; lra.
Qed.


Lemma pow2_m39 : (pow2 (-39) == 1 # 549755813888)%Q.
Proof. reflexivity. Qed.

Lemma pow2_m43 : (pow2 (-43) == 1 # 8796093022208)%Q.
Proof. reflexivity. Qed.

Lemma pow2_m44 : (pow2 (-44) == 1 # 17592186044416)%Q.
Proof. reflexivity. Qed.

Lemma pow2_m49 : (pow2 (-49) == 1 # 562949953421312)%Q.
Proof. reflexivity. Qed.

Lemma pow2_m52 : (pow2 (-52) == 1 # 4503599627370496)%Q.
Proof. reflexivity. Qed.

(** [int(a + (b - a) * t)] at a float [t] next to the exact [s]. *)
Lemma lerp_near a b t s :
  0 <= b <= a -> a <= 255 -> within 0 1 t ->
  (s - pow2 (-49) <= SF2Q t <= s + pow2 (-49))%Q ->
  exists z, lerp a b (PFloat t) = Ok z /\ near_cut (spec_mix a b s) z.
Proof.
  intros Hb Ha Ht [Hs1 Hs2]. pose proof Ht as [Hfin [Hl Hu]].
  assert (2 ^ 53 = 9007199254740992) as H53 by reflexivity.
  destruct (as_float_int (b - a) ltac:(lia)) as (f & Hf & Hffin & Hfn & Hfv & Hfe).
  assert (expo t <= 0) as Het.
  { apply expo_le; [lia|]. split; [done|]. change (inject_Z (2 ^ 0)) with 1%Q. split; lra. }
  pose proof (fmul_fin f t Hffin Hfin (or_introl Hfn) ltac:(lia)) as Hr.
  assert (- 255 <= inject_Z (b - a) <= 0)%Q as [Hc1 Hc2].
  { change (-255)%Q with (inject_Z (-255)). change 0%Q with (inject_Z 0).
    rewrite <- !Zle_Qle. lia. }
  set (c := inject_Z (b - a)) in *.
  assert (c <= c * SF2Q t <= 0)%Q as [Hp1 Hp2].
  { split.
    - assert (0 <= (- c) * (1 - SF2Q t))%Q by (apply Qmult_le_0_compat; lra). lra.
    - assert (0 <= (- c) * SF2Q t)%Q by (apply Qmult_le_0_compat; lra). lra. }
  assert (c * s - 255 * pow2 (-49) <= c * SF2Q t <= c * s + 255 * pow2 (-49))%Q as [Hq1 Hq2].
  { split.
    - assert (0 <= (- c) * (s + pow2 (-49) - SF2Q t))%Q by (apply Qmult_le_0_compat; lra).
      assert (0 <= (c + 255) * pow2 (-49))%Q
        by (apply Qmult_le_0_compat; [lra|apply Qlt_le_weak, pow2_pos]).
      lra.
    - assert (0 <= (- c) * (SF2Q t - (s - pow2 (-49))))%Q by (apply Qmult_le_0_compat; lra).
      assert (0 <= (c + 255) * pow2 (-49))%Q
        by (apply Qmult_le_0_compat; [lra|apply Qlt_le_weak, pow2_pos]).
      lra. }
  assert (Hd : within (inject_Z (-255)) (inject_Z 0) (fmul f t)).
  { apply (rounds_within _ _ _ _ Hr); [apply srepr_Z; lia|apply srepr_Z; lia|].
    rewrite Hfv. change (inject_Z (-255)) with (-255)%Q. change (inject_Z 0) with 0%Q.
    split; lra. }
  pose proof (rounds_near _ _ (-44) Hr ltac:(lia)) as Hn1.
  rewrite Hfv in Hn1. change (pow2 (-44 + 52)) with 256%Q in Hn1.
  specialize (Hn1 ltac:(split; lra)). destruct Hn1 as [Hn1 Hn1'].
  assert (expo (fmul f t) <= 8) as Hed.
  { apply expo_le; [lia|]. apply (within_weaken _ _ _ _ _ Hd).
    - change (2 ^ 8) with 256. rewrite <- inject_Z_opp, <- Zle_Qle. lia.
    - rewrite <- Zle_Qle. lia. }
  unfold lerp. unfold py_mul at 1. rewrite Hf. cbn [mbind result_bind as_float].
  destruct (py_add_int_float a (fmul f t) ltac:(lia) (proj1 Hd) ltac:(lia)) as (v & Hv & Hrv).
  rewrite Hv. cbn [mbind result_bind].
  destruct Hd as [_ [Hdl Hdu]].
  change (inject_Z (-255)) with (-255)%Q in Hdl. change (inject_Z 0) with 0%Q in Hdu.
  assert (0 <= inject_Z a <= 255)%Q as [Ha1 Ha2].
  { change 255%Q with (inject_Z 255). change 0%Q with (inject_Z 0).
    rewrite <- !Zle_Qle. lia. }
  assert (inject_Z b == inject_Z a + c)%Q as Hbq.
  { unfold c. rewrite <- inject_Z_plus. by replace (a + (b - a)) with b by lia. }
  assert (0 <= inject_Z b)%Q as Hb0.
  { change 0%Q with (inject_Z 0). rewrite <- Zle_Qle. lia. }
  pose proof (rounds_near _ _ (-43) Hrv ltac:(lia)) as Hn2.
  change (pow2 (-43 + 52)) with 512%Q in Hn2.
  specialize (Hn2 ltac:(split; lra)). destruct Hn2 as [Hn2 Hn2'].
  assert (Hd' : within c 0 (fmul f t)).
  { apply (rounds_within _ _ _ _ Hr); [apply srepr_Z; lia|apply srepr_Z; lia|].
    rewrite Hfv. fold c. change (inject_Z 0) with 0%Q. split; lra. }
  destruct Hd' as [_ [Hdl' _]].
  assert (0 <= SF2Q v)%Q as Hv0.
  { assert (within (inject_Z b) (inject_Z a) v) as [_ [Hvl _]]; [|lra].
    apply (rounds_within _ _ _ _ Hrv); [apply srepr_Z; lia|apply srepr_Z; lia|].
    split; lra. }
  destruct (to_Z_trunc v (proj1 Hrv)) as (z & Hz & Hzpos & _).
  destruct (Hzpos Hv0) as [Hz1 Hz2].
  exists z. split.
  { unfold py_int. by rewrite Hz. }
  rewrite inject_Z_plus in Hz2. change (inject_Z 1) with 1%Q in Hz2.
  unfold near_cut, spec_mix. fold c.
  pose proof pow2_m39. pose proof pow2_m43. pose proof pow2_m44. pose proof pow2_m49.
  split; lra.
Qed.

Lemma lerp3_near a b t s :
  0 <= b.1.1 <= a.1.1 -> 0 <= b.1.2 <= a.1.2 -> 0 <= b.2 <= a.2 ->
  a.1.1 <= 255 -> a.1.2 <= 255 -> a.2 <= 255 -> within 0 1 t ->
  (s - pow2 (-49) <= SF2Q t <= s + pow2 (-49))%Q ->
  exists r g bl, lerp3 a b (PFloat t) = Ok (r, g, bl) /\
    near_cut (spec_mix3 a b s).1.1 r /\ near_cut (spec_mix3 a b s).1.2 g /\
    near_cut (spec_mix3 a b s).2 bl.
Proof.
  intros H1 H2 H3 H4 H5 H6 Ht Hs.
  destruct (lerp_near a.1.1 b.1.1 t s H1 H4 Ht Hs) as (r & Hr & Hrb).
  destruct (lerp_near a.1.2 b.1.2 t s H2 H5 Ht Hs) as (g & Hg & Hgb).
  destruct (lerp_near a.2 b.2 t s H3 H6 Ht Hs) as (bl & Hbl & Hblb).
  exists r, g, bl. unfold lerp3. rewrite Hr. cbn [mbind result_bind].
  rewrite Hg. cbn [mbind result_bind]. rewrite Hbl. done.
Qed.

(** Doubling a float between 0 and one half: the result next to twice
    the float. *)
Lemma py_mul_2_near d :
  within 0 (1 # 2) d ->
  exists t2, py_mul (PFloat d) (PInt 2) = Ok (PFloat t2) /\ within 0 1 t2 /\
    (2 * SF2Q d - pow2 (-52) <= SF2Q t2 <= 2 * SF2Q d + pow2 (-52))%Q.
Proof.
  intros Hd. pose proof Hd as [Hfin [Hl Hu]].
  assert (2 ^ 53 = 9007199254740992) as H53 by reflexivity.
  destruct (as_float_int 2 ltac:(lia)) as (f2 & Hf2 & Hffin & Hfn & Hfv & Hfe).
  unfold py_mul. cbn [as_float mbind result_bind]. cbn [as_float] in Hf2. rewrite Hf2.
  cbn [mbind result_bind]. eexists. split; [reflexivity|].
  assert (expo d <= 0) as Hed.
  { apply expo_le; [lia|]. split; [done|]. change (inject_Z (2 ^ 0)) with 1%Q. split; lra. }
  pose proof (fmul_fin d f2 Hfin Hffin (or_intror Hfn) ltac:(lia)) as Hr.
  change (inject_Z 2) with 2%Q in Hfv.
  split.
  - apply (rounds_within _ _ _ _ Hr); [left; apply repr_0|apply (srepr_Z 1); lia|].
    rewrite Hfv. split; lra.
  - pose proof (rounds_near _ _ (-52) Hr ltac:(lia)) as Hn.
    change (pow2 (-52 + 52)) with 1%Q in Hn. rewrite Hfv in Hn.
    specialize (Hn ltac:(split; lra)). split; lra.
Qed.

(** ** The colour of a position *)

(** The colour at a float position next to the exact position [v], on the
    same side of one half: each channel next to the exact interpolation
    cut to an integer. *)
Lemma gradient_color_near m e v :
  Z.pos (digits2_pos m) = 53 -> within 0 1 (S754_finite false m e) ->
  (v - pow2 (-52) <= SF2Q (S754_finite false m e) <= v + pow2 (-52))%Q ->
  ((SF2Q (S754_finite false m e) < 1 # 2)%Q <-> (v < 1 # 2)%Q) ->
  exists r g b, gradient_color (PFloat (S754_finite false m e)) = Ok (r, g, b) /\
    near_cut (spec_gradient v).1.1 r /\ near_cut (spec_gradient v).1.2 g /\
    near_cut (spec_gradient v).2 b.
Proof.
  intros Hd Ht [Hv1 Hv2] Hside.
  pose proof Ht as [Hfin [Hl Hu]]. cbn [SF2Q cond_Zopp] in Hl, Hu, Hv1, Hv2, Hside.
  pose proof (flt_half m e Hd) as Hcmp.
  pose proof pow2_m49 as E49. pose proof pow2_m52 as E52.
  unfold gradient_color. cbn [py_lt].
  destruct (flt (S754_finite false m e) c_0_5).
  - assert (v < 1 # 2)%Q as Hlt by (by apply Hside).
    destruct (py_mul_2_near (S754_finite false m e)) as (t2 & Ht2 & Hw2 & Hn1 & Hn2).
    { split; [done|]. cbn [SF2Q cond_Zopp]. split; lra. }
    cbn [SF2Q cond_Zopp] in Hn1, Hn2.
    rewrite Ht2. cbn [mbind result_bind].
    destruct (lerp3_near grad_top grad_mid t2 (v * 2)) as (r & g & b & Hc & Hr & Hg & Hb);
      try (cbn; lia); [exact Hw2|split; lra|].
    rewrite Hc. exists r, g, b. split; [reflexivity|].
    unfold spec_gradient. destruct (Qlt_le_dec v (1 # 2)) as [_|Hge]; [done|lra].
  - assert (1 # 2 <= v)%Q as Hge.
    { destruct (Qlt_le_dec v (1 # 2)) as [Hlt|Hge]; [|exact Hge].
      apply Hside in Hlt. lra. }
    cbn [py_sub as_float mbind result_bind].
    assert (Hc5 : finite c_0_5 /\ (SF2Q c_0_5 == 1 # 2)%Q /\ expo c_0_5 <= 0).
    { split; [by vm_compute|]. split; [by vm_compute|]. vm_compute. discriminate. }
    destruct Hc5 as (Hcf & Hcv & Hce).
    assert (expo (S754_finite false m e) <= 0) as Het.
    { apply expo_le; [lia|]. split; [done|]. change (inject_Z (2 ^ 0)) with 1%Q.
      cbn [SF2Q cond_Zopp]. split; lra. }
    pose proof (fsub_fin (S754_finite false m e) c_0_5 Hfin Hcf ltac:(lia) ltac:(lia)) as Hrs.
    apply (rounds_ext _ (inject_Z (Z.pos m) * pow2 e - (1 # 2))) in Hrs;
      [|cbn [SF2Q cond_Zopp]; rewrite Hcv; reflexivity].
    assert (Hdw : within 0 (1 # 2) (fsub (S754_finite false m e) c_0_5)).
    { apply (rounds_within _ _ _ _ Hrs).
      - left. apply repr_0.
      - apply (srepr_ext (dy 1 1)); [reflexivity|]. apply dy_srepr; [|lia].
        change (2 ^ 53) with 9007199254740992. lia.
      - split; lra. }
    pose proof (rounds_near _ _ (-52) Hrs ltac:(lia)) as Hn0.
    change (pow2 (-52 + 52)) with 1%Q in Hn0.
    specialize (Hn0 ltac:(split; lra)). destruct Hn0 as [Hn0 Hn0'].
    destruct (py_mul_2_near _ Hdw) as (t2 & Ht2 & Hw2 & Hn1 & Hn2).
    rewrite Ht2. cbn [mbind result_bind].
    destruct (lerp3_near grad_mid grad_bottom t2 ((v - (1 # 2)) * 2))
      as (r & g & b & Hc & Hr & Hg & Hb); try (cbn; lia); [exact Hw2|split; lra|].
    rewrite Hc. exists r, g, b. split; [reflexivity|].
    unfold spec_gradient. destruct (Qlt_le_dec v (1 # 2)) as [Hlt|_]; [lra|done].
Qed.

(** Next to an exact value with a small denominator, cut to it. *)
Lemma near_cut_exact e z E D :
  0 < D <= 2 ^ 31 -> (e * inject_Z D == inject_Z E)%Q -> near_cut e z -> cut_to e z.
Proof.
  intros [HD0 HD1] HE [Hz1 Hz2]. change (2 ^ 31) with 2147483648 in HD1.
  pose proof pow2_m39 as E39.
  assert (0 < inject_Z D <= 2147483648)%Q as [HDq0 HDq1].
  { change 0%Q with (inject_Z 0). change 2147483648%Q with (inject_Z 2147483648).
    rewrite <- Zlt_Qlt, <- Zle_Qle. lia. }
  assert (inject_Z D * pow2 (-39) < 1)%Q as Hsmall.
  { rewrite E39.
    assert (0 <= (2147483648 - inject_Z D) * (1 # 549755813888))%Q
      by (apply Qmult_le_0_compat; lra).
    lra. }
  assert (z * D <= E) as Hle.
  { assert (inject_Z (z * D) < inject_Z (E + 1))%Q as Hlt.
    { rewrite inject_Z_mult, inject_Z_plus, <- HE. change (inject_Z 1) with 1%Q.
      assert (0 <= (e + pow2 (-39) - inject_Z z) * inject_Z D)%Q
        by (apply Qmult_le_0_compat; lra).
      lra. }
    rewrite <- Zlt_Qlt in Hlt. lia. }
  assert (E <= (z + 1) * D) as Hge.
  { assert (inject_Z E < inject_Z ((z + 1) * D + 1))%Q as Hlt.
    { rewrite inject_Z_plus, inject_Z_mult, inject_Z_plus, <- HE. change (inject_Z 1) with 1%Q.
      assert (0 <= (inject_Z z + 1 - (e - pow2 (-39))) * inject_Z D)%Q
        by (apply Qmult_le_0_compat; lra).
      lra. }
    rewrite <- Zlt_Qlt in Hlt. lia. }
  rewrite Zle_Qle in Hle, Hge. rewrite inject_Z_mult in Hle, Hge.
  rewrite inject_Z_plus in Hge. change (inject_Z 1) with 1%Q in Hge.
  rewrite <- HE in Hle, Hge. unfold cut_to. split.
  - apply Qmult_le_r with (inject_Z D); [exact HDq0|exact Hle].
  - apply Qmult_le_r with (inject_Z D); [exact HDq0|exact Hge].
Qed.

(** ** The colour of a row *)

Lemma spec_position_above g y :
  y < top g -> top g < bottom g -> spec_position g y = 0%Q.
Proof.
  intros Hy Hg. unfold spec_position, spec_clamp.
  destruct (Qlt_le_dec _ 0) as [_|Hge]; [reflexivity|]. exfalso.
  assert (0 < inject_Z (bottom g - top g))%Q as HD.
  { change 0%Q with (inject_Z 0). rewrite <- Zlt_Qlt. lia. }
  assert (inject_Z (y - top g) < 0)%Q as Hn.
  { change 0%Q with (inject_Z 0). rewrite <- Zlt_Qlt. lia. }
  apply (Qmult_le_compat_r _ _ (inject_Z (bottom g - top g))) in Hge; [|lra].
  rewrite Qmult_0_l in Hge. unfold Qdiv in Hge.
  rewrite <- Qmult_assoc, (Qmult_comm (/ _)), Qmult_inv_r in Hge; lra.
Qed.

Lemma spec_position_below g y :
  bottom g < y -> top g < bottom g -> spec_position g y = 1%Q.
Proof.
  intros Hy Hg. unfold spec_position, spec_clamp.
  assert (0 < inject_Z (bottom g - top g))%Q as HD.
  { change 0%Q with (inject_Z 0). rewrite <- Zlt_Qlt. lia. }
  assert (inject_Z (bottom g - top g) < inject_Z (y - top g))%Q as Hn.
  { rewrite <- Zlt_Qlt. lia. }
  assert (1 < inject_Z (y - top g) / inject_Z (bottom g - top g))%Q as Hgt.
  { apply Qlt_shift_div_l; [exact HD|]. lra. }
  destruct (Qlt_le_dec _ 0) as [Hlt|_]; [lra|].
  destruct (Qlt_le_dec 1 _) as [_|Hle]; [reflexivity|lra].
Qed.

Lemma spec_position_inside g y :
  top g <= y <= bottom g -> top g < bottom g ->
  spec_position g y = (inject_Z (y - top g) / inject_Z (bottom g - top g))%Q /\
  (0 <= inject_Z (y - top g) / inject_Z (bottom g - top g) <= 1)%Q.
Proof.
  intros Hy Hg. unfold spec_position, spec_clamp.
  assert (0 < inject_Z (bottom g - top g))%Q as HD.
  { change 0%Q with (inject_Z 0). rewrite <- Zlt_Qlt. lia. }
  assert (0 <= inject_Z (y - top g))%Q as Hn0 by (apply inject_Z_nonneg; lia).
  assert (inject_Z (y - top g) <= inject_Z (bottom g - top g))%Q as Hn1
    by (rewrite <- Zle_Qle; lia).
  assert (0 <= inject_Z (y - top g) / inject_Z (bottom g - top g) <= 1)%Q as [H0 H1].
  { split.
    - apply Qle_shift_div_l; [exact HD|]. lra.
    - apply Qle_shift_div_r; [exact HD|]. lra. }
  split; [|split; assumption].
  destruct (Qlt_le_dec _ 0) as [Hlt|_]; [lra|].
  destruct (Qlt_le_dec 1 _) as [Hlt|_]; [lra|reflexivity].
Qed.

(** The exact interpolation at a position of denominator [D] has
    denominator [D]. *)
Lemma spec_mix_exact a b v s n D k :
  (v * inject_Z D == inject_Z n)%Q -> (s == v * 2 - inject_Z k)%Q ->
  (spec_mix a b s * inject_Z D == inject_Z (a * D + (b - a) * (2 * n - k * D)))%Q.
Proof.
  intros Hv Hs. unfold spec_mix.
  rewrite Hs. unfold Z.sub.
  repeat first [rewrite inject_Z_plus | rewrite inject_Z_mult | rewrite inject_Z_opp].
  rewrite <- Hv. change (inject_Z 2) with 2%Q. ring.
Qed.

(** Every row holds the exact interpolation of the specification, each
    channel cut to an integer. *)
Lemma gradient_row_cut N g y :
  valid_size N -> geometry_of N g ->
  exists r gr b, gradient_row g y = Ok (r, gr, b) /\
    cut_to (spec_gradient_row g y).1.1 r /\ cut_to (spec_gradient_row g y).1.2 gr /\
    cut_to (spec_gradient_row g y).2 b.
Proof.
  intros HN Hg. destruct (geometry_extent N g HN Hg) as (Ht0 & Htb & HbN & Hh).
  assert (2 ^ 31 = 2147483648) as H31 by reflexivity.
  assert (forall c : Z, cut_to (inject_Z c) c) as Hself.
  { intros c. unfold cut_to. split; lra. }
  assert (forall e c, (e == inject_Z c)%Q -> cut_to e c) as Hsame.
  { intros e c He. unfold cut_to. rewrite He. split; lra. }
  unfold spec_gradient_row, gradient_row, gradient_t.
  destruct (Z.ltb_spec y (top g)) as [Hlt|Hge].
  { cbn [mbind result_bind]. rewrite gradient_color_int_0, (spec_position_above g y Hlt Htb).
    exists 255, 120, 100. split; [reflexivity|].
    repeat split; apply Qle_bool_imp_le; reflexivity. }
  destruct (Z.ltb_spec (bottom g) y) as [Hgt|Hle].
  { cbn [mbind result_bind]. rewrite gradient_color_int_1, (spec_position_below g y Hgt Htb).
    exists 200, 30, 25. split; [reflexivity|].
    repeat split; apply Qle_bool_imp_le; reflexivity. }
  destruct (spec_position_inside g y ltac:(lia) Htb) as (-> & Hv0 & Hv1).
  set (D := bottom g - top g) in *. set (n := y - top g) in *.
  assert (0 < inject_Z D)%Q as HD.
  { change 0%Q with (inject_Z 0). rewrite <- Zlt_Qlt. lia. }
  set (v := (inject_Z n / inject_Z D)%Q) in *.
  assert (v * inject_Z D == inject_Z n)%Q as Hv.
  { unfold v, Qdiv. rewrite <- Qmult_assoc, (Qmult_comm (/ _)), Qmult_inv_r; lra. }
  assert (exists r gr b, (t ← py_truediv (PInt n) (PInt D); gradient_color t) = Ok (r, gr, b) /\
            near_cut (spec_gradient v).1.1 r /\ near_cut (spec_gradient v).1.2 gr /\
            near_cut (spec_gradient v).2 b) as (r & gr & b & Hrun & Hr & Hgr & Hb).
  { destruct (Z.eq_dec n 0) as [Hn0|Hn0].
    - rewrite Hn0, truediv_zero by lia. cbn [mbind result_bind].
      rewrite gradient_color_zero. exists 255, 120, 100. split; [reflexivity|].
      assert (v == 0)%Q as Hvz.
      { unfold v. rewrite Hn0. unfold Qdiv. change (inject_Z 0) with 0%Q. ring. }
      pose proof pow2_m39 as E39.
      unfold spec_gradient. destruct (Qlt_le_dec v (1 # 2)) as [_|Hc]; [|lra].
      unfold near_cut, spec_mix3, spec_mix, grad_top, grad_mid. cbn [fst snd].
      change (inject_Z (255 - 255)) with 0%Q. change (inject_Z (65 - 120)) with (-55)%Q.
      change (inject_Z (55 - 100)) with (-45)%Q.
      change (inject_Z 255) with 255%Q. change (inject_Z 120) with 120%Q.
      change (inject_Z 100) with 100%Q.
      repeat split; lra.
    - destruct (truediv_pos n D) as (m & e & Hdiv & Hrd & Hd); [lia|lia|].
      rewrite Hdiv. cbn [mbind result_bind].
      fold v in Hrd.
      assert (within 0 1 (S754_finite false m e)) as Hw.
      { apply (rounds_within _ _ _ _ Hrd); [left; apply repr_0|apply (srepr_Z 1); lia|].
        change (inject_Z 1) with 1%Q. split; lra. }
      pose proof (rounds_near _ _ (-52) Hrd ltac:(lia)) as Hn.
      change (pow2 (-52 + 52)) with 1%Q in Hn. specialize (Hn ltac:(split; lra)).
      apply (gradient_color_near m e v Hd Hw Hn).
      destruct Hrd as [_ Hrd]. split.
      + intros Ht. destruct (Qlt_le_dec v (1 # 2)) as [Hlt|Hge']; [exact Hlt|].
        assert (srepr (1 # 2)) as Hhalf.
        { apply (srepr_ext (dy 1 1)); [reflexivity|]. apply dy_srepr; [|lia].
          change (2 ^ 53) with 9007199254740992. lia. }
        destruct (Hrd _ Hhalf) as [_ Hup]. specialize (Hup Hge'). lra.
      + intros Hlt.
        assert (2 * n < D) as Hlt'.
        { assert (inject_Z (2 * n) < inject_Z D)%Q as Hq.
          { rewrite inject_Z_mult, <- Hv. change (inject_Z 2) with 2%Q.
            assert (0 < ((1 # 2) - v) * inject_Z D)%Q
              by (apply Qmult_lt_0_compat; lra).
            lra. }
          by rewrite <- Zlt_Qlt in Hq. }
        assert (srepr (dy 2147483647 32)) as Hk.
        { apply dy_srepr; [|lia]. change (2 ^ 53) with 9007199254740992. lia. }
        assert (dy 2147483647 32 == (1 # 2) - (1 # 4294967296))%Q as Ek by reflexivity.
        destruct (Hrd _ Hk) as [Hdown _].
        assert (v <= dy 2147483647 32)%Q as Hvk.
        { rewrite Ek. apply Qmult_le_r with (inject_Z D); [exact HD|]. rewrite Hv.
          assert (inject_Z (2 * n + 1) <= inject_Z D)%Q as Hq by (rewrite <- Zle_Qle; lia).
          rewrite inject_Z_plus, inject_Z_mult in Hq.
          change (inject_Z 2) with 2%Q in Hq. change (inject_Z 1) with 1%Q in Hq.
          assert (inject_Z D <= 2147483648)%Q as HDmax.
          { change 2147483648%Q with (inject_Z 2147483648). rewrite <- Zle_Qle. lia. }
          lra. }
        specialize (Hdown Hvk). rewrite Ek in Hdown. lra. }
  rewrite Hrun. exists r, gr, b. split; [reflexivity|].
  unfold spec_gradient in *.
  destruct (Qlt_le_dec v (1 # 2)) as [Hlt|Hge'];
    unfold spec_mix3 in *; cbn [fst snd] in *.
  - repeat split;
      (eapply (near_cut_exact _ _ _ D); [lia| |eassumption]);
      apply (spec_mix_exact _ _ v _ n D 0 Hv); change (inject_Z 0) with 0%Q; ring.
  - repeat split;
      (eapply (near_cut_exact _ _ _ D); [lia| |eassumption]);
      apply (spec_mix_exact _ _ v _ n D 1 Hv); change (inject_Z 1) with 1%Q; ring.
Qed.

(** * The renderer on the interpreter's objects *)

Lemma run_bind_run {A B} (m : run A) (k : A -> run B) s a s1 :
  m s = (Ok a, s1) -> (m ≫= k) s = k a s1.
Proof. intros H. unfold mbind, run_bind. by rewrite H. Qed.

Lemma value_run {A} (a : A) s : Obj.value (Ok a) s = (Ok a, s).
Proof. reflexivity. Qed.

Lemma name_run n s : n ∈ bound s -> Obj.name n s = (Ok tt, s).
Proof. intros H. unfold Obj.name. by rewrite (global_in _ _ H). Qed.

Section Store.
Context (h : list object) (ns : gset string) (w : world).


Lemma allocate_after os o :
  Obj.allocate o (after h ns w os) = (Ok (length h + length os)%nat, after h ns w (os ++ [o])).
Proof. unfold Obj.allocate; unfold after. cbn. by rewrite length_app, <- app_assoc. Qed.

Lemma assign_after os i o :
  Obj.assign (length h + i)%nat o (after h ns w os) = (Ok tt, after h ns w (<[i := o]> os)).
Proof. unfold Obj.assign; unfold after. cbn. by rewrite insert_app_r. Qed.

Lemma rgba_at_after os i im :
  os !! i = Some (RGBAImage im) -> Obj.rgba_at (length h + i)%nat (after h ns w os) = (Ok im, after h ns w os).
Proof.
  intros H. unfold Obj.rgba_at; unfold after. cbn.
  rewrite lookup_app_r by lia. replace (length h + i - length h)%nat with i by lia.
  by rewrite H.
Qed.

Lemma l_at_after os i im :
  os !! i = Some (LImage im) -> Obj.l_at (length h + i)%nat (after h ns w os) = (Ok im, after h ns w os).
Proof.
  intros H. unfold Obj.l_at; unfold after. cbn.
  rewrite lookup_app_r by lia. replace (length h + i - length h)%nat with i by lia.
  by rewrite H.
Qed.

Lemma name_after os n : n ∈ ns -> Obj.name n (after h ns w os) = (Ok tt, after h ns w os).
Proof. intros H. by apply name_run. Qed.

Lemma new_rgba_after os N c :
  "Image" ∈ ns -> 0 <= N ->
  Obj.new_rgba N N c (after h ns w os)
  = (Ok (length h + length os)%nat, after h ns w (os ++ [RGBAImage (blank N N c)])).
Proof.
  intros HI HN. unfold Obj.new_rgba.
  rewrite (run_bind_run _ _ _ _ _ (name_after os _ HI)), (Image_new_ok N c HN).
  rewrite (run_bind_run _ _ _ _ _ (value_run _ _)). apply allocate_after.
Qed.

Lemma new_l_after os N c :
  "Image" ∈ ns -> 0 <= N ->
  Obj.new_l N N c (after h ns w os)
  = (Ok (length h + length os)%nat, after h ns w (os ++ [LImage (blank N N c)])).
Proof.
  intros HI HN. unfold Obj.new_l.
  rewrite (run_bind_run _ _ _ _ _ (name_after os _ HI)), (Image_new_ok N c HN).
  rewrite (run_bind_run _ _ _ _ _ (value_run _ _)). apply allocate_after.
Qed.

Lemma putpixel_after os i im xy v im' :
  os !! i = Some (RGBAImage im) -> putpixel im xy v = Ok im' ->
  Obj.putpixel (length h + i)%nat xy v (after h ns w os) = (Ok tt, after h ns w (<[i := RGBAImage im']> os)).
Proof.
  intros Hi Hp. unfold Obj.putpixel.
  rewrite (run_bind_run _ _ _ _ _ (rgba_at_after os i im Hi)), Hp.
  rewrite (run_bind_run _ _ _ _ _ (value_run _ _)). apply assign_after.
Qed.

Lemma putalpha_after os i j im a :
  os !! i = Some (RGBAImage im) -> os !! j = Some (LImage a) ->
  width a = width im -> height a = height im ->
  Obj.putalpha (length h + i)%nat (length h + j)%nat (after h ns w os)
  = (Ok tt, after h ns w (<[i := RGBAImage (with_alpha im a)]> os)).
Proof.
  intros Hi Hj Hw Hh. unfold Obj.putalpha.
  rewrite (run_bind_run _ _ _ _ _ (rgba_at_after os i im Hi)).
  rewrite (run_bind_run _ _ _ _ _ (l_at_after os j a Hj)).
  rewrite (putalpha_ok im a Hw Hh).
  rewrite (run_bind_run _ _ _ _ _ (value_run _ _)). apply assign_after.
Qed.

Lemma Draw_after os l : "ImageDraw" ∈ ns -> Obj.Draw l (after h ns w os) = (Ok l, after h ns w os).
Proof.
  intros HD. unfold Obj.Draw. by rewrite (run_bind_run _ _ _ _ _ (name_after os _ HD)).
Qed.

Lemma draw_l_after os i covers fill m :
  os !! i = Some (LImage m) ->
  Obj.draw_l (length h + i)%nat covers fill (after h ns w os)
  = (Ok tt, after h ns w (<[i := LImage (draw covers fill m)]> os)).
Proof.
  intros Hi. unfold Obj.draw_l.
  rewrite (run_bind_run _ _ _ _ _ (l_at_after os i m Hi)). apply assign_after.
Qed.

Lemma draw_rgba_after os i covers fill im :
  os !! i = Some (RGBAImage im) ->
  Obj.draw_rgba (length h + i)%nat covers fill (after h ns w os)
  = (Ok tt, after h ns w (<[i := RGBAImage (draw covers fill im)]> os)).
Proof.
  intros Hi. unfold Obj.draw_rgba.
  rewrite (run_bind_run _ _ _ _ _ (rgba_at_after os i im Hi)). apply assign_after.
Qed.

(** A loop whose every round changes the one object [i] as [f] does
    changes it as the loop of [f] does. *)
Lemma for_each_on_object (xs : list Z) (body : Z -> run unit)
    (f : Z -> image rgba -> result (image rgba)) i :
  (forall a os im1 im2, os !! i = Some (RGBAImage im1) -> f a im1 = Ok im2 ->
     body a (after h ns w os) = (Ok tt, after h ns w (<[i := RGBAImage im2]> os))) ->
  forall os im im', os !! i = Some (RGBAImage im) -> for_each xs f im = Ok im' ->
    Obj.for_each xs body (after h ns w os) = (Ok tt, after h ns w (<[i := RGBAImage im']> os)).
Proof.
  intros Hbody. induction xs as [|a xs IH]; intros os im im' Hi Hrun.
  - cbn in Hrun. injection Hrun as <-. cbn. by rewrite list_insert_id.
  - cbn [for_each] in Hrun. apply bind_Ok in Hrun as (im1 & H1 & Hrun).
    cbn [Obj.for_each].
    rewrite (run_bind_run _ _ _ _ _ (Hbody a os im im1 Hi H1)).
    rewrite (IH (<[i := RGBAImage im1]> os) im1 im');
      [|apply list_lookup_insert_eq; by apply lookup_lt_Some in Hi|exact Hrun].
    by rewrite list_insert_insert_eq.
Qed.

End Store.

Section StoreCalls.
Context {pil : Pillow} (h : list object) (ns : gset string) (w : world).

Lemma filter_after os i radius im :
  os !! i = Some (RGBAImage im) ->
  Obj.filter_GaussianBlur (length h + i)%nat radius (after h ns w os)
  = (Ok (length h + length os)%nat,
     after h ns w (os ++ [RGBAImage (filter_blur radius im)])).
Proof.
  intros Hi. unfold Obj.filter_GaussianBlur.
  rewrite (run_bind_run _ _ _ _ _ (rgba_at_after h ns w os i im Hi)). apply allocate_after.
Qed.

Lemma alpha_composite_after os i j im1 im2 :
  "Image" ∈ ns ->
  os !! i = Some (RGBAImage im1) -> os !! j = Some (RGBAImage im2) ->
  width im1 = width im2 -> height im1 = height im2 ->
  Obj.alpha_composite (length h + i)%nat (length h + j)%nat (after h ns w os)
  = (Ok (length h + length os)%nat,
     after h ns w (os ++ [RGBAImage (composite im1 im2)])).
Proof.
  intros HI Hi Hj Hw Hh. unfold Obj.alpha_composite.
  rewrite (run_bind_run _ _ _ _ _ (name_after h ns w os _ HI)).
  rewrite (run_bind_run _ _ _ _ _ (rgba_at_after h ns w os i im1 Hi)).
  rewrite (run_bind_run _ _ _ _ _ (rgba_at_after h ns w os j im2 Hj)).
  rewrite (alpha_composite_ok im1 im2 Hw Hh).
  rewrite (run_bind_run _ _ _ _ _ (value_run _ _)). apply allocate_after.
Qed.

Lemma getchannel_A_after os i im :
  os !! i = Some (RGBAImage im) ->
  Obj.getchannel_A (length h + i)%nat (after h ns w os)
  = (Ok (length h + length os)%nat, after h ns w (os ++ [LImage (getchannel_A im)])).
Proof.
  intros Hi. unfold Obj.getchannel_A.
  rewrite (run_bind_run _ _ _ _ _ (rgba_at_after h ns w os i im Hi)). apply allocate_after.
Qed.

Lemma multiply_after os i j a b :
  os !! i = Some (LImage a) -> os !! j = Some (LImage b) ->
  Obj.multiply (length h + i)%nat (length h + j)%nat (after h ns w os)
  = (Ok (length h + length os)%nat, after h ns w (os ++ [LImage (chops_multiply a b)])).
Proof.
  intros Hi Hj. unfold Obj.multiply.
  rewrite (run_bind_run _ _ _ _ _ (l_at_after h ns w os i a Hi)).
  rewrite (run_bind_run _ _ _ _ _ (l_at_after h ns w os j b Hj)). apply allocate_after.
Qed.

(** The background loop on the object [i] paints it as
    [paint_background] does. *)
Lemma background_loop_after os i N im im' :
  os !! i = Some (RGBAImage im) -> paint_background N im = Ok im' ->
  Obj.for_each (range N) (fun y =>
    Obj.for_each (range N) (fun x =>
      c ← Obj.value (bg_pixel N x y);
      Obj.putpixel (length h + i)%nat (x, y) c)) (after h ns w os)
  = (Ok tt, after h ns w (<[i := RGBAImage im']> os)).
Proof.
  intros Hi Hrun. unfold paint_background in Hrun.
  refine (for_each_on_object h ns w _ _ _ i _ os im im' Hi Hrun).
  intros y os1 im1 im2 Hi1 Hrow. cbv beta in Hrow.
  refine (for_each_on_object h ns w _ _ _ i _ os1 im1 im2 Hi1 Hrow).
  intros x os2 im3 im4 Hi2 Hpx. cbv beta in Hpx.
  apply bind_Ok in Hpx as (c & Hc & Hpx). rewrite Hc.
  rewrite (run_bind_run _ _ _ _ _ (value_run _ _)).
  by apply putpixel_after with (im := im3).
Qed.

(** The gradient loop on the object [i] paints it as [paint_gradient]
    does. *)
Lemma gradient_loop_after os i N g im im' :
  os !! i = Some (RGBAImage im) -> paint_gradient N g im = Ok im' ->
  Obj.for_each (range N) (fun y =>
    '(r, gr, b) ← Obj.value (gradient_row g y);
    Obj.for_each (range N) (fun x =>
      Obj.putpixel (length h + i)%nat (x, y) (r, gr, b, 255))) (after h ns w os)
  = (Ok tt, after h ns w (<[i := RGBAImage im']> os)).
Proof.
  intros Hi Hrun. unfold paint_gradient in Hrun.
  refine (for_each_on_object h ns w _ _ _ i _ os im im' Hi Hrun).
  intros y os1 im1 im2 Hi1 Hrow. cbv beta in Hrow.
  apply bind_Ok in Hrow as ([[r gr] b] & Hc & Hrow). rewrite Hc.
  rewrite (run_bind_run _ _ _ _ _ (value_run _ _)). cbv beta iota.
  refine (for_each_on_object h ns w _ _ _ i _ os1 im1 im2 Hi1 Hrow).
  intros x os2 im3 im4 Hi2 Hpx. cbv beta in Hpx.
  by apply putpixel_after with (im := im3).
Qed.

End StoreCalls.

Ltac run_step H :=
  rewrite (run_bind_run _ _ _ _ _ H); cbv beta; cbn [length app insert list_insert].

(** A call of [create_icon] with the four names bound: it makes ten
    objects after the ones there are, changes none of those, and returns
    the eighth, which holds the icon of the size. *)
Lemma create_icon_on_objects {pil : Pillow} h ns w N :
  valid_size N ->
  "Image" ∈ ns -> "ImageDraw" ∈ ns -> "ImageFilter" ∈ ns -> "ImageChops" ∈ ns ->
  exists icon os,
    create_icon ns N = Ok icon /\
    Obj.create_icon N (Interp h ns w) = (Ok (length h + 7)%nat, after h ns w os) /\
    os !! 7%nat = Some (RGBAImage icon).
Proof.
  intros HN HI HD HF HC. pose proof HN as [HN0 _].
  destruct (create_icon_run ns N HN HI HD HF)
    as (R & bg0 & g & pts & grad0 & radius & HR & Hbg & Hg & Hgeo & Hpts & Hgrad & Hrad
        & Hbw & Hbh & Hgw & Hgh & Hrun).
  exists (icon_of N R bg0 grad0 pts radius). eexists.
  split; [by rewrite Hrun, (global_in _ _ HC)|].
  split.
  - replace (Interp h ns w) with (after h ns w []) by (unfold after; by rewrite app_nil_r).
    unfold Obj.create_icon.
    run_step (new_rgba_after h ns w [] N (0, 0, 0, 0) HI ltac:(lia)).
    rewrite HR. run_step (value_run R (after h ns w [RGBAImage (blank N N (0, 0, 0, 0))])).
    run_step (background_loop_after h ns w [RGBAImage (blank N N (0, 0, 0, 0))] 0 N _ bg0
                eq_refl Hbg).
    run_step (new_l_after h ns w [RGBAImage bg0] N 0 HI ltac:(lia)).
    run_step (Draw_after h ns w [RGBAImage bg0; LImage (blank N N 0)] (length h + 1)%nat HD).
    run_step (draw_l_after h ns w [RGBAImage bg0; LImage (blank N N 0)] 1
                (rounded_rectangle_covers (0, 0, N, N) R) 255 (blank N N 0) eq_refl).
    fold (mask_of N R).
    run_step (putalpha_after h ns w [RGBAImage bg0; LImage (mask_of N R)] 0 1 bg0 (mask_of N R)
                eq_refl eq_refl ltac:(by rewrite Hbw) ltac:(by rewrite Hbh)).
    set (bg := with_alpha bg0 (mask_of N R)).
    run_step (new_l_after h ns w [RGBAImage bg; LImage (mask_of N R)] N 0 HI ltac:(lia)).
    run_step (Draw_after h ns w [RGBAImage bg; LImage (mask_of N R); LImage (blank N N 0)]
                (length h + 2)%nat HD).
    rewrite Hg.
    run_step (value_run g (after h ns w [RGBAImage bg; LImage (mask_of N R); LImage (blank N N 0)])).
    rewrite Hpts.
    run_step (value_run pts (after h ns w [RGBAImage bg; LImage (mask_of N R); LImage (blank N N 0)])).
    run_step (draw_l_after h ns w [RGBAImage bg; LImage (mask_of N R); LImage (blank N N 0)] 2
                (polygon_covers pts) 255 (blank N N 0) eq_refl).
    fold (glyph_mask_of N pts).
    set (os3 := [RGBAImage bg; LImage (mask_of N R); LImage (glyph_mask_of N pts)]).
    run_step (new_rgba_after h ns w os3 N (0, 0, 0, 0) HI ltac:(lia)).
    subst os3. cbn [length app].
    run_step (gradient_loop_after h ns w
                [RGBAImage bg; LImage (mask_of N R); LImage (glyph_mask_of N pts);
                 RGBAImage (blank N N (0, 0, 0, 0))] 3 N g _ grad0 eq_refl Hgrad).
    run_step (putalpha_after h ns w
                [RGBAImage bg; LImage (mask_of N R); LImage (glyph_mask_of N pts);
                 RGBAImage grad0] 3 2 grad0 (glyph_mask_of N pts)
                eq_refl eq_refl ltac:(by rewrite Hgw) ltac:(by rewrite Hgh)).
    set (glyph := with_alpha grad0 (glyph_mask_of N pts)).
    set (os4 := [RGBAImage bg; LImage (mask_of N R); LImage (glyph_mask_of N pts);
                 RGBAImage glyph]).
    run_step (new_rgba_after h ns w os4 N (0, 0, 0, 0) HI ltac:(lia)).
    subst os4. cbn [length app].
    set (os5 := [RGBAImage bg; LImage (mask_of N R); LImage (glyph_mask_of N pts);
                 RGBAImage glyph; RGBAImage (blank N N (0, 0, 0, 0))]).
    run_step (Draw_after h ns w os5 (length h + 4)%nat HD).
    run_step (draw_rgba_after h ns w os5 4 (polygon_covers pts) (255, 80, 60, 60)
                (blank N N (0, 0, 0, 0)) eq_refl).
    subst os5. cbn [insert list_insert].
    set (drawn := draw (polygon_covers pts) (255, 80, 60, 60) (blank N N (0, 0, 0, 0))).
    set (os6 := [RGBAImage bg; LImage (mask_of N R); LImage (glyph_mask_of N pts);
                 RGBAImage glyph; RGBAImage drawn]).
    run_step (name_after h ns w os6 "ImageFilter" HF).
    rewrite Hrad. run_step (value_run radius (after h ns w os6)).
    run_step (filter_after h ns w os6 4 radius drawn eq_refl).
    subst os6. cbn [length app].
    set (glow := filter_blur radius drawn).
    set (os7 := [RGBAImage bg; LImage (mask_of N R); LImage (glyph_mask_of N pts);
                 RGBAImage glyph; RGBAImage drawn; RGBAImage glow]).
    run_step (alpha_composite_after h ns w os7 0 5 bg glow HI eq_refl eq_refl
                ltac:(cbn; lia) ltac:(cbn; lia)).
    subst os7. cbn [length app].
    set (c1 := composite bg glow).
    set (os8 := [RGBAImage bg; LImage (mask_of N R); LImage (glyph_mask_of N pts);
                 RGBAImage glyph; RGBAImage drawn; RGBAImage glow; RGBAImage c1]).
    run_step (alpha_composite_after h ns w os8 6 3 c1 glyph HI eq_refl eq_refl
                ltac:(cbn; lia) ltac:(cbn; lia)).
    subst os8. cbn [length app].
    set (c2 := composite c1 glyph).
    set (os9 := [RGBAImage bg; LImage (mask_of N R); LImage (glyph_mask_of N pts);
                 RGBAImage glyph; RGBAImage drawn; RGBAImage glow; RGBAImage c1;
                 RGBAImage c2]).
    run_step (name_after h ns w os9 "ImageChops" HC).
    run_step (getchannel_A_after h ns w os9 7 c2 eq_refl).
    subst os9. cbn [length app].
    set (os10 := [RGBAImage bg; LImage (mask_of N R); LImage (glyph_mask_of N pts);
                  RGBAImage glyph; RGBAImage drawn; RGBAImage glow; RGBAImage c1;
                  RGBAImage c2; LImage (getchannel_A c2)]).
    run_step (multiply_after h ns w os10 8 1 (getchannel_A c2) (mask_of N R) eq_refl eq_refl).
    subst os10. cbn [length app].
    set (os11 := [RGBAImage bg; LImage (mask_of N R); LImage (glyph_mask_of N pts);
                  RGBAImage glyph; RGBAImage drawn; RGBAImage glow; RGBAImage c1;
                  RGBAImage c2; LImage (getchannel_A c2);
                  LImage (chops_multiply (getchannel_A c2) (mask_of N R))]).
    run_step (putalpha_after h ns w os11 7 9 c2 (chops_multiply (getchannel_A c2) (mask_of N R))
                eq_refl eq_refl ltac:(cbn; lia) ltac:(cbn; lia)).
    subst os11. cbn [insert list_insert]. reflexivity.
  - reflexivity.
Qed.

(** ** Namespaces *)

Lemma full_ns_names name : name ∈ pil_names -> name ∈ full_ns.
Proof. intros H. unfold full_ns. by apply elem_of_list_to_set. Qed.

Lemma fallback_ns_Image : "Image" ∈ fallback_ns.
Proof. unfold fallback_ns. apply elem_of_list_to_set. set_solver. Qed.

Lemma fallback_ns_ImageDraw : "ImageDraw" ∈ fallback_ns.
Proof. unfold fallback_ns. apply elem_of_list_to_set. set_solver. Qed.

Lemma fallback_ns_ImageFilter : "ImageFilter" ∈ fallback_ns.
Proof. unfold fallback_ns. apply elem_of_list_to_set. set_solver. Qed.

Lemma fallback_ns_ImageChops : "ImageChops" ∉ fallback_ns.
Proof.
  unfold fallback_ns. rewrite elem_of_list_to_set.
  intros H. repeat (apply elem_of_cons in H as [H|H]; [discriminate H|]).
  by apply elem_of_nil in H.
Qed.

Lemma pil_names_in (ns : gset string) :
  (forall name, name ∈ pil_names -> name ∈ ns) ->
  "Image" ∈ ns /\ "ImageDraw" ∈ ns /\ "ImageFilter" ∈ ns /\ "ImageChops" ∈ ns.
Proof. intros H. unfold pil_names in H. repeat split; apply H; set_solver. Qed.

Lemma valid_size_1024 : valid_size 1024.
Proof. unfold valid_size, INT_MAX. lia. Qed.

Ltac invert_binds :=
  repeat match goal with
         | H : _ ≫= _ = Ok _ |- _ =>
             apply bind_Ok in H as (? & ? & H); cbv beta zeta in H
         end.

Section Whole.
Context {pil : Pillow}.

(** The icon is an N x N image. *)
Lemma icon_of_size N R bg0 grad0 pts radius :
  width bg0 = N -> height bg0 = N ->
  width (icon_of N R bg0 grad0 pts radius) = N /\
  height (icon_of N R bg0 grad0 pts radius) = N.
Proof. intros Hw Hh. by cbn. Qed.

(** With all four names bound the renderer returns the icon. *)
Lemma create_icon_ok (ns : gset string) N :
  valid_size N -> (forall name, name ∈ pil_names -> name ∈ ns) ->
  exists R bg0 g pts grad0 radius,
    scaled N c_0_22 = Ok R /\
    paint_background N (blank N N (0, 0, 0, 0)) = Ok bg0 /\
    glyph_geometry N = Ok g /\ geometry_of N g /\ m_outer g = Ok pts /\
    paint_gradient N g (blank N N (0, 0, 0, 0)) = Ok grad0 /\
    py_mul (PInt N) (PFloat c_0_04) = Ok radius /\
    width bg0 = N /\ height bg0 = N /\ width grad0 = N /\ height grad0 = N /\
    create_icon ns N = Ok (icon_of N R bg0 grad0 pts radius).
Proof.
  intros HN Hns. apply pil_names_in in Hns as (HI & HD & HF & HC).
  destruct (create_icon_run ns N HN HI HD HF)
    as (R & bg0 & g & pts & grad0 & radius & H1 & H2 & H3 & H4 & H5 & H6 & H7 & H8 & H9 & H10 & H11 & Hrun).
  exists R, bg0, g, pts, grad0, radius.
  rewrite Hrun, (global_in _ _ HC). repeat (split; [assumption|]). reflexivity.
Qed.

(** With all four names bound the renderer returns an N x N image. *)
Lemma create_icon_deterministic_size N :
  valid_size N ->
  exists icon, create_icon full_ns N = Ok icon /\ width icon = N /\ height icon = N.
Proof.
  intros HN.
  destruct (create_icon_ok full_ns N HN full_ns_names)
    as (R & bg0 & g & pts & grad0 & radius & _ & _ & _ & _ & _ & _ & _
        & Hbw & Hbh & _ & _ & Hrun).
  exists (icon_of N R bg0 grad0 pts radius).
  split; [exact Hrun|]. by apply icon_of_size.
Qed.

(** A run that returns read all four names. *)
Lemma create_icon_reads ns N img :
  create_icon ns N = Ok img -> forall name, name ∈ pil_names -> name ∈ ns.
Proof.
  intros H name Hname. unfold create_icon in H. invert_binds.
  unfold pil_names in Hname.
  repeat (apply elem_of_cons in Hname as [->|Hname]; [by eapply global_Ok|]).
  by apply elem_of_nil in Hname.
Qed.

(** The namespace matters only through the four names. *)
Lemma create_icon_congr ns ns' N :
  (forall name, name ∈ pil_names -> (name ∈ ns <-> name ∈ ns')) ->
  create_icon ns N = create_icon ns' N.
Proof.
  intros H.
  assert (forall name, name ∈ pil_names -> global ns name = global ns' name) as Hg.
  { intros name Hname. unfold global. specialize (H name Hname).
    destruct (decide (name ∈ ns)), (decide (name ∈ ns')); tauto. }
  unfold create_icon, rounded_mask, glyph_mask.
  rewrite !(Hg "Image"), !(Hg "ImageDraw"), !(Hg "ImageFilter"), !(Hg "ImageChops");
    first [reflexivity | unfold pil_names; repeat first [apply list_elem_of_here | apply list_elem_of_further]].
Qed.

(** On the names of the retried import the renderer stops at the read of
    [ImageChops]. *)
Lemma create_icon_fallback N :
  valid_size N -> create_icon fallback_ns N = Raise (NameError "ImageChops").
Proof.
  intros HN.
  destruct (create_icon_run fallback_ns N HN fallback_ns_Image fallback_ns_ImageDraw
              fallback_ns_ImageFilter)
    as (R & bg0 & g & pts & grad0 & radius & _ & _ & _ & _ & _ & _ & _ & _ & _ & _ & _ & Hrun).
  by rewrite Hrun, (global_notin _ _ fallback_ns_ImageChops).
Qed.

(** The final masking: the alpha of the icon is the product of the
    flattened alpha and the rounded mask. *)
Lemma icon_of_alpha N R bg0 grad0 pts radius x y :
  alpha (px (icon_of N R bg0 grad0 pts radius) x y)
  = clip8 (alpha (px (flattened N R bg0 grad0 pts radius) x y) * px (mask_of N R) x y / 255).
Proof.
  unfold icon_of. cbv zeta. unfold with_alpha, chops_multiply, getchannel_A. cbn [px].
  destruct (px (flattened N R bg0 grad0 pts radius) x y) as [[[r g] b] a]. reflexivity.
Qed.

(** [main] stops at a failing [create_icon], having printed one line. *)
Lemma main_raises ns e w :
  create_icon ns 1024 = Raise e ->
  main ns w = (Raise e, emit (EvPrint "Generating MCP Control app icon...") w).
Proof.
  intros H. unfold main. rewrite (io_bind_run _ _ _ _ _ (print_run _ w)).
  rewrite H. reflexivity.
Qed.

End Whole.

(** ** The import guard *)

Lemma import_guard_direct w :
  pil_importable w = true ->
  import_guard w = (Ok full_ns, emit (EvImport pil_names true) w).
Proof. intros H. unfold import_guard, try_except_ImportError, import_PIL. by rewrite H. Qed.

Lemma import_guard_install_fails w :
  pil_importable w = false -> pip_returncode w <> 0 ->
  import_guard w
  = (Raise (CalledProcessError (pip_returncode w)),
     emit (EvRun (pip_argv w) (pip_returncode w))
       (emit (EvPrint "Installing Pillow...") (emit (EvImport pil_names false) w))).
Proof.
  intros H Hrc. unfold import_guard, try_except_ImportError, import_PIL. rewrite H.
  unfold mbind, io_bind, print, check_call. cbn.
  apply Z.eqb_neq in Hrc. by rewrite Hrc.
Qed.

Lemma import_guard_retry w :
  pil_importable w = false -> pip_returncode w = 0 ->
  exists w',
    import_guard w
    = (if pip_installs w then Ok fallback_ns else Raise (ImportError "PIL"), w') /\
    trace w' = trace w ++ [ EvImport pil_names false; EvPrint "Installing Pillow...";
                            EvRun (pip_argv w) 0;
                            EvImport ["Image"; "ImageDraw"; "ImageFilter"] (pip_installs w) ] /\
    fs w' = fs w /\ writable w' = writable w /\ script_file w' = script_file w.
Proof.
  intros H Hrc. unfold import_guard, try_except_ImportError, import_PIL. rewrite H.
  unfold mbind, io_bind, print, check_call. cbn. rewrite Hrc. cbn.
  destruct (pip_installs w); (eexists; split; [reflexivity|]); cbn;
    rewrite <- !app_assoc; done.
Qed.

(** * The specification's claims *)

(** ** The background *)

(** C4: for every canvas dimension N that PIL can allocate, the background
    loop of [create_icon] raises nothing and leaves an N x N image whose
    every pixel has alpha 255 and whose red, green and blue lie between
    those of the dark and of the lighter background colour. *)
Theorem background_within_endpoints (N : Z) :
  valid_size N ->
  exists img,
    paint_background N (blank N N (0, 0, 0, 0)) = Ok img /\
    width img = N /\ height img = N /\
    forall x y, 0 <= x < N -> 0 <= y < N ->
      exists r g b,
        px img x y = (r, g, b, 255) /\
        bg_dark.1.1 <= r <= bg_lighter.1.1 /\
        bg_dark.1.2 <= g <= bg_lighter.1.2 /\
        bg_dark.2 <= b <= bg_lighter.2.
Proof.
  intros HN.
  destruct (paint_background_ok N (blank N N (0, 0, 0, 0)) HN eq_refl eq_refl)
    as (img & Hrun & Hw & Hh & Hpx).
  exists img. repeat (split; [assumption|]).
  intros x y Hx Hy.
  destruct (bg_pixel_ok N x y HN Hx Hy) as (r & g & b & Hc & Hr & Hg & Hb).
  exists r, g, b. rewrite (Hpx x y Hx Hy) in Hc. injection Hc as Hc.
  split; [exact Hc|]. cbn. lia.
Qed.

Lemma background_within_endpoints_1024 :
  valid_size 1024 /\
  exists img,
    paint_background 1024 (blank 1024 1024 (0, 0, 0, 0)) = Ok img /\
    width img = 1024 /\ height img = 1024 /\
    forall x y, 0 <= x < 1024 -> 0 <= y < 1024 ->
      exists r g b,
        px img x y = (r, g, b, 255) /\
        bg_dark.1.1 <= r <= bg_lighter.1.1 /\
        bg_dark.1.2 <= g <= bg_lighter.1.2 /\
        bg_dark.2 <= b <= bg_lighter.2.
Proof.
  split; [unfold valid_size, INT_MAX; lia|].
  apply (background_within_endpoints 1024). unfold valid_size, INT_MAX. lia.
Defined.

(** ** The gradient *)

(** C2, amended: for every canvas dimension N the gradient loop fills each
    row y with one colour; each channel of that colour is the exact
    two-segment interpolation of the specification at
    t = clamp((y - top) / (bottom - top), 0, 1), cut to an integer; at row
    [top] it is the top stop and at row [bottom] the bottom stop; a row
    halfway between the two carries the mid stop, and there is one, the
    row N / 2, exactly when N is even. *)
Theorem gradient_rows_uniform (N : Z) :
  valid_size N ->
  exists g img,
    glyph_geometry N = Ok g /\
    paint_gradient N g (blank N N (0, 0, 0, 0)) = Ok img /\
    width img = N /\ height img = N /\
    (forall y, 0 <= y < N ->
       exists r gr b,
         gradient_row g y = Ok (r, gr, b) /\
         (forall x, 0 <= x < N -> px img x y = (r, gr, b, 255)) /\
         cut_to (spec_gradient_row g y).1.1 r /\
         cut_to (spec_gradient_row g y).1.2 gr /\
         cut_to (spec_gradient_row g y).2 b) /\
    gradient_row g (top g) = Ok grad_top /\
    gradient_row g (bottom g) = Ok grad_bottom /\
    (forall y, 2 * (y - top g) = bottom g - top g -> gradient_row g y = Ok grad_mid) /\
    midpoint_row g = N / 2 /\
    (Z.even N = true -> gradient_row g (midpoint_row g) = Ok grad_mid) /\
    (Z.even N = false -> forall y, 2 * (y - top g) <> bottom g - top g) /\
    0 <= top g < bottom g /\ bottom g <= N /\ (5 <= N -> bottom g < N).
Proof.
  intros HN. pose proof HN as [HN0 HN1].
  destruct (glyph_geometry_ok N ltac:(lia)) as (g & Hg & Hgeo).
  destruct (paint_gradient_ok N g (blank N N (0, 0, 0, 0)) HN Hgeo eq_refl eq_refl)
    as (img & Hrun & Hw & Hh & Hpx).
  pose proof (geometry_extent N g HN Hgeo) as He.
  assert (top g + bottom g = N /\ bottom g - top g = N - 2 * top g) as [Hsum Hdiff].
  { unfold geometry_of in Hgeo. unfold top, bottom. lia. }
  assert (midpoint_row g = N / 2) as Hmid by (unfold midpoint_row; by rewrite Hsum).
  exists g, img. repeat (split; [assumption|]).
  split; [|split; [|split; [|split; [|split; [|split; [|split; [|split]]]]]]].
  - intros y Hy.
    destruct (gradient_row_cut N g y HN Hgeo) as (r & gr & b & Hrow & Hr & Hgr & Hb).
    exists r, gr, b. split; [exact Hrow|].
    split; [|split; [exact Hr|split; [exact Hgr|exact Hb]]].
    intros x Hx. destruct (Hpx x y Hx Hy) as (r' & gr' & b' & Hrow' & ->).
    rewrite Hrow in Hrow'. by injection Hrow' as -> -> ->.
  - exact (gradient_row_top N g HN Hgeo).
  - exact (gradient_row_bottom N g HN Hgeo).
  - intros y Hy. exact (gradient_row_mid N g y HN Hgeo Hy).
  - exact Hmid.
  - intros Heven. apply (gradient_row_mid N g _ HN Hgeo). rewrite Hmid, Hdiff.
    apply Z.even_spec in Heven as [k ->]. rewrite (Z.mul_comm 2 k), Z.div_mul by lia. lia.
  - intros Hodd y Hy. rewrite Hdiff in Hy.
    assert (Z.even N = true); [|congruence].
    apply Z.even_spec. exists (y - top g + top g). lia.
  - lia.
  - split; [lia|]. unfold geometry_of in Hgeo. unfold bottom. intros H5. lia.
Qed.

Lemma gradient_rows_uniform_1024 :
  valid_size 1024 /\
  exists g img,
    glyph_geometry 1024 = Ok g /\
    paint_gradient 1024 g (blank 1024 1024 (0, 0, 0, 0)) = Ok img /\
    (forall y, 0 <= y < 1024 ->
       exists r gr b,
         gradient_row g y = Ok (r, gr, b) /\
         (forall x, 0 <= x < 1024 -> px img x y = (r, gr, b, 255)) /\
         cut_to (spec_gradient_row g y).1.1 r /\
         cut_to (spec_gradient_row g y).1.2 gr /\
         cut_to (spec_gradient_row g y).2 b) /\
    gradient_row g (midpoint_row g) = Ok grad_mid.
Proof.
  split; [unfold valid_size, INT_MAX; lia|].
  destruct (gradient_rows_uniform 1024) as (g & img & H1 & H2 & _ & _ & H3 & _ & _ & _ & _ & H4 & _).
  - unfold valid_size, INT_MAX. lia.
  - exists g, img. split; [exact H1|]. split; [exact H2|]. split; [exact H3|].
    apply H4. reflexivity.
Defined.

(** C2 as stated fails on an odd canvas: at N = 65 the glyph spans the rows
    14 to 51, the row halfway, 32, holds (255, 66, 56) and not the mid
    stop (255, 65, 55), and no row of the canvas holds the mid stop. *)
Lemma gradient_midpoint_odd_65 :
  exists g img,
    glyph_geometry 65 = Ok g /\
    paint_gradient 65 g (blank 65 65 (0, 0, 0, 0)) = Ok img /\
    top g = 14 /\ bottom g = 51 /\ midpoint_row g = 32 /\
    px img 0 (midpoint_row g) = (255, 66, 56, 255) /\
    (255, 66, 56) <> grad_mid /\
    ~ exists y, 0 <= y < 65 /\ px img 0 y = (grad_mid.1.1, grad_mid.1.2, grad_mid.2, 255).
Proof.
  assert (valid_size 65) as HN by (unfold valid_size, INT_MAX; lia).
  destruct (glyph_geometry_ok 65 ltac:(unfold INT_MAX; lia)) as (g & Hg & Hgeo).
  destruct (paint_gradient_ok 65 g (blank 65 65 (0, 0, 0, 0)) HN Hgeo eq_refl eq_refl)
    as (img & Hrun & _ & _ & Hpx).
  assert (g = Geometry 11 14 14 8 18 65) as Hgv.
  { assert (glyph_geometry 65 = Ok (Geometry 11 14 14 8 18 65)) as Hc by (vm_compute; reflexivity).
    rewrite Hc in Hg. by injection Hg. }
  exists g, img. split; [exact Hg|]. split; [exact Hrun|].
  split; [by rewrite Hgv|]. split; [by rewrite Hgv|].
  assert (midpoint_row g = 32) as Hm by (by rewrite Hgv).
  split; [exact Hm|]. split.
  { rewrite Hm. destruct (Hpx 0 32 ltac:(lia) ltac:(lia)) as (r & gr & b & Hrow & ->).
    assert (gradient_row g 32 = Ok (255, 66, 56)) as Hc by (rewrite Hgv; vm_compute; reflexivity).
    rewrite Hc in Hrow. by injection Hrow as <- <- <-. }
  split; [discriminate|].
  intros (y & Hy & Hp).
  destruct (Hpx 0 y ltac:(lia) Hy) as (r & gr & b & Hrow & Hq).
  rewrite Hq in Hp. injection Hp as -> -> ->.
  assert (forallb (fun y => match gradient_row g y with
                            | Ok c => negb (bool_decide (c = grad_mid))
                            | Raise _ => false
                            end) (range 65) = true) as Hall
    by (rewrite Hgv; vm_compute; reflexivity).
  rewrite forallb_forall in Hall.
  assert (In y (range 65)) as Hin.
  { unfold range. apply in_map_iff. exists (Z.to_nat y). split; [lia|].
    apply in_seq. lia. }
  specialize (Hall y Hin). rewrite Hrow in Hall.
  apply negb_true_iff, bool_decide_eq_false in Hall. by apply Hall.
Qed.

(** ** The rounded mask *)



(** ** The glyph *)

(** C6: the outline is one list of twelve vertices in the order
    left-outer-bottom, left-outer-top, start of the inward diagonal, centre
    peak, end of the outward diagonal, right-outer-top, right-outer-bottom,
    right-inner-bottom, right-inner-top, inner centre peak, left-inner-top,
    left-inner-bottom.  The inner peak lies below the outer one by the
    offset [stroke * 0.7], between half and three quarters of the stroke,
    and the inner diagonals descend no more than [v_depth]. *)
Theorem m_outline_vertices (N : Z) :
  valid_size N ->
  exists g w x3 x5 h8 y9 h7 y10,
    glyph_geometry N = Ok g /\
    py_mul (PInt (stroke g)) (PFloat c_1_1) = Ok (PFloat w) /\
    py_add (PInt (left g)) (PFloat w) = Ok (PFloat x3) /\
    py_sub (PInt (right g)) (PFloat w) = Ok (PFloat x5) /\
    py_mul (PInt (stroke g)) (PFloat c_0_8) = Ok (PFloat h8) /\
    py_add (PInt (top g)) (PFloat h8) = Ok (PFloat y9) /\
    py_mul (PInt (stroke g)) (PFloat c_0_7) = Ok (PFloat h7) /\
    py_add (PInt (top g + v_depth g)) (PFloat h7) = Ok (PFloat y10) /\
    m_outer g =
      Ok [ (PInt (left g), PInt (bottom g));
           (PInt (left g), PInt (top g));
           (PFloat x3, PInt (top g));
           (PInt (center_x g), PInt (top g + v_depth g));
           (PFloat x5, PInt (top g));
           (PInt (right g), PInt (top g));
           (PInt (right g), PInt (bottom g));
           (PInt (right g - stroke g), PInt (bottom g));
           (PInt (right g - stroke g), PFloat y9);
           (PInt (center_x g), PFloat y10);
           (PInt (left g + stroke g), PFloat y9);
           (PInt (left g + stroke g), PInt (bottom g)) ] /\
    (inject_Z (top g + v_depth g) + inject_Z (stroke g) * (1 # 2) <= SF2Q y10)%Q /\
    (SF2Q y10 <= inject_Z (top g + v_depth g) + inject_Z (stroke g) * (3 # 4))%Q /\
    (SF2Q y10 - SF2Q y9 <= inject_Z (v_depth g))%Q /\
    (8 <= N -> 0 < stroke g /\ (inject_Z (top g + v_depth g) < SF2Q y10)%Q).
Proof.
  intros [HN0 HN1].
  destruct (glyph_geometry_ok N ltac:(lia)) as (g & Hg & Hgeo).
  pose proof Hgeo as Hgeo'. unfold geometry_of in Hgeo'. unfold INT_MAX in HN1.
  assert (2 ^ 31 = 2147483648) as H31 by reflexivity.
  assert (2 ^ 32 = 4294967296) as H32 by reflexivity.
  unfold left, right, top, bottom in *.
  destruct (coord_add (margin_x g) (stroke g) c_1_1 4 5) as (w3 & x3 & Hw3 & Hx3 & Hb3);
    [lia|lia|lia|lia|apply c_1_1_between|].
  destruct (coord_sub (canvas g - margin_x g) (stroke g) c_1_1 4 5) as (w5 & x5 & Hw5 & Hx5 & Hb5);
    [lia|lia|lia|lia|apply c_1_1_between|].
  destruct (coord_add (margin_top g) (stroke g) c_0_8 3 4) as (h9 & y9 & Hh9 & Hy9 & Hb9);
    [lia|lia|lia|lia|apply c_0_8_between|].
  destruct (coord_add (margin_top g + v_depth g) (stroke g) c_0_7 2 3)
    as (h10 & y10 & Hh10 & Hy10 & Hb10);
    [lia|lia|lia|lia|apply c_0_7_between|].
  assert (w5 = w3) as -> by congruence.
  exists g, w3, x3, x5, h9, y9, h10, y10.
  repeat (split; [assumption|]).
  split.
  { unfold m_outer, left, right, top, bottom.
    repeat (first [rewrite Hw3|rewrite Hx3|rewrite Hx5|rewrite Hh9|rewrite Hy9
                   |rewrite Hh10|rewrite Hy10]; cbn [mbind result_bind]).
    reflexivity. }
  destruct Hb10 as (_ & Hl10 & Hu10). destruct Hb9 as (_ & Hl9 & Hu9).
  assert (forall a, dy a 2 == inject_Z a * (1 # 4))%Q as Hdy by (intros a; reflexivity).
  rewrite Hdy in Hl10, Hu10, Hl9, Hu9.
  rewrite !inject_Z_plus, !inject_Z_mult in Hl10, Hu10, Hl9, Hu9.
  change (inject_Z 4) with 4%Q in *. change (inject_Z 2) with 2%Q in *.
  change (inject_Z 3) with 3%Q in *.
  rewrite !inject_Z_plus in *.
  assert (0 <= inject_Z (stroke g))%Q as Hs0.
  { change 0%Q with (inject_Z 0). rewrite <- Zle_Qle. lia. }
  split; [lra|]. split; [lra|]. split; [lra|].
  intros H8. assert (0 < stroke g) as Hs by lia. split; [exact Hs|].
  assert (0 < inject_Z (stroke g))%Q.
  { change 0%Q with (inject_Z 0). rewrite <- Zlt_Qlt. lia. }
  lra.
Qed.

Lemma m_outline_vertices_1024 :
  valid_size 1024 /\
  exists g pts, glyph_geometry 1024 = Ok g /\ m_outer g = Ok pts /\ length pts = 12%nat.
Proof.
  split; [unfold valid_size, INT_MAX; lia|].
  destruct (m_outline_vertices 1024) as (g & w & x3 & x5 & h8 & y9 & h7 & y10 & Hg & H).
  - unfold valid_size, INT_MAX. lia.
  - exists g. eexists. split; [exact Hg|]. split; [apply H|reflexivity].
Defined.

(** C9: when PIL's polygon fill stays within the box of the vertices, the
    glyph mask of every canvas is 0 at every pixel outside the rectangle
    from [margin_x] to [N - margin_x] and from [margin_top] to
    [N - margin_bottom]. *)
Theorem glyph_mask_within_margins {pil : Pillow} (N : Z) :
  polygon_in_bbox pil -> valid_size N ->
  exists g pts m,
    glyph_geometry N = Ok g /\ m_outer g = Ok pts /\
    glyph_mask full_ns N pts = Ok m /\
    width m = N /\ height m = N /\
    forall x y,
      ~ (margin_x g <= x <= N - margin_x g /\ margin_top g <= y <= N - margin_bottom g) ->
      px m x y = 0.
Proof.
  intros Hbox HN. pose proof HN as [HN0 HN1].
  destruct (glyph_geometry_ok N ltac:(lia)) as (g & Hg & Hgeo).
  destruct (m_outer_ok N g ltac:(lia) Hgeo) as (x3 & x5 & y9 & y10 & Hpts & _).
  eexists g, _, (glyph_mask_of N _).
  split; [exact Hg|]. split; [exact Hpts|].
  split.
  { apply glyph_mask_ok; [apply full_ns_names|apply full_ns_names|lia];
      unfold pil_names; repeat first [apply list_elem_of_here | apply list_elem_of_further]. }
  split; [reflexivity|]. split; [reflexivity|].
  intros x y Hout. unfold glyph_mask_of. apply px_draw_outside.
  match goal with |- ?c = false => destruct c eqn:Hc end; [|reflexivity].
  exfalso. apply Hout.
  pose proof (m_outer_in_box N g _ HN Hgeo Hpts) as Hall.
  pose proof (Hbox _ _ _ _ _ _ _ Hall Hc) as Hin.
  destruct Hgeo as (Hcanvas & _). unfold left, right, top, bottom in Hin.
  rewrite Hcanvas in Hin. exact Hin.
Qed.

Lemma glyph_mask_within_margins_1024 :
  polygon_in_bbox reference_pillow /\ valid_size 1024 /\
  exists g pts m,
    glyph_geometry 1024 = Ok g /\ m_outer g = Ok pts /\
    @glyph_mask reference_pillow full_ns 1024 pts = Ok m /\
    width m = 1024 /\ height m = 1024 /\
    forall x y,
      ~ (margin_x g <= x <= 1024 - margin_x g /\ margin_top g <= y <= 1024 - margin_bottom g) ->
      px m x y = 0.
Proof.
  split; [exact box_fill_in_bbox|].
  split; [unfold valid_size, INT_MAX; lia|].
  apply (@glyph_mask_within_margins reference_pillow 1024).
  - exact box_fill_in_bbox.
  - unfold valid_size, INT_MAX. lia.
Defined.

(** ** The finished icon *)

(** C3: [create_icon] lays the glow over the background and the glyph over
    both, in that order, and then replaces the alpha of the result by its
    product with the rounded mask; so the icon's alpha is 0 wherever the
    rounded mask is 0. *)
Theorem composite_then_mask {pil : Pillow} (ns : gset string) (N : Z) :
  valid_size N -> (forall name, name ∈ pil_names -> name ∈ ns) ->
  exists R bg0 g pts grad0 radius mask bg glow glyph c1 c2 final,
    scaled N c_0_22 = Ok R /\
    rounded_mask ns N R = Ok mask /\
    paint_background N (blank N N (0, 0, 0, 0)) = Ok bg0 /\
    putalpha bg0 mask = Ok bg /\
    glyph_geometry N = Ok g /\ m_outer g = Ok pts /\
    paint_gradient N g (blank N N (0, 0, 0, 0)) = Ok grad0 /\
    putalpha grad0 (glyph_mask_of N pts) = Ok glyph /\
    py_mul (PInt N) (PFloat c_0_04) = Ok radius /\
    glow = filter_blur radius
             (draw (polygon_covers pts) (255, 80, 60, 60) (blank N N (0, 0, 0, 0))) /\
    alpha_composite bg glow = Ok c1 /\
    alpha_composite c1 glyph = Ok c2 /\
    putalpha c2 (chops_multiply (getchannel_A c2) mask) = Ok final /\
    create_icon ns N = Ok final /\
    (forall x y, alpha (px final x y) = clip8 (alpha (px c2 x y) * px mask x y / 255)) /\
    (forall x y, px mask x y = 0 -> alpha (px final x y) = 0).
Proof.
  intros HN Hns. pose proof HN as [HN0 HN1].
  destruct (create_icon_ok ns N HN Hns)
    as (R & bg0 & g & pts & grad0 & radius & HR & Hbg & Hg & Hgeo & Hpts & Hgrad & Hrad
        & Hbw & Hbh & Hgw & Hgh & Hrun).
  apply pil_names_in in Hns as (HI & HD & HF & HC).
  exists R, bg0, g, pts, grad0, radius, (mask_of N R), (with_alpha bg0 (mask_of N R)).
  eexists _, (with_alpha grad0 (glyph_mask_of N pts)), _, (flattened N R bg0 grad0 pts radius),
    (icon_of N R bg0 grad0 pts radius).
  split; [exact HR|]. split; [apply rounded_mask_ok; [done|done|lia]|].
  split; [exact Hbg|]. split; [apply putalpha_ok; cbn; lia|].
  split; [exact Hg|]. split; [exact Hpts|]. split; [exact Hgrad|].
  split; [apply putalpha_ok; cbn; lia|]. split; [exact Hrad|]. split; [reflexivity|].
  split; [apply alpha_composite_ok; cbn; lia|].
  split; [apply alpha_composite_ok; cbn; lia|].
  split; [apply putalpha_ok; cbn; lia|].
  split; [exact Hrun|].
  split.
  - intros x y. apply icon_of_alpha.
  - intros x y H0. rewrite icon_of_alpha, H0, Z.mul_0_r. reflexivity.
Qed.

Lemma composite_then_mask_1024 :
  valid_size 1024 /\ (forall name, name ∈ pil_names -> name ∈ full_ns) /\
  exists mask final,
    @create_icon reference_pillow full_ns 1024 = Ok final /\
    forall x y, px mask x y = 0 -> alpha (px final x y) = 0.
Proof.
  split; [unfold valid_size, INT_MAX; lia|].
  split; [exact full_ns_names|].
  destruct (@composite_then_mask reference_pillow full_ns 1024)
    as (R & bg0 & g & pts & grad0 & radius & mask & bg & glow & glyph & c1 & c2 & final & H).
  - unfold valid_size, INT_MAX. lia.
  - exact full_ns_names.
  - destruct H as (_ & _ & _ & _ & _ & _ & _ & _ & _ & _ & _ & _ & _ & Hrun & _ & Hzero).
    exists mask, final. split; [exact Hrun|exact Hzero].
Defined.

(** C10: for every canvas dimension N, every call of [create_icon] with the
    four PIL names bound returns, from whatever state of the interpreter
    (whatever objects there are, whatever the world outside), a new object
    that holds one and the same N x N image; the call changes no object
    that was there, no binding and nothing outside, so that a later call
    cannot alter what an earlier one returned.  The image is the one the
    renderer computes as a function of N, and a call under other bindings
    either raises or returns that image too. *)
Theorem create_icon_deterministic {pil : Pillow} (N : Z) :
  valid_size N ->
  exists icon,
    width icon = N /\ height icon = N /\
    create_icon full_ns N = Ok icon /\
    (forall ns, (forall name, name ∈ pil_names -> name ∈ ns) -> create_icon ns N = Ok icon) /\
    (forall ns img', create_icon ns N = Ok img' -> img' = icon) /\
    (forall s, (forall name, name ∈ pil_names -> name ∈ bound s) ->
       exists l s',
         Obj.create_icon N s = (Ok l, s') /\
         objects s' !! l = Some (RGBAImage icon) /\
         objects s !! l = None /\
         (forall l' o, objects s !! l' = Some o -> objects s' !! l' = Some o) /\
         bound s' = bound s /\ outside s' = outside s).
Proof.
  intros HN.
  destruct (create_icon_ok full_ns N HN full_ns_names)
    as (R & bg0 & g & pts & grad0 & radius & _ & _ & _ & _ & _ & _ & _
        & Hbw & Hbh & _ & _ & Hrun).
  exists (icon_of N R bg0 grad0 pts radius).
  destruct (icon_of_size N R bg0 grad0 pts radius Hbw Hbh) as [Hw Hh].
  split; [exact Hw|]. split; [exact Hh|]. split; [exact Hrun|].
  assert (forall ns, (forall name, name ∈ pil_names -> name ∈ ns) ->
            create_icon ns N = Ok (icon_of N R bg0 grad0 pts radius)) as Hall.
  { intros ns Hns. rewrite <- Hrun. apply create_icon_congr.
    intros name Hname. split; intros _; [by apply full_ns_names|by apply Hns]. }
  split; [exact Hall|].
  split.
  { intros ns img' Himg.
    pose proof (Hall ns (create_icon_reads ns N img' Himg)) as Heq.
    rewrite Himg in Heq. by injection Heq. }
  intros [h ns w] Hs. cbn [bound] in Hs.
  pose proof (pil_names_in ns Hs) as (HI & HD & HF & HC).
  destruct (create_icon_on_objects h ns w N HN HI HD HF HC) as (icon & os & Hf & Hobj & H7).
  rewrite (Hall ns Hs) in Hf. injection Hf as <-.
  exists (length h + 7)%nat, (after h ns w os).
  split; [exact Hobj|]. unfold after. cbn [objects bound outside].
  split.
  { rewrite lookup_app_r by lia. by replace (length h + 7 - length h)%nat with 7%nat by lia. }
  split; [apply lookup_ge_None; lia|].
  split; [|done].
  intros l' o Hl'. by apply lookup_app_l_Some.
Qed.

Lemma create_icon_deterministic_1024 :
  valid_size 1024 /\
  exists icon,
    width icon = 1024 /\ height icon = 1024 /\
    @create_icon reference_pillow full_ns 1024 = Ok icon /\
    (forall ns img', @create_icon reference_pillow ns 1024 = Ok img' -> img' = icon) /\
    (forall s, (forall name, name ∈ pil_names -> name ∈ bound s) ->
       exists l s',
         @Obj.create_icon reference_pillow 1024 s = (Ok l, s') /\
         objects s' !! l = Some (RGBAImage icon)).
Proof.
  split; [unfold valid_size, INT_MAX; lia|].
  destruct (@create_icon_deterministic reference_pillow 1024)
    as (img & Hw & Hh & Hrun & _ & Huniq & Hobj).
  - unfold valid_size, INT_MAX. lia.
  - exists img. split; [exact Hw|]. split; [exact Hh|]. split; [exact Hrun|].
    split; [exact Huniq|].
    intros s Hs. destruct (Hobj s Hs) as (l & s' & H1 & H2 & _).
    exists l, s'. split; [exact H1|exact H2].
Defined.

(** ** The import guard *)

(** C7: when the first import of PIL raises ImportError, the guard prints
    its notice and runs pip once.  If pip returns 0 the import is retried,
    once; otherwise CalledProcessError leaves the guard and the program,
    with no second import, no second run of pip and no file written. *)
Theorem import_guard_installs_once {pil : Pillow} (w : world) :
  pil_importable w = false ->
  (pip_returncode w = 0 ->
     exists w',
       import_guard w
       = (if pip_installs w then Ok fallback_ns else Raise (ImportError "PIL"), w') /\
       trace w' = trace w ++ [ EvImport pil_names false; EvPrint "Installing Pillow...";
                               EvRun (pip_argv w) 0;
                               EvImport ["Image"; "ImageDraw"; "ImageFilter"] (pip_installs w) ] /\
       installs (trace w') = installs (trace w) ++ [pip_argv w]) /\
  (pip_returncode w <> 0 ->
     exists w',
       import_guard w = (Raise (CalledProcessError (pip_returncode w)), w') /\
       program w = (Raise (CalledProcessError (pip_returncode w)), w') /\
       trace w' = trace w ++ [ EvImport pil_names false; EvPrint "Installing Pillow...";
                               EvRun (pip_argv w) (pip_returncode w) ] /\
       installs (trace w') = installs (trace w) ++ [pip_argv w] /\
       fs w' = fs w).
Proof.
  intros Hpil. split.
  - intros Hrc. destruct (import_guard_retry w Hpil Hrc) as (w' & Hrun & Htr & _).
    exists w'. split; [exact Hrun|]. split; [exact Htr|].
    rewrite Htr. unfold installs. rewrite omap_app. reflexivity.
  - intros Hrc. pose proof (import_guard_install_fails w Hpil Hrc) as Hrun.
    eexists. split; [exact Hrun|].
    split; [unfold program; by rewrite (io_bind_raise _ _ _ _ _ Hrun)|].
    cbn. rewrite <- !app_assoc. split; [reflexivity|]. split; [|reflexivity].
    unfold installs. rewrite omap_app. reflexivity.
Qed.

Lemma import_guard_installs_once_pip_fails :
  pil_importable (machine false 1 false) = false /\
  exists w',
    import_guard (machine false 1 false) = (Raise (CalledProcessError 1), w') /\
    @program reference_pillow (machine false 1 false) = (Raise (CalledProcessError 1), w') /\
    installs (trace w') = [pip_argv (machine false 1 false)].
Proof.
  split; [reflexivity|].
  destruct (@import_guard_installs_once reference_pillow (machine false 1 false) eq_refl)
    as [_ H].
  destruct H as (w' & H1 & H2 & _ & H3 & _); [discriminate|].
  exists w'. split; [exact H1|]. split; [exact H2|exact H3].
Defined.

(** C8: the retried import binds [Image], [ImageDraw] and [ImageFilter]
    only; under these names [create_icon] raises NameError for
    [ImageChops], so a run that installed Pillow stops there with no file
    written, and a run of the program that completes found PIL importable
    at its start. *)
Theorem fallback_import_omits_ImageChops {pil : Pillow} :
  (forall N, valid_size N -> create_icon fallback_ns N = Raise (NameError "ImageChops")) /\
  (forall w, pil_importable w = false -> pip_returncode w = 0 -> pip_installs w = true ->
     exists w' w'',
       import_guard w = (Ok fallback_ns, w') /\
       program w = (Raise (NameError "ImageChops"), w'') /\
       written (trace w'') = written (trace w) /\ fs w'' = fs w) /\
  (forall w w', program w = (Ok tt, w') -> pil_importable w = true).
Proof.
  assert (forall w, pil_importable w = false -> pip_returncode w = 0 ->
            pip_installs w = true ->
            exists w1, import_guard w = (Ok fallback_ns, w1) /\
              program w = (Raise (NameError "ImageChops"),
                           emit (EvPrint "Generating MCP Control app icon...") w1) /\
              written (trace w1) = written (trace w) /\ fs w1 = fs w) as Hfall.
  { intros w Hpil Hrc Hinst.
    destruct (import_guard_retry w Hpil Hrc) as (w1 & Hg & Htr & Hfs & _).
    rewrite Hinst in Hg. exists w1. split; [exact Hg|]. split.
    - unfold program. rewrite (io_bind_run _ _ _ _ _ Hg).
      apply main_raises. exact (create_icon_fallback 1024 valid_size_1024).
    - split; [|exact Hfs]. rewrite Htr, written_app. cbn. apply app_nil_r. }
  split; [exact create_icon_fallback|]. split.
  - intros w Hpil Hrc Hinst.
    destruct (Hfall w Hpil Hrc Hinst) as (w1 & Hg & Hrun & Htr & Hfs).
    exists w1. eexists. split; [exact Hg|]. split; [exact Hrun|].
    cbn [trace fs emit]. rewrite written_app, Htr. cbn. split; [apply app_nil_r|exact Hfs].
  - intros w w' Hrun. destruct (pil_importable w) eqn:Hpil; [reflexivity|]. exfalso.
    destruct (Z.eq_dec (pip_returncode w) 0) as [Hrc|Hrc].
    + destruct (pip_installs w) eqn:Hinst.
      * destruct (Hfall w Hpil Hrc Hinst) as (w1 & _ & Hraise & _).
        pose proof (eq_trans (eq_sym Hraise) Hrun) as Habs. discriminate Habs.
      * destruct (import_guard_retry w Hpil Hrc) as (w1 & Hg & _). rewrite Hinst in Hg.
        assert (program w = (Raise (ImportError "PIL"), w1)) as Hraise
          by (unfold program; apply (io_bind_raise _ _ _ _ _ Hg)).
        pose proof (eq_trans (eq_sym Hraise) Hrun) as Habs. discriminate Habs.
    + assert (program w = (Raise (CalledProcessError (pip_returncode w)),
                           emit (EvRun (pip_argv w) (pip_returncode w))
                             (emit (EvPrint "Installing Pillow...")
                                (emit (EvImport pil_names false) w)))) as Hraise
        by (unfold program; apply (io_bind_raise _ _ _ _ _ (import_guard_install_fails w Hpil Hrc))).
      pose proof (eq_trans (eq_sym Hraise) Hrun) as Habs. discriminate Habs.
Qed.

Lemma fallback_import_omits_ImageChops_run :
  @create_icon reference_pillow fallback_ns 1024 = Raise (NameError "ImageChops") /\
  exists w',
    @program reference_pillow (machine false 0 true) = (Raise (NameError "ImageChops"), w') /\
    fs w' = ∅.
Proof.
  destruct (@fallback_import_omits_ImageChops reference_pillow) as (H1 & H2 & _).
  split; [apply H1; unfold valid_size, INT_MAX; lia|].
  destruct (H2 (machine false 0 true) eq_refl eq_refl eq_refl) as (w' & w'' & _ & Hrun & _ & Hfs).
  exists w''. split; [exact Hrun|exact Hfs].
Defined.

(** ** The pipeline *)

(** C1: a run that finds PIL importable and its output paths writable
    writes twelve files and no other, each once: the ten of the ladder in
    the ladder's order, each a PNG of the pixel dimensions of its entry,
    then [AppIcon.png] holding the 1024 x 1024 icon, then [Contents.json]
    holding the manifest; and the manifest names the ten sized files, in
    the same order. *)
Theorem pipeline_outputs {pil : Pillow} (w : world) :
  let out := output_dir_of (script_file w) in
  pil_importable w = true ->
  (forall p, p ∈ out :: output_paths out -> writable w p = true) ->
  exists icon w',
    create_icon full_ns 1024 = Ok icon /\ width icon = 1024 /\ height icon = 1024 /\
    program w = (Ok tt, w') /\
    written (trace w') = written (trace w) ++ output_paths out /\
    fs w' = foldl put_file (fs w) (expected_files icon out) /\
    (expected_files icon out).*1 = output_paths out /\
    NoDup (output_paths out) /\ length (output_paths out) = 12%nat /\
    (forall p f, (p, f) ∈ expected_files icon out -> fs w' !! p = Some f) /\
    (forall p, p ∉ output_paths out -> fs w' !! p = fs w !! p) /\
    Forall2 (fun (sf : Z * string) (pf : path * file) =>
               pf.1 = out ++ [sf.2] /\ png_of_size sf.1 pf.2)
      sizes (take 10 (expected_files icon out)) /\
    drop 10 (expected_files icon out)
    = [ (out ++ ["AppIcon.png"], PNG icon); (out ++ ["Contents.json"], JSONText contents 2) ] /\
    length sizes = 10%nat /\
    manifest_filenames contents = sizes.*2.
Proof.
  intros out Hpil Hw.
  destruct (create_icon_deterministic_size 1024 valid_size_1024) as (icon & Hicon & Hiw & Hih).
  pose proof (import_guard_direct w Hpil) as Hguard.
  destruct (main_run full_ns icon (emit (EvImport pil_names true) w)) as (w' & Hmain & Hwrote).
  { apply full_ns_names. unfold pil_names. apply list_elem_of_here. }
  { exact Hicon. }
  { exact Hw. }
  cbn [script_file emit] in Hwrote. fold out in Hwrote.
  destruct Hwrote as (Hfs & Htr & _). cbn [fs trace emit] in Hfs, Htr.
  exists icon, w'.
  split; [exact Hicon|]. split; [exact Hiw|]. split; [exact Hih|].
  split; [unfold program; rewrite (io_bind_run _ _ _ _ _ Hguard); exact Hmain|].
  split.
  { rewrite Htr, written_app, expected_paths.
    change (written [EvImport pil_names true]) with (@nil path).
    by rewrite app_nil_r. }
  split; [exact Hfs|]. split; [reflexivity|].
  split; [apply output_paths_NoDup|]. split; [reflexivity|].
  split.
  { intros p f Hin. rewrite Hfs. apply lookup_put_files; [|exact Hin].
    rewrite expected_paths. apply output_paths_NoDup. }
  split.
  { intros p Hp. rewrite Hfs. apply lookup_put_files_notin. by rewrite expected_paths. }
  split.
  { unfold expected_files, sizes. cbn [fmap list_fmap app take sized_file fst snd].
    repeat (constructor; [split; [reflexivity|split; reflexivity]|]). constructor. }
  split; [reflexivity|]. split; [reflexivity|]. reflexivity.
Qed.

Lemma pipeline_outputs_run :
  pil_importable (machine true 0 true) = true /\
  exists icon w',
    @create_icon reference_pillow full_ns 1024 = Ok icon /\
    @program reference_pillow (machine true 0 true) = (Ok tt, w') /\
    written (trace w')
    = output_paths [""; "repo"; "MCPControl"; "Assets.xcassets"; "AppIcon.appiconset"] /\
    fs w' !! [""; "repo"; "MCPControl"; "Assets.xcassets"; "AppIcon.appiconset"; "Contents.json"]
    = Some (JSONText contents 2).
Proof.
  split; [reflexivity|].
  destruct (@pipeline_outputs reference_pillow (machine true 0 true) eq_refl)
    as (icon & w' & H1 & _ & _ & H2 & H3 & _ & _ & _ & _ & H4 & _).
  - intros p _. reflexivity.
  - exists icon, w'. split; [exact H1|]. split; [exact H2|]. split; [exact H3|].
    apply H4. cbn. repeat first [apply list_elem_of_here | apply list_elem_of_further].
Defined.

(** * Further properties of the pipeline *)

Lemma writable_run_le wr l : (writable_run wr l <= length l)%nat.
Proof. induction l as [|p l IH]; cbn; [lia|]. destruct (wr p); lia. Qed.

Lemma writable_run_stop wr l1 l2 p :
  l1 !! writable_run wr l1 = Some p ->
  writable_run wr (l1 ++ l2) = writable_run wr l1.
Proof.
  induction l1 as [|q l1 IH]; cbn; [done|].
  destruct (wr q); [|done]. cbn. intros H. by rewrite IH.
Qed.

Lemma writable_run_all wr l1 l2 :
  l1 !! writable_run wr l1 = None ->
  writable_run wr (l1 ++ l2) = (length l1 + writable_run wr l2)%nat.
Proof.
  induction l1 as [|q l1 IH]; cbn; [done|].
  destruct (wr q); [|done]. cbn. intros H. by rewrite IH.
Qed.

(** The path the run stops at is the first one that cannot be written. *)
Lemma writable_run_spec wr l :
  (forall p, p ∈ take (writable_run wr l) l -> wr p = true) /\
  (forall p, l !! writable_run wr l = Some p -> wr p = false).
Proof.
  induction l as [|q l [IH1 IH2]]; cbn.
  - split; [intros p H; by apply elem_of_nil in H|done].
  - destruct (wr q) eqn:Hq; cbn.
    + split; [|exact IH2]. intros p [->|H]%elem_of_cons; [done|by apply IH1].
    + split; [intros p H; by apply elem_of_nil in H|]. intros p [= <-]. done.
Qed.

Lemma wrote_writable_fun w w' l : wrote w w' l -> writable w' = writable w.
Proof. by intros (_ & _ & (_ & _ & _ & H & _)). Qed.

Lemma write_file_fail p f w :
  writable w p = false -> write_file p f w = (Raise (OSError p), w).
Proof. intros H. unfold write_file. by rewrite H. Qed.

(** A directory that is there or can be made: [makedirs] returns, and the
    directories on the way are there afterwards. *)
Lemma makedirs_made p w :
  bool_decide (p ∈ dirs w) || writable w p = true ->
  exists w', makedirs p w = (Ok tt, w') /\ wrote w w' [] /\
    dirs w' = dirs w ∪ list_to_set (ancestors p).
Proof.
  intros Hw. unfold makedirs. rewrite Hw. eexists. split; [done|].
  split; [|reflexivity].
  unfold wrote, same_env, with_dirs. cbn. rewrite written_app. cbn. by rewrite !app_nil_r.
Qed.

Lemma ancestors_self (p : path) : p <> [] -> p <> [""%string] -> p ∈ ancestors p.
Proof.
  intros Hnil Hroot. unfold ancestors. apply list_elem_of_filter. split; [exact Hroot|].
  apply list_elem_of_fmap. exists (length p). split; [by rewrite firstn_all|].
  apply elem_of_seq. destruct p; [done|]. cbn. lia.
Qed.

(** A directory that is not there and cannot be made: [makedirs] raises
    OSError for the first directory on the way that cannot be made,
    having made the ones before it, and writes no file. *)
Lemma makedirs_fail p w :
  p <> [] -> p <> [""%string] -> p ∉ dirs w -> writable w p = false ->
  exists i d w',
    list_find (cannot_make w) (ancestors p) = Some (i, d) /\
    makedirs p w = (Raise (OSError d), w') /\ wrote w w' [] /\
    dirs w' = dirs w ∪ list_to_set (take i (ancestors p)).
Proof.
  intros Hnil Hroot Hd Hw. unfold makedirs.
  rewrite Hw, orb_false_r, bool_decide_eq_false_2 by done.
  destruct (list_find (cannot_make w) (ancestors p)) as [[i d]|] eqn:Hfind.
  - exists i, d. eexists. split; [reflexivity|]. split; [reflexivity|].
    split; [|reflexivity].
    unfold wrote, same_env, with_dirs. cbn. by rewrite !app_nil_r.
  - exfalso. apply list_find_None in Hfind. rewrite Forall_forall in Hfind.
    apply (Hfind p (ancestors_self p Hnil Hroot)). by split.
Qed.

Lemma output_dir_proper script :
  output_dir_of script <> [] /\ output_dir_of script <> [""%string].
Proof.
  unfold output_dir_of. split; intros H; apply (f_equal length) in H;
    rewrite length_app in H; cbn in H; lia.
Qed.

Lemma runs_until_write p f w : runs_until (write_file p f) w [(p, f)].
Proof.
  unfold runs_until. cbn. destruct (writable w p) eqn:Hp.
  - destruct (write_file_run p f w Hp) as (w' & Hrun & Hw). exists w'. by split.
  - exists w. split; [by apply write_file_fail|apply wrote_refl].
Qed.

Lemma runs_until_print line w : runs_until (print line) w [].
Proof. unfold runs_until. cbn. eexists. split; [reflexivity|apply wrote_print]. Qed.

Lemma runs_until_seq (m1 m2 : io unit) w l1 l2 :
  runs_until m1 w l1 ->
  (forall w1, wrote w w1 l1 -> runs_until m2 w1 l2) ->
  runs_until (_ ← m1; m2) w (l1 ++ l2).
Proof.
  intros (w1 & Hrun1 & Hw1) H2. unfold runs_until. rewrite fmap_app.
  set (wr := writable w) in *. set (k1 := writable_run wr l1.*1) in *.
  unfold outcome_at in Hrun1.
  destruct (l1.*1 !! k1) as [p|] eqn:Hk1.
  - exists w1. rewrite (writable_run_stop wr _ _ p Hk1). fold k1. split.
    + rewrite (io_bind_raise _ _ _ _ _ Hrun1). unfold outcome_at.
      by rewrite (lookup_app_l_Some _ _ _ _ Hk1).
    + apply lookup_lt_Some in Hk1. rewrite length_fmap in Hk1.
      by rewrite take_app_le by lia.
  - pose proof Hk1 as Hlen. apply lookup_ge_None in Hlen. rewrite length_fmap in Hlen.
    pose proof (writable_run_le wr l1.*1) as Hle. rewrite length_fmap in Hle. fold k1 in Hle.
    assert (k1 = length l1) as Hk by lia.
    rewrite Hk, firstn_all in Hw1.
    destruct (H2 w1 Hw1) as (w2 & Hrun2 & Hw2).
    rewrite (wrote_writable_fun _ _ _ Hw1) in Hrun2, Hw2. fold wr in Hrun2, Hw2.
    exists w2. rewrite (writable_run_all wr _ _ Hk1), length_fmap. split.
    + rewrite (io_bind_run _ _ _ _ _ Hrun1), Hrun2. unfold outcome_at.
      rewrite lookup_app_r by (rewrite length_fmap; lia).
      rewrite length_fmap.
      by replace (length l1 + writable_run wr l2.*1 - length l1)%nat
        with (writable_run wr l2.*1) by lia.
    + rewrite take_app_add' by done. by apply (wrote_trans _ _ _ _ _ Hw1).
Qed.

Lemma runs_until_for_each {A} (body : A -> io unit) (file_of : A -> path * file) l w :
  (forall a w, runs_until (body a) w [file_of a]) ->
  runs_until (for_each_io l body) w (file_of <$> l).
Proof.
  intros Hbody. revert w. induction l as [|a l IH]; intros w.
  - unfold runs_until. cbn. exists w. split; [reflexivity|apply wrote_refl].
  - change (file_of <$> a :: l) with ([file_of a] ++ (file_of <$> l)).
    cbn [for_each_io]. apply runs_until_seq; [apply Hbody|]. intros w1 _. apply IH.
Qed.

Section Pipeline.
Context {pil : Pillow}.

(** With its directory made, [generate_all_sizes] writes the ten sized
    files and [AppIcon.png], up to the first path that cannot be written. *)
Lemma generate_all_sizes_until ns icon out w :
  "Image" ∈ ns -> bool_decide (out ∈ dirs w) || writable w out = true ->
  runs_until (generate_all_sizes ns icon out) w
    ((sized_file icon out <$> sizes) ++ [(out ++ ["AppIcon.png"], PNG icon)]).
Proof.
  intros HI Hout. unfold generate_all_sizes.
  destruct (makedirs_made out w Hout) as (w1 & H1 & Hw1 & _).
  assert (forall m l, runs_until m w1 l -> runs_until (_ ← makedirs out; m) w l) as Hmk.
  { intros m l (w2 & Hrun & Hw2). exists w2.
    rewrite (io_bind_run _ _ _ _ _ H1).
    rewrite (wrote_writable_fun _ _ _ Hw1) in Hrun, Hw2. split; [exact Hrun|].
    apply (wrote_trans _ _ _ [] _ Hw1 Hw2). }
  apply Hmk. apply runs_until_seq.
  - apply (runs_until_for_each _ (sized_file icon out)).
    intros [size filename] v. cbn beta iota.
    unfold lift at 1. rewrite (global_in _ _ HI).
    unfold mbind at 1, io_bind at 1.
    apply (runs_until_seq _ _ _ [sized_file icon out (size, filename)] []);
      [apply runs_until_write|]. intros v1 _. apply runs_until_print.
  - intros w2 _.
    apply (runs_until_seq _ _ _ [(out ++ ["AppIcon.png"], PNG icon)] []);
      [apply runs_until_write|]. intros v1 _. apply runs_until_print.
Qed.

Lemma generate_all_sizes_no_directory ns icon out w :
  out <> [] -> out <> [""%string] -> out ∉ dirs w -> writable w out = false ->
  exists i d w',
    list_find (cannot_make w) (ancestors out) = Some (i, d) /\
    generate_all_sizes ns icon out w = (Raise (OSError d), w') /\ wrote w w' [] /\
    dirs w' = dirs w ∪ list_to_set (take i (ancestors out)).
Proof.
  intros Hnil Hroot Hd Hout.
  destruct (makedirs_fail out w Hnil Hroot Hd Hout) as (i & d & w' & Hfind & Hrun & Hw & Hdirs).
  exists i, d, w'. split; [exact Hfind|]. split; [|by split].
  unfold generate_all_sizes. by rewrite (io_bind_raise _ _ _ _ _ Hrun).
Qed.

Lemma update_contents_json_until out w :
  runs_until (update_contents_json out) w [(out ++ ["Contents.json"], JSONText contents 2)].
Proof.
  unfold update_contents_json.
  apply (runs_until_seq _ _ _ [(out ++ ["Contents.json"], JSONText contents 2)] []);
    [apply runs_until_write|]. intros v1 _. apply runs_until_print.
Qed.

(** [main] with an icon in hand and its directory there or makeable. *)
Lemma main_until ns icon w :
  "Image" ∈ ns -> create_icon ns 1024 = Ok icon ->
  bool_decide (output_dir_of (script_file w) ∈ dirs w)
    || writable w (output_dir_of (script_file w)) = true ->
  exists w',
    main ns w
    = (outcome_at (output_paths (output_dir_of (script_file w)))
         (writable_run (writable w) (output_paths (output_dir_of (script_file w)))), w') /\
    wrote w w' (take (writable_run (writable w) (output_paths (output_dir_of (script_file w))))
                  (expected_files icon (output_dir_of (script_file w)))).
Proof.
  intros HI Hicon Hout. unfold main.
  rewrite (io_bind_run _ _ _ _ _ (print_run _ w)).
  rewrite Hicon. unfold lift at 1. unfold mbind at 1, io_bind at 1.
  unfold mbind at 1, io_bind at 1. cbn [script_file emit].
  fold (output_dir_of (script_file w)). set (out := output_dir_of (script_file w)) in *.
  rewrite (io_bind_run _ _ _ _ _ (print_run _ _)).
  pose proof (wrote_trans _ _ _ _ _ (wrote_print "Generating MCP Control app icon..." w)
                (wrote_print ("Output directory: " +:+ show_path out) _)) as Hw0.
  cbn [app] in Hw0.
  match type of Hw0 with wrote _ ?v _ => set (w0 := v) in * end.
  assert (runs_until
            (_ ← generate_all_sizes ns icon out;
             _ ← update_contents_json out;
             print (String (Ascii.ascii_of_nat 10)
                      "Done! Rebuild the app in Xcode to see the new icon."))
            w0 (expected_files icon out)) as (w' & Hrun & Hw').
  { change (expected_files icon out)
      with (((sized_file icon out <$> sizes) ++ [(out ++ ["AppIcon.png"], PNG icon)])
            ++ ([(out ++ ["Contents.json"], JSONText contents 2)] ++ [])).
    apply runs_until_seq.
    - apply generate_all_sizes_until; [exact HI|].
      by rewrite (wrote_writable _ _ _ _ Hw0).
    - intros w1 _. apply runs_until_seq; [apply update_contents_json_until|].
      intros w2 _. apply runs_until_print. }
  rewrite (wrote_writable_fun _ _ _ Hw0), expected_paths in Hrun, Hw'.
  exists w'. split; [exact Hrun|]. apply (wrote_trans _ _ _ [] _ Hw0 Hw').
Qed.

(** The program on a machine where PIL is importable and the output
    directory is there or can be made. *)
Lemma program_until_made w :
  pil_importable w = true ->
  bool_decide (output_dir_of (script_file w) ∈ dirs w)
    || writable w (output_dir_of (script_file w)) = true ->
  exists icon w',
    create_icon full_ns 1024 = Ok icon /\
    program w
    = (outcome_at (output_paths (output_dir_of (script_file w)))
         (writable_run (writable w) (output_paths (output_dir_of (script_file w)))), w') /\
    wrote (emit (EvImport pil_names true) w) w'
      (take (writable_run (writable w) (output_paths (output_dir_of (script_file w))))
         (expected_files icon (output_dir_of (script_file w)))).
Proof.
  intros Hpil Hout.
  destruct (create_icon_deterministic_size 1024 valid_size_1024) as (icon & Hicon & _).
  destruct (main_until full_ns icon (emit (EvImport pil_names true) w)) as (w' & Hmain & Hw').
  { apply full_ns_names. unfold pil_names. apply list_elem_of_here. }
  { exact Hicon. }
  { exact Hout. }
  exists icon, w'. split; [exact Hicon|]. split; [|exact Hw'].
  unfold program. rewrite (io_bind_run _ _ _ _ _ (import_guard_direct w Hpil)). exact Hmain.
Qed.

(** The program on a machine where PIL is importable and the output
    directory can be made. *)
Lemma program_until w :
  pil_importable w = true -> writable w (output_dir_of (script_file w)) = true ->
  exists icon w',
    create_icon full_ns 1024 = Ok icon /\
    program w
    = (outcome_at (output_paths (output_dir_of (script_file w)))
         (writable_run (writable w) (output_paths (output_dir_of (script_file w)))), w') /\
    wrote (emit (EvImport pil_names true) w) w'
      (take (writable_run (writable w) (output_paths (output_dir_of (script_file w))))
         (expected_files icon (output_dir_of (script_file w)))).
Proof.
  intros Hpil Hout. apply (program_until_made w Hpil). rewrite Hout. apply orb_true_r.
Qed.


(** The program on a machine where PIL is importable and the output
    directory is not there and cannot be made. *)
Lemma program_no_directory w :
  pil_importable w = true ->
  output_dir_of (script_file w) ∉ dirs w ->
  writable w (output_dir_of (script_file w)) = false ->
  exists i d w',
    list_find (cannot_make w) (ancestors (output_dir_of (script_file w))) = Some (i, d) /\
    program w = (Raise (OSError d), w') /\
    wrote (emit (EvImport pil_names true) w) w' [] /\
    dirs w' = dirs w ∪ list_to_set (take i (ancestors (output_dir_of (script_file w)))).
Proof.
  intros Hpil Hd Hout.
  destruct (create_icon_deterministic_size 1024 valid_size_1024) as (icon & Hicon & _).
  unfold program. rewrite (io_bind_run _ _ _ _ _ (import_guard_direct w Hpil)).
  unfold main. rewrite (io_bind_run _ _ _ _ _ (print_run _ _)).
  rewrite Hicon. unfold lift at 1. unfold mbind at 1, io_bind at 1.
  unfold mbind at 1, io_bind at 1. cbn [script_file emit].
  fold (output_dir_of (script_file w)). set (out := output_dir_of (script_file w)) in *.
  rewrite (io_bind_run _ _ _ _ _ (print_run _ _)).
  destruct (output_dir_proper (script_file w)) as [Hnil Hroot]. fold out in Hnil, Hroot.
  match goal with |- context [(generate_all_sizes _ _ _ ≫= _) ?v] =>
    destruct (generate_all_sizes_no_directory full_ns icon out v Hnil Hroot Hd Hout)
      as (i & d & w' & Hfind & Hrun & Hw & Hdirs);
    rewrite (io_bind_raise _ _ v _ _ Hrun)
  end.
  exists i, d, w'. split; [exact Hfind|]. split; [reflexivity|]. split; [|exact Hdirs].
  apply (wrote_trans _ _ _ [] [] (wrote_trans _ _ _ [] [] (wrote_print _ _) (wrote_print _ _)) Hw).
Qed.

End Pipeline.

Lemma writable_run_unique wr l k p :
  l !! k = Some p -> wr p = false -> (forall q, q ∈ take k l -> wr q = true) ->
  writable_run wr l = k.
Proof.
  revert k. induction l as [|q l IH]; intros k Hk Hp Hall; [done|].
  destruct k as [|k]; cbn in *.
  - injection Hk as ->. by rewrite Hp.
  - rewrite (Hall q) by left. f_equal. apply IH; [done|done|].
    intros r Hr. apply Hall. by right.
Qed.

Lemma writable_run_full wr l :
  (forall q, q ∈ l -> wr q = true) -> writable_run wr l = length l.
Proof.
  induction l as [|q l IH]; intros Hall; [done|]. cbn.
  rewrite (Hall q) by left. f_equal. apply IH. intros r Hr. apply Hall. by right.
Qed.

Lemma outcome_at_Ok paths k :
  (k <= length paths)%nat -> outcome_at paths k = Ok tt -> k = length paths.
Proof.
  intros Hle. unfold outcome_at. destruct (paths !! k) eqn:Hk; [done|]. intros _.
  apply lookup_ge_None in Hk. apply Nat.le_antisymm; [exact Hle|exact Hk].
Qed.

Lemma outcome_at_Some paths k p :
  paths !! k = Some p -> outcome_at paths k = Raise (OSError p).
Proof. intros H. unfold outcome_at. unfold path in *. by rewrite H. Qed.

Lemma outcome_at_None paths k :
  paths !! k = None -> outcome_at paths k = Ok tt.
Proof. intros H. unfold outcome_at. unfold path in *. by rewrite H. Qed.

Lemma installs_app tr1 tr2 : installs (tr1 ++ tr2) = installs tr1 ++ installs tr2.
Proof. unfold installs. apply omap_app. Qed.

Lemma installs_console evs : Forall console_or_file evs -> installs evs = [].
Proof.
  induction 1 as [|e evs He _ IH]; [done|].
  destruct e; cbn in *; try done.
Qed.


(** ** Events of the steps *)

Lemma only_bind {A B} P (m : io A) (k : A -> io B) :
  only P m -> (forall a, only P (k a)) -> only P (m ≫= k).
Proof.
  intros Hm Hk w. destruct (Hm w) as (evs1 & Ht1 & HP1).
  unfold mbind, io_bind. destruct (m w) as [[a|e] w1] eqn:Hmw; cbn in *.
  - destruct (Hk a w1) as (evs2 & Ht2 & HP2). exists (evs1 ++ evs2).
    rewrite Ht2, Ht1, app_assoc. split; [done|]. by apply Forall_app.
  - by exists evs1.
Qed.

Lemma only_lift {A} P (r : result A) : only P (lift r).
Proof. intros w. exists []. cbn. by rewrite app_nil_r. Qed.

Lemma only_read {A} P (f : world -> A) : only P (fun w => (Ok (f w), w)).
Proof. intros w. exists []. cbn. by rewrite app_nil_r. Qed.

Lemma only_print (P : event -> Prop) line : P (EvPrint line) -> only P (print line).
Proof. intros HP w. exists [EvPrint line]. cbn. split; [done|]. by apply Forall_singleton. Qed.

Lemma only_write_file (P : event -> Prop) p f : P (EvWrite p) -> only P (write_file p f).
Proof.
  intros HP w. unfold write_file. destruct (writable w p); cbn.
  - exists [EvWrite p]. split; [done|]. by apply Forall_singleton.
  - exists []. by rewrite app_nil_r.
Qed.

Lemma only_makedirs (P : event -> Prop) p : P (EvMakedirs p) -> only P (makedirs p).
Proof.
  intros HP w. unfold makedirs. destruct (bool_decide (p ∈ dirs w) || writable w p); cbn.
  - exists [EvMakedirs p]. split; [done|]. by apply Forall_singleton.
  - destruct (list_find (cannot_make w) (ancestors p)) as [[i d]|]; cbn.
    + by exists [].
    + exists []. by rewrite app_nil_r.
Qed.

Lemma only_for_each_io {A} P (body : A -> io unit) l :
  (forall a, only P (body a)) -> only P (for_each_io l body).
Proof.
  intros Hbody. induction l as [|a l IH]; cbn [for_each_io].
  - intros w. exists []. cbn. by rewrite app_nil_r.
  - apply only_bind; [apply Hbody|]. intros _. exact IH.
Qed.

(** [main] touches the console and the file system only: it imports
    nothing and starts no process. *)
Lemma main_console_or_file {pil : Pillow} ns : only console_or_file (main ns).
Proof.
  unfold main.
  apply only_bind; [by apply only_print|]. intros _.
  apply only_bind; [apply only_lift|]. intros icon.
  apply only_bind; [apply only_read|]. intros script.
  apply only_bind; [by apply only_print|]. intros _.
  apply only_bind.
  { unfold generate_all_sizes.
    apply only_bind; [by apply only_makedirs|]. intros _.
    apply only_bind.
    - apply only_for_each_io. intros [size filename].
      apply only_bind; [apply only_lift|]. intros _.
      apply only_bind; [by apply only_write_file|]. intros _. by apply only_print.
    - intros _. apply only_bind; [by apply only_write_file|]. intros _. by apply only_print. }
  intros _. apply only_bind.
  { unfold update_contents_json.
    apply only_bind; [by apply only_write_file|]. intros _. by apply only_print. }
  intros _. by apply only_print.
Qed.

(** ** Directories made by the steps *)

Lemma makes_only_bind {A B} allowed (m : io A) (k : A -> io B) :
  makes_only allowed m -> (forall a, makes_only allowed (k a)) -> makes_only allowed (m ≫= k).
Proof.
  intros Hm Hk w d. specialize (Hm w). unfold mbind, io_bind.
  destruct (m w) as [[a|e] w1] eqn:Hmw; cbn in *.
  - intros Hd. destruct (Hk a w1 d Hd) as [H1|H1]; [by apply Hm|by right].
  - apply Hm.
Qed.

Lemma makes_only_same {A} allowed (m : io A) :
  (forall w, dirs (m w).2 = dirs w) -> makes_only allowed m.
Proof. intros H w d Hd. rewrite H in Hd. by left. Qed.

Lemma makes_only_makedirs p : makes_only (ancestors p) (makedirs p).
Proof.
  intros w d. unfold makedirs.
  destruct (bool_decide (p ∈ dirs w) || writable w p); cbn.
  - rewrite elem_of_union, elem_of_list_to_set. tauto.
  - destruct (list_find (cannot_make w) (ancestors p)) as [[i q]|]; cbn; [|tauto].
    rewrite elem_of_union, elem_of_list_to_set. intros [H|H]; [by left|right].
    rewrite <- (take_drop i (ancestors p)). apply elem_of_app. by left.
Qed.

Lemma makes_only_for_each_io {A} allowed (body : A -> io unit) l :
  (forall a, makes_only allowed (body a)) -> makes_only allowed (for_each_io l body).
Proof.
  intros Hbody. induction l as [|a l IH]; cbn [for_each_io].
  - by apply makes_only_same.
  - apply makes_only_bind; [apply Hbody|]. intros _. exact IH.
Qed.

Lemma makes_only_write_file allowed p f : makes_only allowed (write_file p f).
Proof. apply makes_only_same. intros w. unfold write_file. by destruct (writable w p). Qed.

(** The import guard makes no directory, moves no file and leaves the
    script where it is. *)
Lemma import_guard_frame w :
  dirs (import_guard w).2 = dirs w /\ script_file (import_guard w).2 = script_file w.
Proof.
  unfold import_guard, try_except_ImportError, import_PIL, mbind, io_bind, print, check_call.
  destruct (pil_importable w); cbn; [done|].
  destruct (pip_returncode w =? 0); cbn; [|done].
  by destruct (pip_installs w).
Qed.

(** [main] makes the output directory and the directories on the way to
    it, and no other. *)
Lemma main_makes_only {pil : Pillow} ns w d :
  d ∈ dirs (main ns w).2 ->
  d ∈ dirs w \/ d ∈ ancestors (output_dir_of (script_file w)).
Proof.
  unfold main. rewrite (io_bind_run _ _ _ _ _ (print_run _ w)).
  destruct (create_icon ns 1024) as [icon|e]; unfold lift at 1;
    unfold mbind at 1, io_bind at 1; [|cbn; tauto].
  unfold mbind at 1, io_bind at 1. cbn [script_file emit].
  fold (output_dir_of (script_file w)). set (out := output_dir_of (script_file w)).
  match goal with |- _ ∈ dirs (?m ?v).2 -> _ =>
    assert (makes_only (ancestors out) m) as Hm; [|exact (Hm v d)]
  end.
  apply makes_only_bind; [by apply makes_only_same|]. intros _.
  apply makes_only_bind.
  { unfold generate_all_sizes.
    apply makes_only_bind; [apply makes_only_makedirs|]. intros _.
    apply makes_only_bind.
    - apply makes_only_for_each_io. intros [size filename].
      apply makes_only_bind; [by apply makes_only_same|]. intros _.
      apply makes_only_bind; [apply makes_only_write_file|]. intros _.
      by apply makes_only_same.
    - intros _. apply makes_only_bind; [apply makes_only_write_file|]. intros _.
      by apply makes_only_same. }
  intros _. apply makes_only_bind.
  { unfold update_contents_json.
    apply makes_only_bind; [apply makes_only_write_file|]. intros _. by apply makes_only_same. }
  intros _. by apply makes_only_same.
Qed.

Lemma program_makes_only {pil : Pillow} w d :
  d ∈ dirs (program w).2 ->
  d ∈ dirs w \/ d ∈ ancestors (output_dir_of (script_file w)).
Proof.
  unfold program, mbind, io_bind.
  destruct (import_guard_frame w) as [Hdirs Hscript].
  destruct (import_guard w) as [[ns|e] w1]; cbn [snd] in *.
  - intros Hd. apply main_makes_only in Hd. by rewrite Hdirs, Hscript in Hd.
  - rewrite Hdirs. tauto.
Qed.

Lemma elem_of_take_fmap (l : list (path * file)) k p : p ∈ (take k l).*1 -> p ∈ l.*1.
Proof.
  intros H. rewrite <- (take_drop k l), fmap_app. apply elem_of_app. by left.
Qed.

Section PipelineProperties.
Context {pil : Pillow}.

(** X1: when PIL is importable and the output directory can be made, a run
    whose first unwritable output path is the [k]-th raises OSError for
    that path, having written exactly the [k] files before it, in order. *)
Theorem pipeline_stops_at_unwritable (w : world) (k : nat) (p : path) :
  let out := output_dir_of (script_file w) in
  pil_importable w = true -> writable w out = true ->
  output_paths out !! k = Some p -> writable w p = false ->
  (forall q, q ∈ take k (output_paths out) -> writable w q = true) ->
  exists icon w',
    create_icon full_ns 1024 = Ok icon /\
    program w = (Raise (OSError p), w') /\
    fs w' = foldl put_file (fs w) (take k (expected_files icon out)) /\
    written (trace w') = written (trace w) ++ take k (output_paths out).
Proof.
  cbv zeta. intros Hpil Hout Hk Hp Hall.
  destruct (program_until w Hpil Hout) as (icon & w' & Hicon & Hrun & Hfs & Htr & _).
  rewrite (writable_run_unique _ _ k p Hk Hp Hall) in Hrun, Hfs, Htr.
  rewrite (outcome_at_Some _ _ _ Hk) in Hrun.
  exists icon, w'. split; [exact Hicon|]. split; [exact Hrun|]. split; [exact Hfs|].
  rewrite Htr. cbn [trace emit]. rewrite written_app, fmap_take, expected_paths.
  change (written [EvImport pil_names true]) with (@nil path). by rewrite app_nil_r.
Qed.


(** X3: on every machine and whatever the outcome, the files the script
    writes are a prefix of its twelve output paths, all twelve if it
    returns, and the directories it makes are the output directory and
    those on the way to it; when PIL is importable from the start, so that
    pip is not run, no other file changes. *)
Theorem pipeline_writes_only_outputs (w : world) :
  let out := output_dir_of (script_file w) in
  exists k,
    written (trace (program w).2) = written (trace w) ++ take k (output_paths out) /\
    ((program w).1 = Ok tt -> k = 12%nat) /\
    (pil_importable w = true ->
       forall p, p ∉ output_paths out -> fs (program w).2 !! p = fs w !! p) /\
    (forall d, d ∈ dirs (program w).2 -> d ∈ dirs w \/ d ∈ ancestors out).
Proof.
  cbv zeta.
  assert (forall d, d ∈ dirs (program w).2 ->
            d ∈ dirs w \/ d ∈ ancestors (output_dir_of (script_file w))) as Hmade
    by (intros d; apply program_makes_only).
  destruct (pil_importable w) eqn:Hpil.
  - destruct (bool_decide (output_dir_of (script_file w) ∈ dirs w)
              || writable w (output_dir_of (script_file w))) eqn:Hout.
    + destruct (program_until_made w Hpil Hout) as (icon & w' & _ & Hrun & Hfs & Htr & _).
      exists (writable_run (writable w) (output_paths (output_dir_of (script_file w)))).
      split; [|split; [|split; [|exact Hmade]]].
      * rewrite Hrun. cbn [snd].
        rewrite Htr. cbn [trace emit]. rewrite written_app, fmap_take, expected_paths.
        change (written [EvImport pil_names true]) with (@nil path). by rewrite app_nil_r.
      * rewrite Hrun. cbn [fst]. intros Hok.
        apply (outcome_at_Ok _ _ (writable_run_le _ _)) in Hok. exact Hok.
      * intros _ p Hp. rewrite Hrun. cbn [snd]. rewrite Hfs. cbn [fs emit].
        apply lookup_put_files_notin.
        intros Hin. apply Hp. rewrite <- (expected_paths icon (output_dir_of (script_file w))).
        by apply (elem_of_take_fmap _ _ _ Hin).
    + apply orb_false_elim in Hout as [Hd Hout]. apply bool_decide_eq_false in Hd.
      destruct (program_no_directory w Hpil Hd Hout)
        as (i & d & w' & _ & Hrun & (Hfs & Htr & _) & _).
      exists 0%nat. split; [|split; [|split; [|exact Hmade]]].
      * rewrite Hrun. cbn [snd]. rewrite Htr.
        cbn [trace emit fmap list_fmap take]. rewrite written_app.
        change (written [EvImport pil_names true]) with (@nil path). by rewrite !app_nil_r.
      * by rewrite Hrun.
      * intros _ p _. rewrite Hrun. cbn [snd]. by rewrite Hfs.
  - exists 0%nat. cbn [take]. rewrite app_nil_r.
    split; [|split; [|split; [discriminate|exact Hmade]]].
    + destruct (Z.eq_dec (pip_returncode w) 0) as [Hrc|Hrc].
      * destruct (import_guard_retry w Hpil Hrc) as (w1 & Hg & Htr & _).
        assert (written (trace w1) = written (trace w)) as Hwr1.
        { rewrite Htr, written_app. cbn. apply app_nil_r. }
        destruct (pip_installs w).
        -- assert (program w = (Raise (NameError "ImageChops"),
                                emit (EvPrint "Generating MCP Control app icon...") w1)) as Hprog.
           { unfold program. rewrite (io_bind_run _ _ _ _ _ Hg).
             exact (main_raises _ _ _ (create_icon_fallback 1024 valid_size_1024)). }
           rewrite Hprog. cbn [snd trace emit]. rewrite written_app, Hwr1. cbn.
           by rewrite app_nil_r.
        -- unfold program. rewrite (io_bind_raise _ _ _ _ _ Hg). exact Hwr1.
      * unfold program.
        rewrite (io_bind_raise _ _ _ _ _ (import_guard_install_fails w Hpil Hrc)).
        cbn [snd trace emit]. rewrite !written_app. cbn. by rewrite !app_nil_r.
    + intros Hok. exfalso.
      destruct (Z.eq_dec (pip_returncode w) 0) as [Hrc|Hrc].
      * destruct (import_guard_retry w Hpil Hrc) as (w1 & Hg & _).
        destruct (pip_installs w).
        -- assert (program w = (Raise (NameError "ImageChops"),
                                emit (EvPrint "Generating MCP Control app icon...") w1)) as Hprog.
           { unfold program. rewrite (io_bind_run _ _ _ _ _ Hg).
             exact (main_raises _ _ _ (create_icon_fallback 1024 valid_size_1024)). }
           assert ((program w).1 = Raise (NameError "ImageChops")) as Hfst
             by (exact (f_equal fst Hprog)).
           pose proof (eq_trans (eq_sym Hfst) Hok) as Habs. discriminate Habs.
        -- assert (program w = (Raise (ImportError "PIL"), w1)) as Hprog
             by (unfold program; apply (io_bind_raise _ _ _ _ _ Hg)).
           assert ((program w).1 = Raise (ImportError "PIL")) as Hfst
             by (exact (f_equal fst Hprog)).
           pose proof (eq_trans (eq_sym Hfst) Hok) as Habs. discriminate Habs.
      * pose proof (io_bind_raise _ (@main pil) _ _ _ (import_guard_install_fails w Hpil Hrc))
          as Hprog.
        assert ((program w).1 = Raise (CalledProcessError (pip_returncode w))) as Hfst
          by (exact (f_equal fst Hprog)).
        pose proof (eq_trans (eq_sym Hfst) Hok) as Habs. discriminate Habs.
Qed.


(** X5: on every machine and whatever the outcome, the program runs pip
    exactly when its first import of PIL fails, and then once, with the
    command line [executable -m pip install Pillow -q]. *)
Theorem program_runs_pip_at_most_once (w : world) :
  installs (trace (program w).2)
  = installs (trace w) ++ (if pil_importable w then [] else [pip_argv w]).
Proof.
  assert (forall ns v, installs (trace (main ns v).2) = installs (trace v)) as Hmain.
  { intros ns v. destruct (main_console_or_file ns v) as (evs & Ht & HP).
    by rewrite Ht, installs_app, (installs_console evs HP), app_nil_r. }
  destruct (pil_importable w) eqn:Hpil.
  - unfold program. rewrite (io_bind_run _ _ _ _ _ (import_guard_direct w Hpil)).
    cbv beta. rewrite (Hmain full_ns (emit (EvImport pil_names true) w)).
    cbn [trace emit]. rewrite installs_app. cbn. by rewrite !app_nil_r.
  - destruct (Z.eq_dec (pip_returncode w) 0) as [Hrc|Hrc].
    + destruct (import_guard_retry w Hpil Hrc) as (w1 & Hg & Htr & _).
      assert (installs (trace w1) = installs (trace w) ++ [pip_argv w]) as Hin1.
      { rewrite Htr, installs_app. reflexivity. }
      destruct (pip_installs w).
      * unfold program. rewrite (io_bind_run _ _ _ _ _ Hg). cbv beta.
        rewrite (Hmain fallback_ns w1). exact Hin1.
      * unfold program. rewrite (io_bind_raise _ _ _ _ _ Hg). exact Hin1.
    + unfold program. rewrite (io_bind_raise _ _ _ _ _ (import_guard_install_fails w Hpil Hrc)).
      cbn [snd trace emit]. rewrite !installs_app. cbn. by rewrite !app_nil_r.
Qed.

End PipelineProperties.

Lemma pipeline_stops_at_unwritable_AppIcon :
  pil_importable
    (locked_machine [""; "repo"; "MCPControl"; "Assets.xcassets"; "AppIcon.appiconset";
                     "AppIcon.png"]) = true /\
  exists icon w',
    @create_icon reference_pillow full_ns 1024 = Ok icon /\
    @program reference_pillow
      (locked_machine [""; "repo"; "MCPControl"; "Assets.xcassets"; "AppIcon.appiconset";
                       "AppIcon.png"])
    = (Raise (OSError [""; "repo"; "MCPControl"; "Assets.xcassets"; "AppIcon.appiconset";
                       "AppIcon.png"]), w').
Proof.
  split; [reflexivity|].
  destruct (@pipeline_stops_at_unwritable reference_pillow
              (locked_machine [""; "repo"; "MCPControl"; "Assets.xcassets";
                               "AppIcon.appiconset"; "AppIcon.png"])
              10%nat
              [""; "repo"; "MCPControl"; "Assets.xcassets"; "AppIcon.appiconset";
               "AppIcon.png"])
    as (icon & w' & Hicon & Hrun & _).
  - reflexivity.
  - vm_compute. reflexivity.
  - reflexivity.
  - vm_compute. reflexivity.
  - intros q Hq. cbn in Hq.
    repeat (apply elem_of_cons in Hq as [->|Hq]; [vm_compute; reflexivity|]).
    by apply elem_of_nil in Hq.
  - exists icon, w'. split; [exact Hicon|exact Hrun].
Defined.



(** * Further properties of the renderer *)

(** ** The gradient between its stops *)

(** The colour at a position between 0 and 1 lies between the bottom and
    the top stop, channel by channel. *)
Lemma gradient_color_bounds t :
  within 0 1 t ->
  t = S754_zero false \/
    (exists m e, t = S754_finite false m e /\ Z.pos (digits2_pos m) = 53) ->
  exists r g b, gradient_color (PFloat t) = Ok (r, g, b) /\
    200 <= r <= 255 /\ 30 <= g <= 120 /\ 25 <= b <= 100.
Proof.
  intros Ht [->|(m & e & -> & Hd)].
  { rewrite gradient_color_zero. exists 255, 120, 100. split; [reflexivity|lia]. }
  pose proof Ht as [Hfin [Hl Hu]]. cbn [SF2Q cond_Zopp] in Hl, Hu.
  pose proof (flt_half m e Hd) as Hcmp.
  unfold gradient_color. cbn [py_lt].
  destruct (flt (S754_finite false m e) c_0_5).
  - destruct (py_mul_2_half (S754_finite false m e)) as (t2 & Ht2 & Hw2).
    { split; [done|]. cbn [SF2Q cond_Zopp]. split; lra. }
    rewrite Ht2. cbn [mbind result_bind].
    destruct (lerp3_ok grad_top grad_mid t2 0 1) as (r & g & b & Hc & Hr & Hg & Hb);
      try (cbn; lia); [exact Hw2|].
    rewrite Hc. exists r, g, b. split; [reflexivity|]. cbn in Hr, Hg, Hb. lia.
  - cbn [py_sub as_float mbind result_bind].
    assert (Hc5 : finite c_0_5 /\ (SF2Q c_0_5 == 1 # 2)%Q /\ expo c_0_5 <= 0).
    { split; [by vm_compute|]. split; [by vm_compute|]. vm_compute. discriminate. }
    destruct Hc5 as (Hcf & Hcv & Hce).
    assert (expo (S754_finite false m e) <= 0) as Het.
    { apply expo_le; [lia|]. split; [done|]. change (inject_Z (2 ^ 0)) with 1%Q.
      cbn [SF2Q cond_Zopp]. split; lra. }
    assert (Hdw : within 0 (1 # 2) (fsub (S754_finite false m e) c_0_5)).
    { apply (rounds_within _ _ _ _
               (fsub_fin (S754_finite false m e) c_0_5 Hfin Hcf ltac:(lia) ltac:(lia))).
      - left. apply repr_0.
      - apply (srepr_ext (dy 1 1)); [reflexivity|]. apply dy_srepr; [|lia].
        change (2 ^ 53) with 9007199254740992. lia.
      - rewrite Hcv. cbn [SF2Q cond_Zopp]. split; lra. }
    destruct (py_mul_2_half _ Hdw) as (t2 & Ht2 & Hw2).
    rewrite Ht2. cbn [mbind result_bind].
    destruct (lerp3_ok grad_mid grad_bottom t2 0 1) as (r & g & b & Hc & Hr & Hg & Hb);
      try (cbn; lia); [exact Hw2|].
    rewrite Hc. exists r, g, b. split; [reflexivity|]. cbn in Hr, Hg, Hb. lia.
Qed.

(** Inside the glyph's extent the position of a row is a zero or a
    positive normal float between 0 and 1. *)
Lemma gradient_t_inside N g y :
  valid_size N -> geometry_of N g -> top g <= y <= bottom g ->
  exists f, gradient_t g y = Ok (PFloat f) /\ within 0 1 f /\
    (f = S754_zero false \/
     exists m e, f = S754_finite false m e /\ Z.pos (digits2_pos m) = 53).
Proof.
  intros HN Hg Hy. destruct (geometry_extent N g HN Hg) as (Ht0 & Htb & HbN & Hh).
  change (2 ^ 31) with 2147483648 in Hh.
  unfold gradient_t.
  replace (y <? top g) with false by lia. replace (bottom g <? y) with false by lia.
  destruct (Z.eq_dec y (top g)) as [->|Hne].
  - rewrite Z.sub_diag, truediv_zero by lia. eexists. split; [done|].
    split; [|by left]. split; [done|]. cbn. split; lra.
  - destruct (truediv_pos (y - top g) (bottom g - top g)) as (m & e & Hdiv & Hr & Hd).
    { change (2 ^ 31) with 2147483648. lia. }
    { change (2 ^ 31) with 2147483648. lia. }
    eexists. split; [exact Hdiv|]. split; [|right; by exists m, e].
    apply (rounds_within _ _ _ _ Hr).
    + left. apply repr_0.
    + apply (srepr_Z 1). done.
    + assert (0 < inject_Z (bottom g - top g))%Q as Hhq.
      { change 0%Q with (inject_Z 0). rewrite <- Zlt_Qlt. lia. }
      assert (0 <= inject_Z (y - top g))%Q as Hkq by (apply inject_Z_nonneg; lia).
      assert (inject_Z (y - top g) <= inject_Z (bottom g - top g))%Q as Hkh
        by (rewrite <- Zle_Qle; lia).
      split.
      * apply Qle_shift_div_l; [done|]. lra.
      * apply Qle_shift_div_r; [done|]. change (inject_Z 1) with 1%Q. lra.
Qed.

(** X6: for every canvas dimension N every pixel the gradient loop paints
    is opaque and has each channel between the bottom stop's and the top
    stop's; the rows above the glyph's top carry the top stop and the rows
    below its bottom the bottom stop. *)
Theorem gradient_within_stops (N : Z) :
  valid_size N ->
  exists g img,
    glyph_geometry N = Ok g /\
    paint_gradient N g (blank N N (0, 0, 0, 0)) = Ok img /\
    forall x y, 0 <= x < N -> 0 <= y < N ->
      exists r gr b,
        px img x y = (r, gr, b, 255) /\
        grad_bottom.1.1 <= r <= grad_top.1.1 /\
        grad_bottom.1.2 <= gr <= grad_top.1.2 /\
        grad_bottom.2 <= b <= grad_top.2 /\
        (y < top g -> (r, gr, b) = grad_top) /\
        (bottom g < y -> (r, gr, b) = grad_bottom).
Proof.
  intros HN. pose proof HN as [HN0 HN1].
  destruct (glyph_geometry_ok N ltac:(lia)) as (g & Hg & Hgeo).
  destruct (paint_gradient_ok N g (blank N N (0, 0, 0, 0)) HN Hgeo eq_refl eq_refl)
    as (img & Hrun & _ & _ & Hpx).
  exists g, img. split; [exact Hg|]. split; [exact Hrun|].
  intros x y Hx Hy. destruct (Hpx x y Hx Hy) as (r & gr & b & Hrow & Hp).
  exists r, gr, b. split; [exact Hp|].
  pose proof (geometry_extent N g HN Hgeo) as Hext.
  unfold gradient_row, gradient_t in Hrow.
  destruct (Z.ltb_spec y (top g)) as [Hlt|Hge].
  { cbn [mbind result_bind] in Hrow. rewrite gradient_color_int_0 in Hrow.
    injection Hrow as <- <- <-. cbn. repeat split; try lia; intros; try reflexivity; lia. }
  destruct (Z.ltb_spec (bottom g) y) as [Hgt|Hle].
  { cbn [mbind result_bind] in Hrow. rewrite gradient_color_int_1 in Hrow.
    injection Hrow as <- <- <-. cbn. repeat split; try lia; intros; try reflexivity; lia. }
  destruct (gradient_t_inside N g y HN Hgeo ltac:(lia)) as (f & Hf & Hw & Hshape).
  unfold gradient_t in Hf.
  replace (y <? top g) with false in Hf by lia.
  replace (bottom g <? y) with false in Hf by lia.
  rewrite Hf in Hrow. cbn [mbind result_bind] in Hrow.
  destruct (gradient_color_bounds f Hw Hshape) as (r' & g' & b' & Hc & Hr & Hgb & Hb).
  rewrite Hc in Hrow. injection Hrow as <- <- <-. cbn. repeat split; try lia; intros; lia.
Qed.

Lemma gradient_within_stops_1024 :
  valid_size 1024 /\
  exists g img,
    glyph_geometry 1024 = Ok g /\
    paint_gradient 1024 g (blank 1024 1024 (0, 0, 0, 0)) = Ok img /\
    forall x y, 0 <= x < 1024 -> 0 <= y < 1024 ->
      exists r gr b,
        px img x y = (r, gr, b, 255) /\
        grad_bottom.1.1 <= r <= grad_top.1.1 /\
        grad_bottom.1.2 <= gr <= grad_top.1.2 /\
        grad_bottom.2 <= b <= grad_top.2 /\
        (y < top g -> (r, gr, b) = grad_top) /\
        (bottom g < y -> (r, gr, b) = grad_bottom).
Proof.
  split; [unfold valid_size, INT_MAX; lia|].
  apply (gradient_within_stops 1024). unfold valid_size, INT_MAX. lia.
Defined.

(** ** The background's extremes and symmetry *)

Lemma fadd_comm a b : fadd a b = fadd b a.
Proof.
  unfold fadd. destruct a as [sa|sa| |sa ma ea], b as [sb|sb| |sb mb eb]; cbn [SFadd];
    try reflexivity.
  - by destruct sa, sb.
  - by destruct sa, sb.
  - rewrite (Z.min_comm eb ea). f_equal. apply Z.add_comm.
Qed.

Lemma fsub_self s m e : fsub (S754_finite s m e) (S754_finite s m e) = S754_zero false.
Proof.
  unfold fsub. cbn [SFsub]. rewrite Z.min_id, Z.sub_diag. reflexivity.
Qed.

(** [size / 2] is the normal float of value one half of [size]. *)
Lemma half_shape N :
  valid_size N ->
  exists m e,
    py_truediv (PInt N) (PInt 2) = Ok (PFloat (S754_finite false m e)) /\
    Z.pos (digits2_pos m) = 53 /\
    (inject_Z (Z.pos m) * pow2 e == inject_Z N * (1 # 2))%Q.
Proof.
  intros [HN0 HN1]. unfold INT_MAX in HN1.
  destruct (truediv_pos N 2) as (m & e & Hdiv & Hr & Hd).
  { change (2 ^ 31) with 2147483648. lia. }
  { change (2 ^ 31) with 2147483648. lia. }
  exists m, e. split; [exact Hdiv|]. split; [exact Hd|].
  apply (rounds_exact _ _ Hr). apply (srepr_ext (dy N 1)); [reflexivity|].
  apply dy_srepr; [|lia]. change (2 ^ 53) with 9007199254740992. lia.
Qed.

(** A normal float divided into its opposite gives [-1.0]. *)
Lemma fdiv_neg_self m e :
  Z.pos (digits2_pos m) = 53 ->
  fdiv (S754_finite true m e) (S754_finite false m e)
  = S754_finite true 4503599627370496 (-52).
Proof.
  intros Hd.
  destruct (fdiv_rounds true m e false m e) as (Hr & _ & Hn); [lia|lia|].
  destruct Hn as (m2 & e2 & Heq & Hd2); [lia|]. cbn [xorb] in Heq.
  rewrite Heq in Hr |- *.
  assert (SF2Q (S754_finite true m2 e2) == inject_Z (-1))%Q as Hv.
  { apply (rounds_exact (inject_Z (-1))).
    - eapply rounds_ext; [|exact Hr]. cbn [SF2Q cond_Zopp].
      pose proof (pow2_pos e). change (Z.neg m) with (- Z.pos m).
      rewrite inject_Z_opp. change (inject_Z (-1)) with (-1)%Q.
      assert (0 < inject_Z (Z.pos m))%Q by (change 0%Q with (inject_Z 0); by rewrite <- Zlt_Qlt).
      field. split; lra.
    - apply srepr_Z. done. }
  cbn [SF2Q cond_Zopp] in Hv. change (Z.neg m2) with (- Z.pos m2) in Hv.
  rewrite inject_Z_opp in Hv. change (inject_Z (-1)) with (-1)%Q in Hv.
  assert (inject_Z (Z.pos m2) * pow2 e2 == inject_Z (Z.pos 4503599627370496) * pow2 (-52))%Q
    as Hone.
  { rewrite one_val52. lra. }
  destruct (normal_unique m2 e2 4503599627370496 (-52) Hd2 ltac:(reflexivity) Hone) as [-> ->].
  reflexivity.
Qed.

(** X7: on every canvas the background's pixel at the top left corner has
    exactly the dark colour, and on a canvas of even dimension the pixel
    at the centre has exactly the lighter colour. *)
Theorem background_extremes (N : Z) :
  valid_size N ->
  exists img,
    paint_background N (blank N N (0, 0, 0, 0)) = Ok img /\
    px img 0 0 = (bg_dark.1.1, bg_dark.1.2, bg_dark.2, 255) /\
    (N mod 2 = 0 ->
     px img (N / 2) (N / 2) = (bg_lighter.1.1, bg_lighter.1.2, bg_lighter.2, 255)).
Proof.
  intros HN. pose proof HN as [HN0 HN1]. unfold INT_MAX in HN1.
  destruct (paint_background_ok N (blank N N (0, 0, 0, 0)) HN eq_refl eq_refl)
    as (img & Hrun & _ & _ & Hpx).
  exists img. split; [exact Hrun|].
  destruct (half_shape N HN) as (m & e & Hh & Hd & Hv).
  assert (is_zero (S754_finite false m e) = false) as Hz by reflexivity.
  split.
  - assert (bg_pixel N 0 0 = Ok (24, 24, 27, 255)) as Hc.
    { unfold bg_pixel. rewrite Hh. cbn [mbind result_bind].
      change (py_sub (PInt 0) (PFloat (S754_finite false m e)))
        with (Ok (A := num) (PFloat (S754_finite true m e))).
      cbn [mbind result_bind]. rewrite (py_truediv_float _ _ Hz).
      cbn [mbind result_bind]. rewrite (fdiv_neg_self m e Hd).
      vm_compute. reflexivity. }
    rewrite (Hpx 0 0 ltac:(lia) ltac:(lia)) in Hc. injection Hc as ->. reflexivity.
  - intros Heven.
    assert (0 < N / 2 < 2 ^ 53) as Hc.
    { change (2 ^ 53) with 9007199254740992.
      pose proof (Z.div_mod N 2 ltac:(lia)). lia. }
    destruct (of_Z_pos_shape (N / 2) Hc) as (m' & e' & Hof & Hd' & _).
    pose proof (of_Z_exact (N / 2) ltac:(lia)) as Hex. rewrite Hof in Hex.
    cbn [SF2Q cond_Zopp] in Hex.
    assert (inject_Z (Z.pos m') * pow2 e' == inject_Z (Z.pos m) * pow2 e)%Q as Hsame.
    { rewrite Hex, Hv. pose proof (Z.div_mod N 2 ltac:(lia)) as Hdm.
      rewrite Heven, Z.add_0_r in Hdm. rewrite Hdm at 2.
      rewrite inject_Z_mult. change (inject_Z 2) with 2%Q. field. }
    destruct (normal_unique m' e' m e Hd' Hd Hsame) as [-> ->].
    assert (bg_pixel N (N / 2) (N / 2) = Ok (39, 39, 42, 255)) as Hpix.
    { unfold bg_pixel. rewrite Hh. cbn [mbind result_bind].
      unfold py_sub. cbn [as_float]. unfold float_of_int. rewrite Hof.
      cbn [is_finite mbind result_bind]. rewrite fsub_self.
      rewrite (py_truediv_float _ _ Hz). cbn [mbind result_bind].
      vm_compute. reflexivity. }
    rewrite (Hpx (N / 2) (N / 2)) in Hpix.
    + injection Hpix as ->. reflexivity.
    + pose proof (Z.div_mod N 2 ltac:(lia)). lia.
    + pose proof (Z.div_mod N 2 ltac:(lia)). lia.
Qed.

Lemma background_extremes_1024 :
  valid_size 1024 /\
  exists img,
    paint_background 1024 (blank 1024 1024 (0, 0, 0, 0)) = Ok img /\
    px img 0 0 = (bg_dark.1.1, bg_dark.1.2, bg_dark.2, 255) /\
    (1024 mod 2 = 0 ->
     px img (1024 / 2) (1024 / 2) = (bg_lighter.1.1, bg_lighter.1.2, bg_lighter.2, 255)).
Proof.
  split; [unfold valid_size, INT_MAX; lia|].
  apply (background_extremes 1024). unfold valid_size, INT_MAX. lia.
Defined.

(** The colour of a pixel is the shade at its two normalised coordinates. *)
Lemma bg_pixel_split N x y :
  valid_size N -> 0 <= x < N -> 0 <= y < N ->
  exists dx dy,
    bg_coord N x = Ok (PFloat dx) /\ bg_coord N y = Ok (PFloat dy) /\
    bg_pixel N x y = bg_shade (PFloat dx) (PFloat dy).
Proof.
  intros HN Hx Hy. pose proof HN as [HN0 HN1]. unfold INT_MAX in HN1.
  assert (2 ^ 53 = 9007199254740992) as H53 by reflexivity.
  destruct (half_size N HN) as (h & Hh & Hhfin & Hhz).
  destruct (py_sub_int_any x h ltac:(lia)) as (nx & Hnx).
  destruct (py_sub_int_any y h ltac:(lia)) as (ny & Hny).
  exists (fdiv nx h), (fdiv ny h).
  unfold bg_coord, bg_pixel. rewrite Hh. cbn [mbind result_bind].
  rewrite Hnx, Hny. cbn [mbind result_bind]. rewrite !(py_truediv_float _ h Hhz).
  cbn [mbind result_bind]. by repeat split.
Qed.

Lemma bg_shade_sym dx dy : bg_shade (PFloat dx) (PFloat dy) = bg_shade (PFloat dy) (PFloat dx).
Proof.
  unfold bg_shade. cbn [py_mul py_add as_float mbind result_bind].
  by rewrite (fadd_comm (fmul dy dy)).
Qed.

(** X8: the background is symmetric about the diagonal: on every canvas
    the pixels at (x, y) and at (y, x) have the same colour. *)
Theorem background_diagonal_symmetry (N : Z) :
  valid_size N ->
  exists img,
    paint_background N (blank N N (0, 0, 0, 0)) = Ok img /\
    forall x y, 0 <= x < N -> 0 <= y < N -> px img x y = px img y x.
Proof.
  intros HN.
  destruct (paint_background_ok N (blank N N (0, 0, 0, 0)) HN eq_refl eq_refl)
    as (img & Hrun & _ & _ & Hpx).
  exists img. split; [exact Hrun|]. intros x y Hx Hy.
  destruct (bg_pixel_split N x y HN Hx Hy) as (dx & dy & Hdx & Hdy & Hxy).
  destruct (bg_pixel_split N y x HN Hy Hx) as (dy' & dx' & Hdy' & Hdx' & Hyx).
  rewrite Hdx in Hdx'. rewrite Hdy in Hdy'. injection Hdx' as <-. injection Hdy' as <-.
  rewrite bg_shade_sym, <- Hxy in Hyx.
  rewrite (Hpx x y Hx Hy), (Hpx y x Hy Hx) in Hyx. by injection Hyx.
Qed.

Lemma background_diagonal_symmetry_1024 :
  valid_size 1024 /\
  exists img,
    paint_background 1024 (blank 1024 1024 (0, 0, 0, 0)) = Ok img /\
    forall x y, 0 <= x < 1024 -> 0 <= y < 1024 -> px img x y = px img y x.
Proof.
  split; [unfold valid_size, INT_MAX; lia|].
  apply (background_diagonal_symmetry 1024). unfold valid_size, INT_MAX. lia.
Defined.

(** ** The layout in exact arithmetic *)

(** The layout in exact integer arithmetic. *)
Lemma glyph_geometry_floor (N : Z) :
  valid_size N ->
  exists g,
    glyph_geometry N = Ok g /\
    scaled N c_0_22 = Ok (N * 22 / 100) /\
    margin_top g = N * 22 / 100 /\ margin_bottom g = N * 22 / 100 /\
    stroke g = N / 8 /\
    v_depth g = N * 28 / 100 /\
    N * 18 / 100 - 1 <= margin_x g <= N * 18 / 100 /\
    ((N * 18) mod 100 <> 0 -> margin_x g = N * 18 / 100) /\
    center_x g = N / 2 /\ canvas g = N.
Proof.
  intros [HN0 HN1]. unfold INT_MAX in HN1.
  assert (0 <= N < 2 ^ 31) as HN by (change (2 ^ 31) with 2147483648; lia).
  pose proof (scaled_exact N c_0_22 7 8 5 22 100 HN ltac:(lia) ltac:(lia) c_0_22_between
                (proj1 c_0_22_fraction) (proj2 c_0_22_fraction)) as H22.
  pose proof (scaled_exact N c_0_28 8 9 5 28 100 HN ltac:(lia) ltac:(lia) c_0_28_between
                (proj1 c_0_28_fraction) (proj2 c_0_28_fraction)) as H28.
  pose proof (scaled_exact N c_0_125 1 1 3 1 8 HN ltac:(lia) ltac:(lia) c_0_125_between
                (proj1 c_0_125_fraction) (proj2 c_0_125_fraction)) as H125.
  rewrite Z.mul_1_r in H125.
  destruct c_0_18_between as (Hfc & Hnc & Hec & _).
  destruct (scaled_floor N c_0_18 18 100 HN ltac:(lia) ltac:(lia) Hfc Hnc Hec
              (proj1 c_0_18_fraction) (proj2 c_0_18_fraction)) as (mx & H18 & Hmx & Hmxe).
  exists (Geometry mx (N * 22 / 100) (N * 22 / 100) (N / 8) (N * 28 / 100) N).
  split.
  { unfold glyph_geometry. rewrite H18, H22, H125, H28. reflexivity. }
  split; [exact H22|]. cbn [margin_top margin_bottom stroke v_depth margin_x canvas].
  split; [reflexivity|]. split; [reflexivity|]. split; [reflexivity|]. split; [reflexivity|].
  split; [exact Hmx|]. split; [intros Hne; apply Hmxe; by left|]. split; reflexivity.
Qed.

(** X9: the layout that [create_icon] computes in floats is the layout of
    exact integer arithmetic: on every canvas the corner radius and the
    top and bottom margins are the floor of 22 N / 100, the stroke the
    floor of N / 8, the depth of the V the floor of 28 N / 100, and the
    side margin the floor of 18 N / 100 whenever 18 N is not a multiple of
    100 (and that floor or one less otherwise). *)
Theorem layout_exact (N : Z) :
  valid_size N ->
  exists g,
    glyph_geometry N = Ok g /\
    scaled N c_0_22 = Ok (N * 22 / 100) /\
    margin_top g = N * 22 / 100 /\ margin_bottom g = N * 22 / 100 /\
    stroke g = N / 8 /\
    v_depth g = N * 28 / 100 /\
    N * 18 / 100 - 1 <= margin_x g <= N * 18 / 100 /\
    ((N * 18) mod 100 <> 0 -> margin_x g = N * 18 / 100) /\
    center_x g = N / 2 /\ canvas g = N.
Proof. exact (glyph_geometry_floor N). Qed.

Lemma layout_exact_1024 :
  valid_size 1024 /\
  exists g,
    glyph_geometry 1024 = Ok g /\
    margin_top g = 1024 * 22 / 100 /\ stroke g = 1024 / 8 /\
    v_depth g = 1024 * 28 / 100 /\ margin_x g = 1024 * 18 / 100.
Proof.
  split; [unfold valid_size, INT_MAX; lia|].
  destruct (layout_exact 1024) as (g & Hg & _ & Hmt & _ & Hs & Hv & _ & Hmx & _).
  - unfold valid_size, INT_MAX. lia.
  - exists g. split; [exact Hg|]. split; [exact Hmt|]. split; [exact Hs|].
    split; [exact Hv|]. apply Hmx. vm_compute. discriminate.
Defined.

(** ** The outline's vertices in order *)

Lemma dy4_ge n a f : (dy a 2 <= f)%Q -> n * 4 <= a -> (inject_Z n <= f)%Q.
Proof.
  intros Hf Ha. rewrite (dy_Z_4 n). eapply Qle_trans; [|exact Hf]. by apply dy_le.
Qed.

Lemma dy4_le n b f : (f <= dy b 2)%Q -> b <= n * 4 -> (f <= inject_Z n)%Q.
Proof.
  intros Hf Hb. rewrite (dy_Z_4 n). eapply Qle_trans; [exact Hf|]. by apply dy_le.
Qed.

(** X10: on every canvas the outline is a proper M.  From left to right
    its vertices are the left edge, the left inner edge, the start of the
    inward diagonal, the centre, the end of the outward diagonal, the
    right inner edge and the right edge; from top to bottom the top, the
    tops of the inner contour, the inner peak and the bottom, and both
    peaks lie between top and bottom. *)
Theorem outline_ordered (N : Z) :
  valid_size N ->
  exists g x3 x5 y9 y10,
    glyph_geometry N = Ok g /\
    m_outer g =
      Ok [ (PInt (left g), PInt (bottom g));
           (PInt (left g), PInt (top g));
           (PFloat x3, PInt (top g));
           (PInt (center_x g), PInt (top g + v_depth g));
           (PFloat x5, PInt (top g));
           (PInt (right g), PInt (top g));
           (PInt (right g), PInt (bottom g));
           (PInt (right g - stroke g), PInt (bottom g));
           (PInt (right g - stroke g), PFloat y9);
           (PInt (center_x g), PFloat y10);
           (PInt (left g + stroke g), PFloat y9);
           (PInt (left g + stroke g), PInt (bottom g)) ] /\
    0 <= left g <= left g + stroke g /\
    (inject_Z (left g + stroke g) <= SF2Q x3)%Q /\
    (SF2Q x3 <= inject_Z (center_x g))%Q /\
    (inject_Z (center_x g) <= SF2Q x5)%Q /\
    (SF2Q x5 <= inject_Z (right g - stroke g))%Q /\
    right g - stroke g <= right g <= N /\
    0 <= top g <= top g + v_depth g /\
    (inject_Z (top g) <= SF2Q y9)%Q /\
    (SF2Q y9 <= SF2Q y10)%Q /\
    (inject_Z (top g + v_depth g) <= SF2Q y10)%Q /\
    (SF2Q y10 <= inject_Z (bottom g))%Q /\
    bottom g <= N.
Proof.
  intros HN. pose proof HN as [HN0 HN1].
  destruct (glyph_geometry_floor N HN)
    as (g & Hg & _ & Hmt & Hmb & Hs & Hv & Hmx & _ & Hcx & Hcv).
  destruct (glyph_geometry_ok N ltac:(lia)) as (g' & Hg' & Hgeo).
  rewrite Hg in Hg'. injection Hg' as <-.
  destruct (m_outer_ok N g ltac:(lia) Hgeo)
    as (x3 & x5 & y9 & y10 & Hpts & (_ & H3l & H3u) & (_ & H5l & H5u) & (_ & H9l & H9u)
        & (_ & H10l & H10u)).
  exists g, x3, x5, y9, y10. split; [exact Hg|]. split; [exact Hpts|].
  unfold geometry_of in Hgeo. unfold left, right, top, bottom in *.
  rewrite Hcx. rewrite Hcv, Hmb, Hmt, Hs, Hv in *.
  pose proof (Z.div_mod N 2 ltac:(lia)) as HN2.
  pose proof (Z.mod_pos_bound N 2 ltac:(lia)) as HN2'.
  pose proof (Z.div_mod N 8 ltac:(lia)) as HN8.
  pose proof (Z.mod_pos_bound N 8 ltac:(lia)) as HN8'.
  pose proof (Z.div_mod (N * 22) 100 ltac:(lia)) as H22.
  pose proof (Z.mod_pos_bound (N * 22) 100 ltac:(lia)) as H22'.
  pose proof (Z.div_mod (N * 28) 100 ltac:(lia)) as H28.
  pose proof (Z.mod_pos_bound (N * 28) 100 ltac:(lia)) as H28'.
  pose proof (Z.div_mod (N * 18) 100 ltac:(lia)) as H18.
  pose proof (Z.mod_pos_bound (N * 18) 100 ltac:(lia)) as H18'.
  destruct Hgeo as (_ & _ & Hmx0 & _).
  split; [lia|].
  split; [apply (dy4_ge _ _ _ H3l); lia|].
  split; [apply (dy4_le _ _ _ H3u); lia|].
  split; [apply (dy4_ge _ _ _ H5l); lia|].
  split; [apply (dy4_le _ _ _ H5u); lia|].
  split; [lia|]. split; [lia|].
  split; [apply (dy4_ge _ _ _ H9l); lia|].
  split.
  { eapply Qle_trans; [exact H9u|]. eapply Qle_trans; [|exact H10l]. apply dy_le; lia. }
  split; [apply (dy4_ge _ _ _ H10l); lia|].
  split; [apply (dy4_le _ _ _ H10u); lia|]. lia.
Qed.

Lemma outline_ordered_1024 :
  valid_size 1024 /\
  exists g x3 x5 y9 y10,
    glyph_geometry 1024 = Ok g /\
    (inject_Z (left g + stroke g) <= SF2Q x3)%Q /\
    (SF2Q x3 <= inject_Z (center_x g))%Q /\
    (inject_Z (center_x g) <= SF2Q x5)%Q /\
    (SF2Q x5 <= inject_Z (right g - stroke g))%Q /\
    (SF2Q y9 <= SF2Q y10)%Q.
Proof.
  split; [unfold valid_size, INT_MAX; lia|].
  destruct (outline_ordered 1024)
    as (g & x3 & x5 & y9 & y10 & Hg & _ & _ & H1 & H2 & H3 & H4 & _ & _ & _ & H5 & _).
  - unfold valid_size, INT_MAX. lia.
  - exists g, x3, x5, y9, y10. split; [exact Hg|]. split; [exact H1|]. split; [exact H2|].
    split; [exact H3|]. split; [exact H4|exact H5].
Defined.

(** ** The manifest and the files *)

Section Manifest.
Context {pil : Pillow}.

(** A run on a machine where PIL is importable and every output path can
    be written completes and leaves the twelve files. *)
Lemma program_completes w :
  pil_importable w = true ->
  (forall p, p ∈ output_dir_of (script_file w) :: output_paths (output_dir_of (script_file w)) ->
     writable w p = true) ->
  exists icon w',
    create_icon full_ns 1024 = Ok icon /\
    program w = (Ok tt, w') /\
    fs w' = foldl put_file (fs w) (expected_files icon (output_dir_of (script_file w))).
Proof.
  intros Hpil Hw. set (out := output_dir_of (script_file w)) in *.
  assert (writable w out = true) as Hout by (apply Hw; left).
  assert (writable_run (writable w) (output_paths out) = length (output_paths out)) as Hfull.
  { apply writable_run_full. intros q Hq. apply Hw. by right. }
  assert (outcome_at (output_paths out) (length (output_paths out)) = Ok tt) as Hok.
  { apply outcome_at_None. by apply lookup_ge_None_2. }
  destruct (program_until w Hpil Hout) as (icon & w' & Hicon & Hrun & Hwrote).
  fold out in Hrun, Hwrote. rewrite Hfull in Hrun, Hwrote. rewrite Hok in Hrun.
  rewrite take_ge in Hwrote by reflexivity.
  destruct Hwrote as (Hfs & _). cbn [fs emit] in Hfs.
  exists icon, w'. split; [exact Hicon|]. split; [exact Hrun|exact Hfs].
Qed.

(** X12: after a completed run every entry of the manifest describes a
    file that is there: the PNG under the entry's filename has the pixel
    dimensions the entry declares, its size in points times its scale. *)
Theorem manifest_describes_files (w : world) :
  let out := output_dir_of (script_file w) in
  pil_importable w = true ->
  (forall p, p ∈ out :: output_paths out -> writable w p = true) ->
  exists w',
    program w = (Ok tt, w') /\
    fs w' !! (out ++ ["Contents.json"]) = Some (JSONText contents 2) /\
    length (manifest_images contents) = 10%nat /\
    Forall (entry_on_disk (fs w') out) (manifest_images contents).
Proof.
  cbv zeta. intros Hpil Hw. set (out := output_dir_of (script_file w)) in *.
  destruct (program_completes w Hpil Hw) as (icon & w' & _ & Hrun & Hfs).
  fold out in Hfs.
  assert (forall p f, (p, f) ∈ expected_files icon out -> fs w' !! p = Some f) as Hlook.
  { intros p f Hin. rewrite Hfs. apply lookup_put_files; [|exact Hin].
    rewrite expected_paths. apply output_paths_NoDup. }
  exists w'. split; [exact Hrun|]. split.
  { apply Hlook. unfold expected_files. apply elem_of_app. right.
    apply list_elem_of_further, list_elem_of_here. }
  split; [reflexivity|].
  assert (forall size name,
            (size, name) ∈ sizes ->
            fs w' !! (out ++ [name]) = Some (PNG (resize icon (size, size)))) as Hsized.
  { intros size name Hin. apply Hlook. unfold expected_files. apply elem_of_app. left.
    by apply (list_elem_of_fmap_2 (sized_file icon out) _ (size, name)). }
  change (manifest_images contents) with
    [ manifest_entry "icon_16x16.png" "1x" "16x16";
      manifest_entry "icon_16x16@2x.png" "2x" "16x16";
      manifest_entry "icon_32x32.png" "1x" "32x32";
      manifest_entry "icon_32x32@2x.png" "2x" "32x32";
      manifest_entry "icon_128x128.png" "1x" "128x128";
      manifest_entry "icon_128x128@2x.png" "2x" "128x128";
      manifest_entry "icon_256x256.png" "1x" "256x256";
      manifest_entry "icon_256x256@2x.png" "2x" "256x256";
      manifest_entry "icon_512x512.png" "1x" "512x512";
      manifest_entry "icon_512x512@2x.png" "2x" "512x512" ].
  repeat first
    [ apply Forall_nil_2
    | apply Forall_cons_2;
      [ eexists _, _, _;
        split; [reflexivity|]; split; [vm_compute; reflexivity|];
        split; [apply Hsized; unfold sizes;
                repeat first [apply list_elem_of_here | apply list_elem_of_further]
               |split; reflexivity]
      | ] ].
Qed.

(** X11: the final masking changes no colour channel, and inside the
    canvas it leaves a pixel's alpha as it was (clipped to a byte) where
    [rounded_rectangle] drew and sets it to 0 where it did not. *)
Theorem remask_keeps_colour (ns : gset string) (N : Z) :
  valid_size N -> (forall name, name ∈ pil_names -> name ∈ ns) ->
  exists R bg0 g pts grad0 radius final,
    scaled N c_0_22 = Ok R /\
    paint_background N (blank N N (0, 0, 0, 0)) = Ok bg0 /\
    glyph_geometry N = Ok g /\ m_outer g = Ok pts /\
    paint_gradient N g (blank N N (0, 0, 0, 0)) = Ok grad0 /\
    py_mul (PInt N) (PFloat c_0_04) = Ok radius /\
    create_icon ns N = Ok final /\
    forall x y, 0 <= x < N -> 0 <= y < N ->
      (px final x y).1 = (px (flattened N R bg0 grad0 pts radius) x y).1 /\
      alpha (px final x y)
      = if rounded_rectangle_covers (0, 0, N, N) R x y
        then clip8 (alpha (px (flattened N R bg0 grad0 pts radius) x y))
        else 0.
Proof.
  intros HN Hns.
  destruct (create_icon_ok ns N HN Hns)
    as (R & bg0 & g & pts & grad0 & radius & HR & Hbg & Hg & _ & Hpts & Hgrad & Hrad
        & _ & _ & _ & _ & Hrun).
  exists R, bg0, g, pts, grad0, radius, (icon_of N R bg0 grad0 pts radius).
  repeat (split; [assumption|]).
  intros x y Hx Hy. split.
  - unfold icon_of. cbv zeta. unfold with_alpha. cbn [px].
    by destruct (px (flattened N R bg0 grad0 pts radius) x y) as [[[r gr] b] a].
  - rewrite icon_of_alpha. unfold mask_of. rewrite px_draw by done.
    destruct (rounded_rectangle_covers (0, 0, N, N) R x y).
    + by rewrite Z.div_mul.
    + by rewrite Z.mul_0_r.
Qed.

End Manifest.

Lemma manifest_describes_files_machine :
  pil_importable (machine true 0 true) = true /\
  exists w',
    @program reference_pillow (machine true 0 true) = (Ok tt, w') /\
    Forall (entry_on_disk (fs w') (output_dir_of (script_file (machine true 0 true))))
      (manifest_images contents).
Proof.
  split; [reflexivity|].
  destruct (@manifest_describes_files reference_pillow (machine true 0 true))
    as (w' & Hrun & _ & _ & Hall).
  - reflexivity.
  - intros p _. reflexivity.
  - exists w'. split; [exact Hrun|exact Hall].
Defined.

Lemma remask_keeps_colour_1024 :
  valid_size 1024 /\ (forall name, name ∈ pil_names -> name ∈ full_ns) /\
  exists final, @create_icon reference_pillow full_ns 1024 = Ok final.
Proof.
  split; [unfold valid_size, INT_MAX; lia|].
  split; [exact full_ns_names|].
  destruct (@remask_keeps_colour reference_pillow full_ns 1024)
    as (R & bg0 & g & pts & grad0 & radius & final & _ & _ & _ & _ & _ & _ & Hrun & _).
  - unfold valid_size, INT_MAX. lia.
  - exact full_ns_names.
  - exists final. exact Hrun.
Defined.

